(** * Verification of [render_issue_bundle_markdown.py]

    A shallow embedding of the issue-bundle renderer
    (agile-issue-splitter/scripts/render_issue_bundle_markdown.py) and the
    properties of it that the specification states.

    Python strings are sequences of Unicode code points, JSON documents are
    the values [json.loads] produces, and the mutable [lines] list the
    renderer appends to is threaded through a small state-and-exception
    monad. *)

From Stdlib Require Import List ZArith NArith Bool Ascii String Lia.
From Stdlib Require Import DecimalString Floats Sorting.Sorted Permutation.
Import ListNotations.

#[local] Set Warnings "-register-all".


Local Open Scope N_scope.
Local Open Scope list_scope.

(** ** Strings *)

(** A Python [str]: a list of Unicode code points. *)
Definition char := N.
Definition str := list char.

(** An ASCII literal of the source as a [str]. *)
Definition lit (s : string) : str :=
  map N_of_ascii (list_ascii_of_string s).

(** The placeholder, an em dash (U+2014). *)
Definition DASH : str := [8212].

Definition NEWLINE : char := 10.
Definition SPACE : char := 32.
Definition PIPE : char := 124.
Definition BACKSLASH : char := 92.
Definition HYPHEN : char := 45.

Definition str_eqb (a b : str) : bool :=
  if list_eq_dec N.eq_dec a b then true else false.

(** [sep.join(parts)] *)
Fixpoint join (sep : str) (parts : list str) : str :=
  match parts with
  | [] => []
  | [p] => p
  | p :: rest => p ++ sep ++ join sep rest
  end.

(** [s.replace(c, by)] for a one-character pattern [c]. *)
Definition replace_char (c : char) (by_ : str) (s : str) : str :=
  flat_map (fun x => if N.eqb x c then by_ else [x]) s.

(** Code points that [str.strip()] and [str.rstrip()] remove: those for
    which [str.isspace] holds. *)
Definition is_space (c : char) : bool :=
  ((9 <=? c) && (c <=? 13)) || ((28 <=? c) && (c <=? 32))
  || (c =? 133) || (c =? 160) || (c =? 5760)
  || ((8192 <=? c) && (c <=? 8202))
  || (c =? 8232) || (c =? 8233) || (c =? 8239) || (c =? 8287)
  || (c =? 12288).

Fixpoint lstrip (s : str) : str :=
  match s with
  | [] => []
  | c :: s' => if is_space c then lstrip s' else s
  end.

Definition rstrip (s : str) : str := rev (lstrip (rev s)).

Definition strip (s : str) : str := rstrip (lstrip s).

(** [s.split("-", 1)[0]]: the part of [s] before its first [sep]. *)
Fixpoint before_first (sep : char) (s : str) : str :=
  match s with
  | [] => []
  | c :: s' => if N.eqb c sep then [] else c :: before_first sep s'
  end.

(** Lexicographic order of code points, the [<] of [str]. *)
Fixpoint str_ltb (a b : str) : bool :=
  match a, b with
  | _, [] => false
  | [], _ :: _ => true
  | x :: a', y :: b' => (x <? y) || ((x =? y) && str_ltb a' b')
  end.

(** ** JSON documents *)

(** The values [json.loads] returns. A [dict] keeps its insertion order; a
    lookup takes the first binding of a key. An integer of a document is one
    that [json.loads] has read, so it has no more digits than [int] and
    [str] convert. *)
Inductive value : Type :=
| VNone
| VBool (b : bool)
| VInt (z : Z)
| VFloat (f : float)
| VStr (s : str)
| VList (l : list value)
| VDict (d : list (str * value)).

Definition dict := list (str * value).

(** The parts of the interpreter and of its standard library that the
    renderer calls and that are tables, algorithms or settings of their own:
    the [repr] of a float, the Unicode database ([str.isprintable] beyond
    ASCII, the decimal digits [\d] matches and [int] reads), [json.dumps]
    with [indent=2, ensure_ascii=False], and the limit on the digits of a
    string that [int] converts, [sys.get_int_max_str_digits()]: 4300 unless
    configured, and 0 for no limit. *)
Record runtime : Type := {
  float_repr : float -> str;
  unicode_printable : char -> bool;
  unicode_decimal : char -> option N;
  json_dumps : value -> str;
  int_max_str_digits : nat
}.

(** [d.get(k)] as an option, and [k in d]. *)
Fixpoint lookup {A : Type} (k : str) (d : list (str * A)) : option A :=
  match d with
  | [] => None
  | (k', v) :: d' => if str_eqb k k' then Some v else lookup k d'
  end.

Definition has_key {A : Type} (k : str) (d : list (str * A)) : bool :=
  match lookup k d with Some _ => true | None => false end.

(** [d.get(k)] : [None] when the key is absent. *)
Definition get (k : string) (d : dict) : value :=
  match lookup (lit k) d with Some v => v | None => VNone end.

Definition is_dict (v : value) : bool :=
  match v with VDict _ => true | _ => false end.

Definition is_list (v : value) : bool :=
  match v with VList _ => true | _ => false end.

Definition is_str (v : value) : bool :=
  match v with VStr _ => true | _ => false end.

Definition is_none (v : value) : bool :=
  match v with VNone => true | _ => false end.

(** [v == s] for a string literal [s]. *)
Definition eq_str (v : value) (s : string) : bool :=
  match v with VStr t => str_eqb t (lit s) | _ => false end.

(** Truth value of a document value, the [bool(v)] behind [not v]. *)
Definition truthy (v : value) : bool :=
  match v with
  | VNone => false
  | VBool b => b
  | VInt z => negb (Z.eqb z 0)
  | VFloat f => negb (PrimFloat.eqb f PrimFloat.zero)
  | VStr s => match s with [] => false | _ => true end
  | VList l => match l with [] => false | _ => true end
  | VDict d => match d with [] => false | _ => true end
  end.

(** *** [str] and [repr] *)

Definition str_of_Z (z : Z) : str :=
  lit (NilZero.string_of_int (Z.to_int z)).

Definition hex_digit (n : N) : char :=
  if n <? 10 then 48 + n else 87 + n.

(** [width] lowercase hexadecimal digits of [n], most significant first. *)
Fixpoint hex (width : nat) (n : N) : str :=
  match width with
  | O => []
  | S w => hex w (n / 16) ++ [hex_digit (n mod 16)]
  end.

Definition QUOTE1 : char := 39.
Definition QUOTE2 : char := 34.

(** [repr] of a string: single quotes unless the string has a single quote
    and no double quote; backslash escapes for the quote, the backslash,
    tab, newline, carriage return and every code point that is not
    printable. *)
Definition repr_char (rt : runtime) (quote : char) (c : char) : str :=
  if (c =? quote) || (c =? BACKSLASH) then [BACKSLASH; c]
  else if c =? 9 then lit "\t"
  else if c =? 10 then lit "\n"
  else if c =? 13 then lit "\r"
  else if (c <? 32) || (c =? 127) then lit "\x" ++ hex 2 c
  else if c <? 127 then [c]
  else if unicode_printable rt c then [c]
  else if c <=? 255 then lit "\x" ++ hex 2 c
  else if c <=? 65535 then lit "\u" ++ hex 4 c
  else lit "\U" ++ hex 8 c.

Definition repr_str (rt : runtime) (s : str) : str :=
  let quote :=
    if existsb (N.eqb QUOTE1) s && negb (existsb (N.eqb QUOTE2) s)
    then QUOTE2 else QUOTE1 in
  [quote] ++ flat_map (repr_char rt quote) s ++ [quote].

Fixpoint py_repr (rt : runtime) (v : value) : str :=
  match v with
  | VNone => lit "None"
  | VBool true => lit "True"
  | VBool false => lit "False"
  | VInt z => str_of_Z z
  | VFloat f => float_repr rt f
  | VStr s => repr_str rt s
  | VList l => lit "[" ++ join (lit ", ") (map (py_repr rt) l) ++ lit "]"
  | VDict d =>
      lit "{"
      ++ join (lit ", ")
           (map (fun kv => match kv with
                           | (k, x) => repr_str rt k ++ lit ": " ++ py_repr rt x
                           end) d)
      ++ lit "}"
  end.

(** [str(v)]: the string itself for a [str], the [repr] otherwise. *)
Definition py_str (rt : runtime) (v : value) : str :=
  match v with
  | VStr s => s
  | _ => py_repr rt v
  end.

(** ** Exceptions *)

Inductive exn : Type :=
| ValueError (msg : str)
| TypeError (msg : str).

Inductive result (A : Type) : Type :=
| Ok (a : A)
| Raise (e : exn).
Arguments Ok {A} a.
Arguments Raise {A} e.

(** ** Identity sort key *)

Definition TYPE_DISPLAY : list (str * str) :=
  [(lit "user_story", lit "User Story"); (lit "task", lit "Task");
   (lit "bug", lit "Bug")].

Definition ISSUE_PREFIX_ORDER : list (str * Z) :=
  [(lit "US", 0%Z); (lit "TASK", 1%Z); (lit "BUG", 2%Z)].

Definition Q_PREFIX_ORDER : list (str * Z) := [(lit "Q", 0%Z)].
Definition E_PREFIX_ORDER : list (str * Z) := [(lit "E", 0%Z)].
Definition US_PREFIX_ORDER : list (str * Z) := [(lit "US", 0%Z)].

(** [A-Z] *)
Definition is_upper (c : char) : bool := (65 <=? c) && (c <=? 90).

(** The longest prefix of [s] whose code points satisfy [p], and the rest. *)
Fixpoint span (p : char -> bool) (s : str) : str * str :=
  match s with
  | [] => ([], [])
  | c :: s' =>
      if p c then let (a, b) := span p s' in (c :: a, b) else ([], s)
  end.

Definition is_decimal (rt : runtime) (c : char) : bool :=
  match unicode_decimal rt c with Some _ => true | None => false end.

(** [re.fullmatch(r"([A-Z]+)-(\d+)", s)]: the two groups. The hyphen is not
    in [A-Z], so the first group is the whole run of capitals the string
    starts with. *)
Definition fullmatch_id (rt : runtime) (s : str) : option (str * str) :=
  let (prefix, rest) := span is_upper s in
  match prefix, rest with
  | _ :: _, c :: num_str =>
      if (c =? HYPHEN) && forallb (is_decimal rt) num_str
      then match num_str with
           | [] => None
           | _ :: _ => Some (prefix, num_str)
           end
      else None
  | _, _ => None
  end.

(** The number a string of decimal digits denotes. *)
Definition digits_value (rt : runtime) (num_str : str) : Z :=
  Z.of_N
    (fold_left
       (fun acc c =>
          10 * acc + match unicode_decimal rt c with Some d => d | None => 0 end)
       num_str 0).

(** The interpreter checks the limit on strings of more than 640 digits,
    which is also the least limit that can be set. *)
Definition INT_MAX_STR_DIGITS_THRESHOLD : nat := 640.

Definition exceeds_int_limit (rt : runtime) (num_str : str) : bool :=
  (INT_MAX_STR_DIGITS_THRESHOLD <? List.length num_str)%nat
  && (0 <? int_max_str_digits rt)%nat
  && (int_max_str_digits rt <? List.length num_str)%nat.

Definition int_limit_message (rt : runtime) (num_str : str) : str :=
  lit "Exceeds the limit ("
  ++ str_of_Z (Z.of_nat (int_max_str_digits rt))
  ++ lit " digits) for integer string conversion: value has "
  ++ str_of_Z (Z.of_nat (List.length num_str))
  ++ lit " digits; use sys.set_int_max_str_digits() to increase the limit".

(** [int(num_str)] on a string of decimal digits: [ValueError] when the
    string has more digits than the limit. *)
Definition int_of_digits (rt : runtime) (num_str : str) : result Z :=
  if exceeds_int_limit rt num_str
  then Raise (ValueError (int_limit_message rt num_str))
  else Ok (digits_value rt num_str).

Definition id_key : Type := Z * Z * str.

Definition _id_key (rt : runtime) (value : value)
    (prefix_order : list (str * Z)) : result id_key :=
  match value with
  | VStr s =>
      match fullmatch_id rt s with
      | None => Ok (99%Z, 0%Z, s)
      | Some (prefix, num_str) =>
          match int_of_digits rt num_str with
          | Raise e => Raise e
          | Ok n =>
              Ok (match lookup prefix prefix_order with
                  | Some r => r
                  | None => 99%Z
                  end, n, s)
          end
      end
  | _ => Ok (99%Z, 0%Z, py_str rt value)
  end.

(** The [<] of the key tuples. *)
Definition id_key_ltb (a b : id_key) : bool :=
  match a, b with
  | (r1, n1, s1), (r2, n2, s2) =>
      (r1 <? r2)%Z
      || ((r1 =? r2)%Z && ((n1 <? n2)%Z || ((n1 =? n2)%Z && str_ltb s1 s2)))
  end.

(** The stable sort by [<] on keys that have been computed. An element is
    placed before the first one whose key is not smaller than its own. *)
Section Sorted.
Context {A K : Type} (ltb : K -> K -> bool) (key : A -> K).

Fixpoint insert_sorted (x : A) (l : list A) : list A :=
  match l with
  | [] => [x]
  | y :: l' =>
      if ltb (key y) (key x) then y :: insert_sorted x l' else x :: l
  end.

Definition sorted (l : list A) : list A := fold_right insert_sorted [] l.

(** The order [sorted] establishes: no element has a key smaller than the
    key of an element before it. *)
Definition not_after (a b : A) : Prop := ltb (key b) (key a) = false.
End Sorted.

(** The keys of the elements, computed in the order of the list: the first
    call of [key] that raises ends the computation. *)
Fixpoint keys_of {A K : Type} (key : A -> result K) (xs : list A)
    : result (list K) :=
  match xs with
  | [] => Ok []
  | x :: xs' =>
      match key x with
      | Raise e => Raise e
      | Ok k =>
          match keys_of key xs' with
          | Raise e => Raise e
          | Ok ks => Ok (k :: ks)
          end
      end
  end.

(** [sorted(xs, key=key)]: the keys are computed first, one call per
    element in the order of the list, and then the elements are sorted by
    their keys. *)
Definition py_sorted {A K : Type} (ltb : K -> K -> bool) (key : A -> result K)
    (xs : list A) : result (list A) :=
  match keys_of key xs with
  | Raise e => Raise e
  | Ok ks => Ok (map snd (sorted ltb fst (combine ks xs)))
  end.

(** ** Cell and estimate formatters *)

Definition _md_cell (rt : runtime) (value : value) : str :=
  match value with
  | VNone => DASH
  | _ =>
      let value :=
        match value with
        | VList items =>
            VStr (join (lit ", ")
                    (map (py_str rt)
                       (filter (fun item => negb (is_none item)) items)))
        | _ => value
        end in
      let text := strip (replace_char NEWLINE [SPACE] (py_str rt value)) in
      match text with
      | [] => DASH
      | _ => replace_char PIPE [BACKSLASH; PIPE] text
      end
  end.

Definition _format_estimate (rt : runtime) (estimate : value) : str :=
  match estimate with
  | VDict e =>
      let method := get "method" e in
      let value := get "value" e in
      if is_none method then DASH
      else if eq_str method "unknown" then lit "unknown"
      else if is_none value then py_str rt method
      else py_str rt method ++ [SPACE] ++ py_str rt value
  | _ => DASH
  end.

(** ** The [lines] state *)

(** A computation that appends to [lines] and may raise. *)
Definition M (A : Type) : Type := list str -> result (A * list str).

Definition ret {A : Type} (a : A) : M A := fun lines => Ok (a, lines).

Definition bind {A B : Type} (m : M A) (k : A -> M B) : M B :=
  fun lines =>
    match m lines with
    | Ok (a, lines') => k a lines'
    | Raise e => Raise e
    end.

Definition raise {A : Type} (e : exn) : M A := fun _ => Raise e.

(** [lines.append(line)] *)
Definition append (line : str) : M unit := fun lines => Ok (tt, lines ++ [line]).

(** [if lines and lines[-1] == "": lines.pop()] *)
Definition pop_blank : M unit :=
  fun lines =>
    match rev lines with
    | [] :: before => Ok (tt, rev before)
    | _ => Ok (tt, lines)
    end.

Declare Scope monad_scope.
Delimit Scope monad_scope with monad.
Notation "x <- m ;; k" := (bind m (fun x => k))
  (at level 61, m at next level, right associativity) : monad_scope.
Notation "m ;; k" := (bind m (fun _ => k))
  (at level 61, right associativity) : monad_scope.
Local Open Scope monad_scope.

(** [for x in xs: body(x)] *)
Fixpoint for_each {A : Type} (xs : list A) (body : A -> M unit) : M unit :=
  match xs with
  | [] => ret tt
  | x :: xs' => body x ;; for_each xs' body
  end.

(** [TYPE_DISPLAY.get(t, t)]: hashing a list or a dict raises. *)
Definition type_display (t : value) : result value :=
  match t with
  | VList _ => Raise (TypeError (lit "unhashable type: 'list'"))
  | VDict _ => Raise (TypeError (lit "unhashable type: 'dict'"))
  | VStr s =>
      match lookup s TYPE_DISPLAY with
      | Some shown => Ok (VStr shown)
      | None => Ok t
      end
  | _ => Ok t
  end.

Definition lift {A : Type} (r : result A) : M A :=
  fun lines =>
    match r with
    | Ok a => Ok (a, lines)
    | Raise e => Raise e
    end.

(** ** Shape validation *)

Definition _require_object (bundle : value) : result dict :=
  match bundle with
  | VDict b =>
      match find (fun key => negb (has_key (lit key) b))
              ["meta"; "epics"; "issues"]%string with
      | Some key =>
          Raise (ValueError (lit "missing required top-level key: " ++ lit key))
      | None =>
          if negb (is_dict (get "meta" b))
          then Raise (ValueError (lit "'meta' must be an object"))
          else if negb (is_list (get "epics" b))
          then Raise (ValueError (lit "'epics' must be an array"))
          else if negb (is_list (get "issues" b))
          then Raise (ValueError (lit "'issues' must be an array"))
          else Ok b
      end
  | _ => Raise (ValueError (lit "top-level JSON must be an object"))
  end.

(** ** Renderers *)

(** [v if isinstance(v, list) else []] *)
Definition list_or_empty (v : value) : list value :=
  match v with VList l => l | _ => [] end.

(** [[x for x in xs if isinstance(x, dict)]] *)
Definition dicts_of (xs : list value) : list dict :=
  flat_map (fun x => match x with VDict d => [d] | _ => [] end) xs.

(** [for item in items: lines.append(f"{prefix}{_md_cell(item)}")] *)
Definition append_items (rt : runtime) (prefix : str) (items : list value)
    : M unit :=
  for_each items (fun item => append (prefix ++ _md_cell rt item)).

(** The same loop, or the placeholder bullet for an empty list. *)
Definition append_items_or_dash (rt : runtime) (prefix : str)
    (items : list value) : M unit :=
  match items with
  | [] => append (prefix ++ DASH)
  | _ => append_items rt prefix items
  end.

Definition _render_meta (rt : runtime) (meta : dict) : M unit :=
  append (lit "## Meta") ;;
  append (lit "- **Source:** " ++ _md_cell rt (get "source" meta)) ;;
  append (lit "- **Generated:** " ++ _md_cell rt (get "generated_at" meta)) ;;
  let assumptions := list_or_empty (get "assumptions" meta) in
  append [] ;;
  append (lit "## Assumptions") ;;
  append_items_or_dash rt (lit "- ") assumptions ;;
  let open_questions := list_or_empty (get "open_questions" meta) in
  append [] ;;
  append (lit "## Open Questions") ;;
  match open_questions with
  | [] => append (lit "- " ++ DASH)
  | _ =>
      questions <-
        lift (py_sorted id_key_ltb
                (fun item => _id_key rt (get "id" item) Q_PREFIX_ORDER)
                (dicts_of open_questions)) ;;
      for_each questions
        (fun q =>
           let q_id := _md_cell rt (get "id" q) in
           let q_type := _md_cell rt (get "type" q) in
           let owner := _md_cell rt (get "owner" q) in
           let question := _md_cell rt (get "question" q) in
           append (lit "- **" ++ q_id ++ lit "** (" ++ q_type ++ lit ", owner: "
                   ++ owner ++ lit "): " ++ question) ;;
           match get "context" q with
           | VStr context =>
               match strip context with
               | [] => ret tt
               | _ => append (lit "  - Context: " ++ _md_cell rt (VStr context))
               end
           | _ => ret tt
           end)
  end.

(** [d[k] = v] *)
Fixpoint assign {A : Type} (k : str) (v : A) (d : list (str * A))
    : list (str * A) :=
  match d with
  | [] => [(k, v)]
  | (k', v') :: d' =>
      if str_eqb k k' then (k, v) :: d' else (k', v') :: assign k v d'
  end.

(** A loop that also updates a local variable. *)
Fixpoint for_fold {A S : Type} (xs : list A) (s : S) (body : A -> S -> M S)
    : M S :=
  match xs with
  | [] => ret s
  | x :: xs' => s' <- body x s ;; for_fold xs' s' body
  end.

Definition _render_epics (rt : runtime) (epics : list value)
    : M (list (str * dict)) :=
  append [] ;;
  append (lit "## Epics") ;;
  let epic_dicts := dicts_of epics in
  match epic_dicts with
  | [] => append (lit "- " ++ DASH) ;; ret []
  | _ =>
      epics_sorted <-
        lift (py_sorted id_key_ltb
                (fun e => _id_key rt (get "id" e) E_PREFIX_ORDER) epic_dicts) ;;
      epic_by_id <-
        for_fold epics_sorted []
          (fun epic epic_by_id =>
             let epic_by_id :=
               match get "id" epic with
               | VStr epic_id => assign epic_id epic epic_by_id
               | _ => epic_by_id
               end in
             append (lit "### " ++ _md_cell rt (get "id" epic) ++ lit ": "
                     ++ _md_cell rt (get "title" epic)) ;;
             append (lit "- **Objective:** "
                     ++ _md_cell rt (get "objective" epic)) ;;
             let exit_criteria := list_or_empty (get "exit_criteria" epic) in
             append (lit "- **Exit criteria:**") ;;
             append_items_or_dash rt (lit "  - ") exit_criteria ;;
             let non_goals := list_or_empty (get "non_goals" epic) in
             match non_goals with
             | [] => ret tt
             | _ =>
                 append (lit "- **Non-goals:**") ;;
                 append_items rt (lit "  - ") non_goals
             end ;;
             append [] ;;
             ret epic_by_id) ;;
      pop_blank ;;
      ret epic_by_id
  end.

Definition SUMMARY_HEADER : str :=
  lit "| ID | Type | P | Status | Epic | Parent | WS | Title | Blocked by |".

Definition SUMMARY_RULE : str := lit "|---|---|---|---|---|---|---|---|---|".

(** The nine cells of the row of an issue, when its type can be hashed. *)
Definition summary_cells (rt : runtime) (issue : dict) : result (list str) :=
  match type_display (get "type" issue) with
  | Raise e => Raise e
  | Ok shown =>
      Ok [_md_cell rt (get "id" issue);
          _md_cell rt shown;
          _md_cell rt (get "priority" issue);
          _md_cell rt (get "status" issue);
          _md_cell rt (get "epic_id" issue);
          _md_cell rt (get "parent_id" issue);
          _md_cell rt (get "workstream" issue);
          _md_cell rt (get "title" issue);
          _md_cell rt (get "blocked_by" issue)]
  end.

(** [f"| {c1} | {c2} | ... | {c9} |"] *)
Definition table_row (cells : list str) : str :=
  lit "| " ++ join (lit " | ") cells ++ lit " |".

Definition _render_summary_table (rt : runtime) (issues : list dict)
    : M unit :=
  append [] ;;
  append (lit "## Backlog Summary") ;;
  append [] ;;
  append SUMMARY_HEADER ;;
  append SUMMARY_RULE ;;
  for_each issues
    (fun issue =>
       cells <- lift (summary_cells rt issue) ;;
       append (table_row cells)).

Definition _render_issue_common (rt : runtime) (issue : dict) : M unit :=
  let issue_type := get "type" issue in
  append (lit "#### " ++ _md_cell rt (get "id" issue) ++ lit ": "
          ++ _md_cell rt (get "title" issue)) ;;
  shown <- lift (type_display issue_type) ;;
  append (lit "- **Type:** " ++ _md_cell rt shown
          ++ lit "  **Priority:** " ++ _md_cell rt (get "priority" issue)
          ++ lit "  **Status:** " ++ _md_cell rt (get "status" issue)
          ++ lit "  **Estimate:** "
          ++ _md_cell rt (VStr (_format_estimate rt (get "estimate" issue)))) ;;
  append (lit "- **Epic:** " ++ _md_cell rt (get "epic_id" issue)
          ++ lit "  **Parent:** " ++ _md_cell rt (get "parent_id" issue)
          ++ lit "  **Workstream:** " ++ _md_cell rt (get "workstream" issue)) ;;
  append (lit "- **Labels:** " ++ _md_cell rt (get "labels" issue)) ;;
  append (lit "- **Blocked by:** " ++ _md_cell rt (get "blocked_by" issue)) ;;
  append [] ;;
  append (lit "**Description**") ;;
  append (_md_cell rt (get "description" issue)).

(** [lines.append(""); lines.append(label);
    lines.append(_md_cell(issue.get(field)))]: a blank line, a bold label
    and the cell of one field. *)
Definition append_field (rt : runtime) (label : string) (field : string)
    (issue : dict) : M unit :=
  append [] ;;
  append (lit label) ;;
  append (_md_cell rt (get field issue)).

(** [items = issue.get(field) if isinstance(issue.get(field), list) else []],
    then a blank line, the label and one bullet per item, or the placeholder
    bullet when there is none. *)
Definition append_section (rt : runtime) (label : string) (field : string)
    (issue : dict) : M unit :=
  let items := list_or_empty (get field issue) in
  append [] ;;
  append (lit label) ;;
  append_items_or_dash rt (lit "- ") items.

(** The same section under [if items:]: left out when there is no item. *)
Definition append_optional_section (rt : runtime) (label : string)
    (field : string) (issue : dict) : M unit :=
  let items := list_or_empty (get field issue) in
  match items with
  | [] => ret tt
  | _ =>
      append [] ;;
      append (lit label) ;;
      append_items rt (lit "- ") items
  end.

Definition _render_user_story (rt : runtime) (issue : dict) : M unit :=
  append_field rt "**Story**" "story" issue ;;
  append_field rt "**Value**" "value" issue ;;
  append_section rt "**Acceptance Criteria**" "acceptance_criteria" issue ;;
  append_optional_section rt "**Definition of Done**" "definition_of_done" issue.

Definition _render_task (rt : runtime) (issue : dict) : M unit :=
  append_field rt "**Task Kind**" "task_kind" issue ;;
  append_field rt "**Deliverable**" "deliverable" issue ;;
  append_field rt "**Verification**" "verification" issue ;;
  append_optional_section rt "**Acceptance Criteria**" "acceptance_criteria"
    issue ;;
  append_optional_section rt "**Definition of Done**" "definition_of_done" issue.

Definition _render_bug (rt : runtime) (issue : dict) : M unit :=
  append_field rt "**Severity**" "severity" issue ;;
  append_field rt "**Environment**" "environment" issue ;;
  append_section rt "**Steps to Reproduce**" "steps_to_reproduce" issue ;;
  append_field rt "**Expected**" "expected" issue ;;
  append_field rt "**Actual**" "actual" issue ;;
  append_section rt "**Acceptance Criteria**" "acceptance_criteria" issue ;;
  append_optional_section rt "**Definition of Done**" "definition_of_done" issue.

Definition _render_issue_details (rt : runtime) (issue : dict) : M unit :=
  _render_issue_common rt issue ;;
  let issue_type := get "type" issue in
  (if eq_str issue_type "user_story" then _render_user_story rt issue
   else if eq_str issue_type "task" then _render_task rt issue
   else if eq_str issue_type "bug" then _render_bug rt issue
   else ret tt) ;;
  append [].

(** ** Document assembly *)

(** [d.setdefault(k, []).append(x)] on an insertion-ordered dict. *)
Fixpoint setdefault_append {K A : Type} (eqb : K -> K -> bool) (k : K) (x : A)
    (d : list (K * list A)) : list (K * list A) :=
  match d with
  | [] => [(k, [x])]
  | (k', xs) :: d' =>
      if eqb k k' then (k', xs ++ [x]) :: d'
      else (k', xs) :: setdefault_append eqb k x d'
  end.

(** [d.get(k, [])] *)
Fixpoint get_list {K A : Type} (eqb : K -> K -> bool) (k : K)
    (d : list (K * list A)) : list A :=
  match d with
  | [] => []
  | (k', xs) :: d' => if eqb k k' then xs else get_list eqb k d'
  end.

(** Keys of [epic_groups]: an epic id, or [None]. *)
Definition group_key : Type := option str.

Definition group_key_eqb (a b : group_key) : bool :=
  match a, b with
  | Some x, Some y => str_eqb x y
  | None, None => true
  | _, _ => false
  end.

Definition children_index (issue_dicts_sorted : list dict)
    : list (str * list dict) :=
  fold_left
    (fun children_by_parent_id issue =>
       match get "parent_id" issue with
       | VStr [] => children_by_parent_id
       | VStr parent_id =>
           setdefault_append str_eqb parent_id issue children_by_parent_id
       | _ => children_by_parent_id
       end)
    issue_dicts_sorted [].

Definition epic_key (issue : dict) : group_key :=
  match get "epic_id" issue with
  | VStr epic_id => Some epic_id
  | _ => None
  end.

Definition group_index (issue_dicts_sorted : list dict)
    : list (group_key * list dict) :=
  fold_left
    (fun epic_groups issue =>
       setdefault_append group_key_eqb (epic_key issue) issue epic_groups)
    issue_dicts_sorted [].

(** [sorted([eid for eid in epic_groups if eid is not None], key=...)],
    with [None] appended when it is a key. *)
Definition named_group_keys (epic_groups : list (group_key * list dict))
    : list str :=
  flat_map (fun k => match k with Some eid => [eid] | None => [] end)
    (map fst epic_groups).

Definition sort_group_keys (rt : runtime)
    (epic_groups : list (group_key * list dict)) : result (list group_key) :=
  match py_sorted id_key_ltb (fun eid => _id_key rt (VStr eid) E_PREFIX_ORDER)
          (named_group_keys epic_groups) with
  | Raise e => Raise e
  | Ok epic_ids_sorted =>
      Ok (map Some epic_ids_sorted
          ++ (if existsb (group_key_eqb None) (map fst epic_groups)
              then [None] else []))
  end.

(** The key that orders the children of a story:
    [(ISSUE_PREFIX_ORDER.get(str(i.get("id")).split("-", 1)[0], 99),
      _id_key(i.get("id"), prefix_order=ISSUE_PREFIX_ORDER))]. *)
Definition child_sort_key (rt : runtime) (i : dict) : result (Z * id_key) :=
  let rank :=
    match lookup (before_first HYPHEN (py_str rt (get "id" i)))
            ISSUE_PREFIX_ORDER with
    | Some r => r
    | None => 99%Z
    end in
  match _id_key rt (get "id" i) ISSUE_PREFIX_ORDER with
  | Raise e => Raise e
  | Ok k => Ok (rank, k)
  end.

Definition child_key_ltb (a b : Z * id_key) : bool :=
  (fst a <? fst b)%Z
  || ((fst a =? fst b)%Z && id_key_ltb (snd a) (snd b)).

Definition user_stories_of (group : list dict) : list dict :=
  filter (fun i => eq_str (get "type" i) "user_story") group.

Definition others_top_level_of (group : list dict) : list dict :=
  filter (fun i => negb (eq_str (get "type" i) "user_story")
                   && negb (truthy (get "parent_id" i))) group.

(** The children of a story, rendered below it in their order. *)
Definition render_children (rt : runtime)
    (children_by_parent_id : list (str * list dict)) (story : dict)
    : M unit :=
  match get "id" story with
  | VStr story_id =>
      match get_list str_eqb story_id children_by_parent_id with
      | [] => ret tt
      | children =>
          children_sorted <-
            lift (py_sorted child_key_ltb (child_sort_key rt) children) ;;
          for_each children_sorted (_render_issue_details rt)
      end
  | _ => ret tt
  end.

Definition render_group (rt : runtime) (epic_by_id : list (str * dict))
    (children_by_parent_id : list (str * list dict))
    (epic_groups : list (group_key * list dict)) (epic_id : group_key)
    : M unit :=
  match epic_id with
  | None =>
      append [] ;;
      append (lit "### No Epic")
  | Some epic_id =>
      let epic :=
        match lookup epic_id epic_by_id with Some e => e | None => [] end in
      let epic_title := get "title" epic in
      append [] ;;
      append (lit "### " ++ epic_id ++ lit ": " ++ _md_cell rt epic_title)
  end ;;
  let group := get_list group_key_eqb epic_id epic_groups in
  let user_stories := user_stories_of group in
  let others_top_level := others_top_level_of group in
  stories_sorted <-
    lift (py_sorted id_key_ltb
            (fun i => _id_key rt (get "id" i) US_PREFIX_ORDER) user_stories) ;;
  for_each stories_sorted
    (fun story =>
       _render_issue_details rt story ;;
       render_children rt children_by_parent_id story) ;;
  for_each others_top_level (_render_issue_details rt).

(** The body of [render_issue_bundle_markdown] up to the final join. *)
Definition render_body (rt : runtime) (bundle : dict) (include_json : bool)
    : M unit :=
  let meta := match get "meta" bundle with VDict m => m | _ => [] end in
  let epics := list_or_empty (get "epics" bundle) in
  let issues := list_or_empty (get "issues" bundle) in
  let project :=
    match get "project" meta with VStr p => p | _ => lit "TBD" end in
  append (lit "# Issue Bundle " ++ DASH ++ lit " " ++ project) ;;
  append [] ;;
  _render_meta rt meta ;;
  epic_by_id <- _render_epics rt epics ;;
  let issue_dicts := dicts_of issues in
  issue_dicts_sorted <-
    lift (py_sorted id_key_ltb
            (fun i => _id_key rt (get "id" i) ISSUE_PREFIX_ORDER)
            issue_dicts) ;;
  _render_summary_table rt issue_dicts_sorted ;;
  let children_by_parent_id := children_index issue_dicts_sorted in
  append [] ;;
  append (lit "## Issue Details") ;;
  let epic_groups := group_index issue_dicts_sorted in
  epic_ids_sorted <- lift (sort_group_keys rt epic_groups) ;;
  for_each epic_ids_sorted
    (render_group rt epic_by_id children_by_parent_id epic_groups) ;;
  if include_json then
    append [] ;;
    append (lit "## Issue Bundle (JSON)") ;;
    append [] ;;
    append (lit "```json") ;;
    append (json_dumps rt (VDict bundle)) ;;
    append (lit "```")
  else ret tt.

(** The list of lines the renderer has built before it joins them. *)
Definition render_lines (rt : runtime) (bundle : value) (include_json : bool)
    : result (list str) :=
  match _require_object bundle with
  | Raise e => Raise e
  | Ok bundle =>
      match render_body rt bundle include_json [] with
      | Raise e => Raise e
      | Ok (_, lines) => Ok lines
      end
  end.

(** ["\n".join(lines).rstrip() + "\n"] *)
Definition finish (lines : list str) : str :=
  rstrip (join [NEWLINE] lines) ++ [NEWLINE].

Definition render_issue_bundle_markdown (rt : runtime) (bundle : value)
    (include_json : bool) : result str :=
  match render_lines rt bundle include_json with
  | Raise e => Raise e
  | Ok lines => Ok (finish lines)
  end.

(** * The keys and the sorts, when every key is computed *)

(** [_id_key] and the sorts that call it either raise the [ValueError] of
    [int] or return. The definitions of this part are what they return when
    they return, and the exception they raise when they raise; the lemmas
    on [_id_key] and [py_sorted] below relate them to the code. *)

(** The key [_id_key] returns for a value. *)
Definition id_key_of (rt : runtime) (value : value)
    (prefix_order : list (str * Z)) : id_key :=
  match value with
  | VStr s =>
      match fullmatch_id rt s with
      | None => (99%Z, 0%Z, s)
      | Some (prefix, num_str) =>
          (match lookup prefix prefix_order with Some r => r | None => 99%Z end,
           digits_value rt num_str, s)
      end
  | _ => (99%Z, 0%Z, py_str rt value)
  end.

(** The exception [_id_key] raises on a value, whatever the rank table. *)
Definition id_key_error (rt : runtime) (value : value) : option exn :=
  match _id_key rt value [] with
  | Raise e => Some e
  | Ok _ => None
  end.

(** The exception of the first value of a list on which [_id_key] raises. *)
Fixpoint first_error (rt : runtime) (values : list value) : option exn :=
  match values with
  | [] => None
  | v :: values' =>
      match id_key_error rt v with
      | Some e => Some e
      | None => first_error rt values'
      end
  end.

(** The sorted epic ids of the groups, with [None] last. *)
Definition sorted_group_keys (rt : runtime)
    (epic_groups : list (group_key * list dict)) : list group_key :=
  let keys := map fst epic_groups in
  let named :=
    flat_map (fun k => match k with Some eid => [eid] | None => [] end) keys in
  map Some (sorted id_key_ltb (fun eid => id_key_of rt (VStr eid) E_PREFIX_ORDER)
              named)
  ++ (if existsb (group_key_eqb None) keys then [None] else []).

(** The key that orders the children of a story. *)
Definition child_key (rt : runtime) (i : dict) : Z * id_key :=
  (match lookup (before_first HYPHEN (py_str rt (get "id" i)))
           ISSUE_PREFIX_ORDER with
   | Some r => r
   | None => 99%Z
   end,
   id_key_of rt (get "id" i) ISSUE_PREFIX_ORDER).

Definition sorted_stories (rt : runtime) (group : list dict) : list dict :=
  sorted id_key_ltb (fun i => id_key_of rt (get "id" i) US_PREFIX_ORDER)
    (user_stories_of group).

(** The children rendered below a story, in their order. *)
Definition sorted_children (rt : runtime)
    (children_by_parent_id : list (str * list dict)) (story : dict)
    : list dict :=
  match get "id" story with
  | VStr story_id =>
      sorted child_key_ltb (child_key rt)
        (get_list str_eqb story_id children_by_parent_id)
  | _ => []
  end.

Definition sorted_issues (rt : runtime) (issues : list value) : list dict :=
  sorted id_key_ltb (fun i => id_key_of rt (get "id" i) ISSUE_PREFIX_ORDER)
    (dicts_of issues).

(** The epics in the order of the Epics section. *)
Definition sorted_epics (rt : runtime) (epics : list value) : list dict :=
  sorted id_key_ltb (fun e => id_key_of rt (get "id" e) E_PREFIX_ORDER)
    (dicts_of epics).

(** One step of the loop of [_render_epics] on [epic_by_id]. *)
Definition index_epic (epic_by_id : list (str * dict)) (epic : dict)
    : list (str * dict) :=
  match get "id" epic with
  | VStr epic_id => assign epic_id epic epic_by_id
  | _ => epic_by_id
  end.

(** The dict of epics by id that [_render_epics] returns. *)
Definition epic_index (rt : runtime) (epics : list value) : list (str * dict) :=
  fold_left index_epic (sorted_epics rt epics) [].

(** ** The exception of a sort of the renderer *)

(** The sort of the open questions, which takes place when
    [open_questions] is a list that is not empty. *)
Definition meta_error (rt : runtime) (meta : dict) : option exn :=
  match list_or_empty (get "open_questions" meta) with
  | [] => None
  | open_questions =>
      first_error rt (map (get "id") (dicts_of open_questions))
  end.

Definition epics_error (rt : runtime) (epics : list value) : option exn :=
  first_error rt (map (get "id") (dicts_of epics)).

Definition issues_error (rt : runtime) (issues : list value) : option exn :=
  first_error rt (map (get "id") (dicts_of issues)).

(** The sort of the epic ids of the groups, in the order in which the
    sorted issues introduce them. *)
Definition groups_error (rt : runtime) (issues : list value) : option exn :=
  first_error rt
    (map VStr (named_group_keys (group_index (sorted_issues rt issues)))).

(** The exception of the sorts that precede the summary table: the open
    questions, the epics and the issues, in this order. *)
Definition head_error (rt : runtime) (bundle : dict) : option exn :=
  match meta_error rt
          (match get "meta" bundle with VDict m => m | _ => [] end) with
  | Some e => Some e
  | None =>
      match epics_error rt (list_or_empty (get "epics" bundle)) with
      | Some e => Some e
      | None => issues_error rt (list_or_empty (get "issues" bundle))
      end
  end.

(** ** A concrete runtime for the examples *)

(** The decimal digits of ASCII, on which every Unicode database agrees. *)
Definition ascii_decimal (c : char) : option N :=
  if (48 <=? c) && (c <=? 57) then Some (c - 48) else None.

(** [json.dumps]'s string escapes with [ensure_ascii=False]. *)
Definition dumps_char (c : char) : str :=
  if c =? QUOTE2 then [BACKSLASH; QUOTE2]
  else if c =? BACKSLASH then [BACKSLASH; BACKSLASH]
  else if c =? 10 then lit "\n"
  else if c =? 13 then lit "\r"
  else if c =? 9 then lit "\t"
  else if c =? 8 then lit "\b"
  else if c =? 12 then lit "\f"
  else if c <? 32 then lit "\u" ++ hex 4 c
  else [c].

Definition dumps_str (s : str) : str :=
  [QUOTE2] ++ flat_map dumps_char s ++ [QUOTE2].

Definition indent_of (level : nat) : str := repeat SPACE (2 * level).

(** [json.dumps(v, indent=2, ensure_ascii=False)] at a nesting level. *)
Fixpoint dumps_at (frepr : float -> str) (level : nat) (v : value) : str :=
  match v with
  | VNone => lit "null"
  | VBool true => lit "true"
  | VBool false => lit "false"
  | VInt z => str_of_Z z
  | VFloat f => frepr f
  | VStr s => dumps_str s
  | VList [] => lit "[]"
  | VList l =>
      lit "[" ++ [NEWLINE] ++ indent_of (S level)
      ++ join (lit "," ++ [NEWLINE] ++ indent_of (S level))
           (map (dumps_at frepr (S level)) l)
      ++ [NEWLINE] ++ indent_of level ++ lit "]"
  | VDict [] => lit "{}"
  | VDict d =>
      lit "{" ++ [NEWLINE] ++ indent_of (S level)
      ++ join (lit "," ++ [NEWLINE] ++ indent_of (S level))
           (map (fun kv => match kv with
                           | (k, x) =>
                               dumps_str k ++ lit ": "
                               ++ dumps_at frepr (S level) x
                           end) d)
      ++ [NEWLINE] ++ indent_of level ++ lit "}"
  end.

(** The runtime of the examples. Their documents hold no float and no code
    point beyond ASCII, so only its ASCII digits, its serializer and its
    limit on the digits of an integer, the default one, are exercised. *)
Definition example_runtime : runtime := {|
  float_repr := fun _ => lit "nan";
  unicode_printable := fun _ => true;
  unicode_decimal := ascii_decimal;
  json_dumps := dumps_at (fun _ => lit "NaN") 0;
  int_max_str_digits := 4300
|}.

(** ** Example documents *)

(** A string value and a member of a mapping, from ASCII literals. *)
Definition jstr (x : string) : value := VStr (lit x).
Definition field (k : string) (v : value) : str * value := (lit k, v).

(** One epic [E-1], a story [US-1] without parent and a task [TASK-1] whose
    parent is [US-1]. *)
Definition scenario_story : dict :=
  [field "id" (jstr "US-1"); field "type" (jstr "user_story");
   field "title" (jstr "Login"); field "epic_id" (jstr "E-1");
   field "parent_id" VNone].

Definition scenario_task : dict :=
  [field "id" (jstr "TASK-1"); field "type" (jstr "task");
   field "title" (jstr "Form"); field "epic_id" (jstr "E-1");
   field "parent_id" (jstr "US-1")].

Definition scenario_bundle : value :=
  VDict [field "meta" (VDict [field "project" (jstr "Shop")]);
         field "epics"
           (VList [VDict [field "id" (jstr "E-1"); field "title" (jstr "Accounts")]]);
         field "issues" (VList [VDict scenario_task; VDict scenario_story])].

(** ** Shape of a bundle *)

(** The top-level shape the specification requires: a mapping that has the
    keys [meta], [epics] and [issues], holding a mapping, a sequence and a
    sequence. *)
Definition well_shaped (bundle : value) : bool :=
  match bundle with
  | VDict b =>
      has_key (lit "meta") b && has_key (lit "epics") b
      && has_key (lit "issues") b
      && is_dict (get "meta" b) && is_list (get "epics" b)
      && is_list (get "issues" b)
  | _ => false
  end.

(** The message of a shape violation names the constraint that is violated:
    the top-level kind, a key that is missing, or the kind of a key. *)
Inductive shape_violation : value -> str -> Prop :=
| not_an_object v :
    is_dict v = false ->
    shape_violation v (lit "top-level JSON must be an object")
| missing_key b key :
    In key ["meta"; "epics"; "issues"]%string ->
    has_key (lit key) b = false ->
    shape_violation (VDict b)
      (lit "missing required top-level key: " ++ lit key)
| meta_kind b :
    is_dict (get "meta" b) = false ->
    shape_violation (VDict b) (lit "'meta' must be an object")
| epics_kind b :
    is_list (get "epics" b) = false ->
    shape_violation (VDict b) (lit "'epics' must be an array")
| issues_kind b :
    is_list (get "issues" b) = false ->
    shape_violation (VDict b) (lit "'issues' must be an array").

(** ** Identity keys, as the specification words them *)

(** [s] has the form [<PREFIX>-<digits>]: a non-empty run of capitals, a
    hyphen and a non-empty run of decimal digits. *)
Definition matches_id (rt : runtime) (s : str) (prefix num_str : str) : Prop :=
  s = prefix ++ HYPHEN :: num_str
  /\ prefix <> [] /\ forallb is_upper prefix = true
  /\ num_str <> [] /\ forallb (is_decimal rt) num_str = true.

(** [prefix_order.get(prefix, 99)] *)
Definition rank_of (prefix_order : list (str * Z)) (prefix : str) : Z :=
  match lookup prefix prefix_order with Some r => r | None => 99%Z end.

(** The key of the specification's sentence: an identity whose prefix is not
    in the rank table gets rank 99 and the numeric component 0. *)
Definition id_key_spec (rt : runtime) (value : value)
    (prefix_order : list (str * Z)) : id_key :=
  match value with
  | VStr s =>
      match fullmatch_id rt s with
      | Some (prefix, num_str) =>
          match lookup prefix prefix_order with
          | Some r => (r, digits_value rt num_str, s)
          | None => (99%Z, 0%Z, s)
          end
      | None => (99%Z, 0%Z, s)
      end
  | _ => (99%Z, 0%Z, py_str rt value)
  end.

Definition key_rank (k : id_key) : Z := fst (fst k).
Definition key_number (k : id_key) : Z := snd (fst k).
Definition key_text (k : id_key) : str := snd k.

(** ** Cells *)

(** The text of a cell for a string form [t]: newlines replaced by spaces,
    surrounding whitespace trimmed, the placeholder when nothing is left,
    and every pipe escaped. *)
Definition cell_text (t : str) : str :=
  let text := strip (replace_char NEWLINE [SPACE] t) in
  match text with
  | [] => DASH
  | _ => replace_char PIPE [BACKSLASH; PIPE] text
  end.

(** The formatter of the specification's sentence, where only a value that
    is neither null nor a sequence has its newlines replaced and its
    surrounding whitespace trimmed. *)
Definition md_cell_spec (rt : runtime) (v : value) : str :=
  match v with
  | VNone => DASH
  | VList items =>
      match join (lit ", ")
              (map (py_str rt) (filter (fun i => negb (is_none i)) items)) with
      | [] => DASH
      | text => replace_char PIPE [BACKSLASH; PIPE] text
      end
  | _ => cell_text (py_str rt v)
  end.

(** The pipes of [s] that are not escaped, that is, not right after a
    backslash; [prev] is the code point before [s]. These are the pipes that
    delimit the columns of a table row. *)
Fixpoint bare_pipes (prev : char) (s : str) : nat :=
  match s with
  | [] => O
  | c :: s' =>
      Nat.add
        (if (c =? PIPE) && negb (prev =? BACKSLASH) then 1%nat else 0%nat)
        (bare_pipes c s')
  end.


(** ** Computations that only append *)

(** [m] returns [a] after appending the lines [out], whatever the list of
    lines it starts from. *)
Definition runs {A : Type} (m : M A) (a : A) (out : list str) : Prop :=
  forall lines, m lines = Ok (a, lines ++ out).

(** The lines a computation appends. *)
Definition output {A : Type} (m : M A) : list str :=
  match m [] with
  | Ok (_, out) => out
  | Raise _ => []
  end.

(** An issue whose type can be looked up in [TYPE_DISPLAY]. *)
Definition hashable_type (issue : dict) : bool :=
  match type_display (get "type" issue) with
  | Ok _ => true
  | Raise _ => false
  end.

(** The heading of the detail block of an issue. *)
Definition issue_heading (rt : runtime) (issue : dict) : str :=
  lit "#### " ++ _md_cell rt (get "id" issue) ++ lit ": "
  ++ _md_cell rt (get "title" issue).

(** The detail block of an issue: the lines [_render_issue_details]
    appends. *)
Definition details_lines (rt : runtime) (issue : dict) : list str :=
  output (_render_issue_details rt issue).

(** ** The layout of the report *)

(** The rows of the summary table, or the exception of the first issue
    whose row cannot be built. *)
Fixpoint summary_rows (rt : runtime) (issues : list dict)
    : result (list str) :=
  match issues with
  | [] => Ok []
  | issue :: rest =>
      match summary_cells rt issue with
      | Raise e => Raise e
      | Ok cells =>
          match summary_rows rt rest with
          | Raise e => Raise e
          | Ok rows => Ok (table_row cells :: rows)
          end
      end
  end.

Definition table_head : list str :=
  [[]; lit "## Backlog Summary"; []; SUMMARY_HEADER; SUMMARY_RULE].

(** What the Issue Details section shows, in order: the heading of an epic
    group, an issue at the top level of its group, or an issue below the
    story whose id is its [parent_id]. *)
Inductive entry : Type :=
| GroupHeading (epic_id : group_key)
| TopLevel (issue : dict)
| Child (story issue : dict).

Definition story_entries (rt : runtime)
    (children_by_parent_id : list (str * list dict)) (story : dict)
    : list entry :=
  TopLevel story
  :: map (Child story) (sorted_children rt children_by_parent_id story).

Definition group_entries (rt : runtime)
    (children_by_parent_id : list (str * list dict))
    (epic_groups : list (group_key * list dict)) (epic_id : group_key)
    : list entry :=
  let group := get_list group_key_eqb epic_id epic_groups in
  GroupHeading epic_id
  :: flat_map (story_entries rt children_by_parent_id) (sorted_stories rt group)
  ++ map TopLevel (others_top_level_of group).

(** The entries of the Issue Details section of a bundle. *)
Definition details_entries (rt : runtime) (issues : list value) : list entry :=
  let issue_dicts_sorted := sorted_issues rt issues in
  let epic_groups := group_index issue_dicts_sorted in
  flat_map
    (group_entries rt (children_index issue_dicts_sorted) epic_groups)
    (sorted_group_keys rt epic_groups).

Definition group_heading_lines (rt : runtime) (epic_by_id : list (str * dict))
    (epic_id : group_key) : list str :=
  match epic_id with
  | None => [[]; lit "### No Epic"]
  | Some epic_id =>
      [[];
       lit "### " ++ epic_id ++ lit ": "
       ++ _md_cell rt
            (get "title"
               (match lookup epic_id epic_by_id with
                | Some e => e
                | None => []
                end))]
  end.

Definition entry_lines (rt : runtime) (epic_by_id : list (str * dict))
    (e : entry) : list str :=
  match e with
  | GroupHeading epic_id => group_heading_lines rt epic_by_id epic_id
  | TopLevel issue => details_lines rt issue
  | Child _ issue => details_lines rt issue
  end.

(** The issue an entry renders. *)
Definition entry_issue (e : entry) : option dict :=
  match e with
  | GroupHeading _ => None
  | TopLevel issue => Some issue
  | Child _ issue => Some issue
  end.

Definition json_block (rt : runtime) (bundle : dict) (include_json : bool)
    : list str :=
  if include_json then
    [[]; lit "## Issue Bundle (JSON)"; []; lit "```json";
     json_dumps rt (VDict bundle); lit "```"]
  else [].

Definition title_line (bundle : dict) : str :=
  lit "# Issue Bundle " ++ DASH ++ lit " "
  ++ match get "project"
             (match get "meta" bundle with VDict m => m | _ => [] end) with
     | VStr p => p
     | _ => lit "TBD"
     end.

(** ** The order of identity keys *)

Definition str_le (a b : str) : Prop := a = b \/ str_ltb a b = true.

(** Non-decreasing keys: by rank, then by numeric id, then by the identity
    string. *)
Definition id_key_le (a b : id_key) : Prop :=
  (key_rank a < key_rank b)%Z
  \/ (key_rank a = key_rank b
      /\ ((key_number a < key_number b)%Z
          \/ (key_number a = key_number b
              /\ str_le (key_text a) (key_text b)))).

(** The key that orders the rows of the summary table, when [_id_key]
    returns it. *)
Definition issue_key (rt : runtime) (issue : dict) : id_key :=
  id_key_of rt (get "id" issue) ISSUE_PREFIX_ORDER.

(** ** Keys of the indices *)

(** The key under which an issue enters [children_by_parent_id]: its
    [parent_id] when that is a non-empty string. *)
Definition parent_key (issue : dict) : option str :=
  match get "parent_id" issue with
  | VStr [] => None
  | VStr parent_id => Some parent_id
  | _ => None
  end.

Definition option_eqb {K : Type} (eqb : K -> K -> bool) (a : option K) (b : K)
    : bool :=
  match a with
  | Some k => eqb b k
  | None => false
  end.

(** Every issue an entry list renders has a type that can be hashed. *)
Definition entries_hashable (entries : list entry) : Prop :=
  forall e issue,
    In e entries -> entry_issue e = Some issue -> hashable_type issue = true.

Definition is_story (issue : dict) : bool :=
  eq_str (get "type" issue) "user_story".

(** The lines of the report of a well-shaped bundle after the title, as
    far as the section that follows the summary table. *)
Definition report_lines (rt : runtime) (bundle : dict) (include_json : bool)
    (head rows : list str) : list str :=
  (title_line bundle :: head) ++ table_head ++ rows
  ++ [[]; lit "## Issue Details"]
  ++ flat_map
       (entry_lines rt (epic_index rt (list_or_empty (get "epics" bundle))))
       (details_entries rt (list_or_empty (get "issues" bundle)))
  ++ json_block rt bundle include_json.

(** The nine cells of the row of an issue, for the shown form of its type:
    id, type, priority, status, epic, parent, workstream, title and
    blocked-by, in the order of the columns. *)
Definition row_cells (rt : runtime) (issue : dict) (shown : value) : list str :=
  [_md_cell rt (get "id" issue);
   _md_cell rt shown;
   _md_cell rt (get "priority" issue);
   _md_cell rt (get "status" issue);
   _md_cell rt (get "epic_id" issue);
   _md_cell rt (get "parent_id" issue);
   _md_cell rt (get "workstream" issue);
   _md_cell rt (get "title" issue);
   _md_cell rt (get "blocked_by" issue)].

(** [row] is the table row of [issue]. *)
Definition is_row_of (rt : runtime) (issue : dict) (row : str) : Prop :=
  exists shown,
    type_display (get "type" issue) = Ok shown
    /\ row = table_row (row_cells rt issue shown).


(** A well-shaped bundle with one issue, whose [type] is a list. *)
Definition unhashable_bundle : value :=
  VDict [field "meta" (VDict []); field "epics" (VList []);
         field "issues"
           (VList [VDict [field "id" (jstr "US-1"); field "type" (VList [])]])].


(** A story [US-1] and a task whose parent [US-9] is no issue. *)
Definition orphan_task : dict :=
  [field "id" (jstr "TASK-1"); field "type" (jstr "task");
   field "title" (jstr "Form"); field "epic_id" (jstr "E-1");
   field "parent_id" (jstr "US-9")].

Definition orphan_bundle : value :=
  VDict [field "meta" (VDict [field "project" (jstr "Shop")]);
         field "epics"
           (VList [VDict [field "id" (jstr "E-1"); field "title" (jstr "Accounts")]]);
         field "issues" (VList [VDict orphan_task; VDict scenario_story])].

(** A story [US-1] of epic [E-1] and a story [US-2] of epic [E-2] whose
    parent is [US-1]. *)
Definition nested_parent : dict :=
  [field "id" (jstr "US-1"); field "type" (jstr "user_story");
   field "title" (jstr "Login"); field "epic_id" (jstr "E-1")].

Definition nested_child : dict :=
  [field "id" (jstr "US-2"); field "type" (jstr "user_story");
   field "title" (jstr "Reset"); field "epic_id" (jstr "E-2");
   field "parent_id" (jstr "US-1")].

Definition nested_bundle : value :=
  VDict [field "meta" (VDict []);
         field "epics" (VList []);
         field "issues" (VList [VDict nested_parent; VDict nested_child])].

(** The detail block of the child story [US-2], line by line. *)
Definition nested_child_block : list str :=
  [lit "#### US-2: Reset";
   lit "- **Type:** User Story  **Priority:** " ++ DASH
   ++ lit "  **Status:** " ++ DASH ++ lit "  **Estimate:** " ++ DASH;
   lit "- **Epic:** E-2  **Parent:** US-1  **Workstream:** " ++ DASH;
   lit "- **Labels:** " ++ DASH;
   lit "- **Blocked by:** " ++ DASH;
   [];
   lit "**Description**";
   DASH;
   [];
   lit "**Story**";
   DASH;
   [];
   lit "**Value**";
   DASH;
   [];
   lit "**Acceptance Criteria**";
   lit "- " ++ DASH;
   []].

(** ** Children below their parent story *)

(** The sentence of the specification: an issue is shown as a child below
    a story. *)
Definition shown_as_child (rt : runtime) (issues : list value) (issue : dict)
    : Prop :=
  exists story, In (Child story issue) (details_entries rt issues).

(** A block of lines that is indented: every line that is not blank
    starts with whitespace. *)
Definition indented (block : list str) : Prop :=
  forall line,
    In line block ->
    match line with
    | [] => True
    | c :: _ => is_space c = true
    end.

Definition starts_with_child (entries : list entry) : bool :=
  match entries with
  | Child _ _ :: _ => true
  | _ => false
  end.

(** A report in which an issue that is not a story and has a parent is
    never at the top level of a group; an issue whose [parent_id] is the id
    of a story of the bundle is among the children listed right after the
    entry of that story, before the next top-level entry or group heading;
    an issue whose [parent_id] is the id of no story has no entry; and the
    block of every entry, child or not, starts flush left with the
    heading of its issue and ends with a blank line. *)
Definition children_below_parent (rt : runtime) (b : dict)
    (include_json : bool) (lines : list str) : Prop :=
  let issues := list_or_empty (get "issues" b) in
  let entries := details_entries rt issues in
  let epic_by_id := epic_index rt (list_or_empty (get "epics" b)) in
  exists head rows,
    lines = report_lines rt b include_json head rows
    /\ (forall issue,
           is_story issue = false -> truthy (get "parent_id" issue) = true ->
           ~ In (TopLevel issue) entries)
    /\ (forall story issue story_id,
           In (VDict story) issues -> In (VDict issue) issues ->
           is_story story = true -> get "id" story = VStr story_id ->
           parent_key issue = Some story_id ->
           exists before children after_,
             entries
             = before ++ TopLevel story :: map (Child story) children
               ++ after_
             /\ In issue children
             /\ starts_with_child after_ = false)
    /\ (forall issue parent_id,
           is_story issue = false -> parent_key issue = Some parent_id ->
           (forall story,
               In (VDict story) issues -> is_story story = true ->
               get "id" story <> VStr parent_id) ->
           forall e, In e entries -> entry_issue e <> Some issue)
    /\ (forall e issue,
           In e entries -> entry_issue e = Some issue ->
           exists middle,
             entry_lines rt epic_by_id e
             = issue_heading rt issue :: middle ++ [[]]).

(** The scenario: in the report of the bundle with the epic [E-1], the
    story [US-1] and the task [TASK-1] whose parent is [US-1], the Issue
    Details section is the heading of [E-1], the block of [US-1] and the
    block of [TASK-1]. *)
Definition scenario_details : Prop :=
  exists lines before,
    render_lines example_runtime scenario_bundle false = Ok lines
    /\ lines
       = before
         ++ [[]; lit "## Issue Details"; []; lit "### E-1: Accounts"]
         ++ details_lines example_runtime scenario_story
         ++ details_lines example_runtime scenario_task
    /\ hd [] (details_lines example_runtime scenario_task)
       = lit "#### TASK-1: Form".

(** ** The embedded JSON block *)

Definition OPEN_FENCE : str := [NEWLINE] ++ lit "```json" ++ [NEWLINE].
Definition CLOSE_FENCE : str := [NEWLINE] ++ lit "```" ++ [NEWLINE].

(** [s] without its prefix [p]. *)
Fixpoint strip_prefix (p t : str) : option str :=
  match p, t with
  | [], _ => Some t
  | _ :: _, [] => None
  | x :: p', y :: t' => if x =? y then strip_prefix p' t' else None
  end.

Definition strip_suffix (suffix t : str) : option str :=
  option_map (@rev char) (strip_prefix (rev suffix) (rev t)).

(** What follows the last occurrence of [pat] in [t]. *)
Fixpoint after_last (pat t : str) : option str :=
  match t with
  | [] => None
  | _ :: t' =>
      match after_last pat t' with
      | Some rest => Some rest
      | None => strip_prefix pat t
      end
  end.

(** The content of the fenced block a report ends with: what stands
    between the last opening fence and the closing fence at the end. *)
Definition embedded_block (text : str) : option str :=
  match strip_suffix CLOSE_FENCE text with
  | Some body => after_last OPEN_FENCE body
  | None => None
  end.

(** No opening fence starts inside the serialized document. *)
Definition fence_free (dumped : str) : bool :=
  match after_last OPEN_FENCE (tl (OPEN_FENCE ++ dumped)) with
  | None => true
  | Some _ => false
  end.

(** *** A JSON reader for the examples *)

Fixpoint skip_ws (t : str) : str :=
  match t with
  | c :: t' =>
      if (c =? 32) || (c =? 10) || (c =? 13) || (c =? 9) then skip_ws t'
      else t
  | [] => []
  end.

Definition hex_value (c : char) : option N :=
  if (48 <=? c) && (c <=? 57) then Some (c - 48)
  else if (97 <=? c) && (c <=? 102) then Some (c - 87)
  else if (65 <=? c) && (c <=? 70) then Some (c - 55)
  else None.

(** The characters of a string literal after its opening quote. *)
Fixpoint read_string (t : str) (acc : str) : option (str * str) :=
  match t with
  | [] => None
  | c :: t' =>
      if c =? QUOTE2 then Some (rev acc, t')
      else if c =? BACKSLASH then
        match t' with
        | e :: t'' =>
            if e =? 117 then
              match t'' with
              | a :: b :: c' :: d :: rest =>
                  match hex_value a, hex_value b, hex_value c', hex_value d with
                  | Some x3, Some x2, Some x1, Some x0 =>
                      read_string rest
                        (x3 * 4096 + x2 * 256 + x1 * 16 + x0 :: acc)
                  | _, _, _, _ => None
                  end
              | _ => None
              end
            else
              let unescaped :=
                if e =? 110 then Some 10
                else if e =? 114 then Some 13
                else if e =? 116 then Some 9
                else if e =? 98 then Some 8
                else if e =? 102 then Some 12
                else if (e =? QUOTE2) || (e =? BACKSLASH) || (e =? 47)
                     then Some e
                     else None in
              match unescaped with
              | Some x => read_string t'' (x :: acc)
              | None => None
              end
        | [] => None
        end
      else read_string t' (c :: acc)
  end.

Definition is_ascii_digit (c : char) : bool := (48 <=? c) && (c <=? 57).

Fixpoint read_digits (t : str) (acc : N) : N * str :=
  match t with
  | c :: t' =>
      if is_ascii_digit c then read_digits t' (10 * acc + (c - 48))
      else (acc, t)
  | [] => (acc, [])
  end.

(** An integer literal; a fraction or an exponent is not read. *)
Definition read_int (negative : bool) (t : str) : option (value * str) :=
  match t with
  | c :: _ =>
      if is_ascii_digit c then
        let (n, rest) := read_digits t 0 in
        let z := if negative then Z.opp (Z.of_N n) else Z.of_N n in
        match rest with
        | x :: _ =>
            if (x =? 46) || (x =? 101) || (x =? 69) then None
            else Some (VInt z, rest)
        | [] => Some (VInt z, rest)
        end
      else None
  | [] => None
  end.

(** One JSON value at the start of [t], and the rest of [t]; [fuel] bounds
    the nesting depth and the number of elements of a container. *)
Fixpoint read_value (fuel : nat) (t : str) : option (value * str) :=
  match fuel with
  | O => None
  | S fuel' =>
      match skip_ws t with
      | [] => None
      | c :: t' =>
          if c =? 110 then
            option_map (fun r => (VNone, r)) (strip_prefix (lit "ull") t')
          else if c =? 116 then
            option_map (fun r => (VBool true, r)) (strip_prefix (lit "rue") t')
          else if c =? 102 then
            option_map (fun r => (VBool false, r))
              (strip_prefix (lit "alse") t')
          else if c =? QUOTE2 then
            option_map (fun p => (VStr (fst p), snd p)) (read_string t' [])
          else if c =? 45 then read_int true t'
          else if is_ascii_digit c then read_int false (c :: t')
          else if c =? 91 then
            match skip_ws t' with
            | [] => None
            | x :: r =>
                if x =? 93 then Some (VList [], r)
                else
                  (fix items (n : nat) (u : str) (acc : list value)
                     : option (value * str) :=
                     match n with
                     | O => None
                     | S n' =>
                         match read_value fuel' u with
                         | Some (v, r1) =>
                             match skip_ws r1 with
                             | y :: r2 =>
                                 if y =? 44 then items n' r2 (v :: acc)
                                 else if y =? 93
                                      then Some (VList (rev (v :: acc)), r2)
                                      else None
                             | [] => None
                             end
                         | None => None
                         end
                     end) fuel' t' []
            end
          else if c =? 123 then
            match skip_ws t' with
            | [] => None
            | x :: r =>
                if x =? 125 then Some (VDict [], r)
                else
                  (fix members (n : nat) (u : str) (acc : list (str * value))
                     : option (value * str) :=
                     match n with
                     | O => None
                     | S n' =>
                         match skip_ws u with
                         | q :: u1 =>
                             if q =? QUOTE2 then
                               match read_string u1 [] with
                               | Some (k, u2) =>
                                   match skip_ws u2 with
                                   | colon :: u3 =>
                                       if colon =? 58 then
                                         match read_value fuel' u3 with
                                         | Some (v, r1) =>
                                             match skip_ws r1 with
                                             | y :: r2 =>
                                                 if y =? 44
                                                 then members n' r2
                                                        ((k, v) :: acc)
                                                 else if y =? 125
                                                 then Some
                                                        (VDict
                                                           (rev ((k, v) :: acc)),
                                                         r2)
                                                 else None
                                             | [] => None
                                             end
                                         | None => None
                                         end
                                       else None
                                   | [] => None
                                   end
                               | None => None
                               end
                             else None
                         | [] => None
                         end
                     end) fuel' t' []
            end
          else None
      end
  end.

(** The reader of the examples, for documents without floats. *)
Definition example_loads (t : str) : option value :=
  match read_value (S (List.length t)) t with
  | Some (v, rest) =>
      match skip_ws rest with
      | [] => Some v
      | _ :: _ => None
      end
  | None => None
  end.

(** ** Further notions about the report *)


(** [int] accepts the digits of [v], if [v] is an id of the form
    [<PREFIX>-<digits>]: they are at most 640, or no limit is set, or they
    are at most as many as the limit. *)
Definition within_int_limit (rt : runtime) (v : value) : bool :=
  match v with
  | VStr s =>
      match fullmatch_id rt s with
      | Some (_, num_str) =>
          (List.length num_str <=? 640)%nat
          || (int_max_str_digits rt =? 0)%nat
          || (List.length num_str <=? int_max_str_digits rt)%nat
      | None => true
      end
  | _ => true
  end.




(** The start of every report. *)
Definition TITLE_START : str := lit "# Issue Bundle " ++ DASH.

(** The lines between the title and the summary table: a blank line, the
    Meta, Assumptions and Open Questions sections and the Epics section. *)
Definition head_lines (rt : runtime) (b : dict) : list str :=
  [[]]
  ++ output (_render_meta rt
               (match get "meta" b with VDict m => m | _ => [] end))
  ++ output (_render_epics rt (list_or_empty (get "epics" b))).

(** The strict order of the keys, on the elements. *)
Definition strictly_before {A K : Type} (ltb : K -> K -> bool) (key : A -> K)
    (a b : A) : Prop :=
  ltb (key a) (key b) = true.

(** ** What the Issue Details section shows *)

(** The issues shown at the top level of a group, in the order of the
    section. *)
Definition top_level_issues (entries : list entry) : list dict :=
  flat_map (fun e => match e with TopLevel i => [i] | _ => [] end) entries.

(** The group headings, in the order of the section. *)
Definition group_headings (entries : list entry) : list group_key :=
  flat_map (fun e => match e with GroupHeading k => [k] | _ => [] end) entries.

(** The issues with a place at the top level: the stories, and the issues
    without a parent. *)
Definition shown_at_top (i : dict) : bool :=
  is_story i || negb (truthy (get "parent_id" i)).

(** Non-decreasing child keys: by the rank of what precedes the first
    hyphen of the id, then by the identity key. *)
Definition child_key_le (a b : Z * id_key) : Prop :=
  (fst a < fst b)%Z \/ (fst a = fst b /\ id_key_le (snd a) (snd b)).

(** [issue] names [story_id] as its parent. *)
Definition has_parent (story_id : str) (issue : dict) : bool :=
  option_eqb str_eqb (parent_key issue) story_id.

(** ** Meta *)

(** The lines of the Meta and Assumptions sections and the heading of the
    Open Questions section. *)
Definition meta_head (rt : runtime) (meta : dict) : list str :=
  [lit "## Meta";
   lit "- **Source:** " ++ _md_cell rt (get "source" meta);
   lit "- **Generated:** " ++ _md_cell rt (get "generated_at" meta);
   [];
   lit "## Assumptions"]
  ++ match list_or_empty (get "assumptions" meta) with
     | [] => [lit "- " ++ DASH]
     | items => map (fun item => lit "- " ++ _md_cell rt item) items
     end
  ++ [[]; lit "## Open Questions"].

(** ** Clean text *)

(** A text that the cell formatter has nothing to do on: not empty, without
    newline and pipe, and without whitespace at either end. *)
Definition clean_text (t : str) : Prop :=
  ~ In NEWLINE t /\ ~ In PIPE t
  /\ match t with
     | [] => False
     | c :: _ => is_space c = false /\ is_space (last t c) = false
     end.

(** ** Single lines *)

(** A line of the report that is one line of the text. *)
Definition single_line (line : str) : Prop := ~ In NEWLINE line.

Definition no_newline (t : str) : bool := negb (existsb (N.eqb NEWLINE) t).

(** [m] runs and appends only lines that satisfy [P]. *)
Definition emits {A : Type} (P : str -> Prop) (m : M A) : Prop :=
  exists a out, runs m a out /\ Forall P out.

(** The texts the report shows as they are, not through [_md_cell]: the
    project name in the title and the epic ids in the group headings.
    [verbatim_single bundle] says that none of them has a newline. *)
Definition epic_id_single (issue : dict) : bool :=
  match epic_key issue with
  | Some epic_id => no_newline epic_id
  | None => true
  end.

Definition verbatim_single (bundle : dict) : bool :=
  no_newline (title_line bundle)
  && forallb epic_id_single (dicts_of (list_or_empty (get "issues" bundle))).

(** * The command line *)

(** [main] reads a file or the standard input, parses the text with
    [json.loads], optionally calls the validator of the module
    [validate_issue_bundle], renders, and reports through the standard
    streams and its return value. What lies outside the program is an
    [environment]: what reading gives, what [json.loads] gives, what
    importing and calling the validator gives, and what writing a text to
    the standard output gives. The model starts from the parsed
    [arguments], after [parser.parse_args]. The lines [print] sends to the
    standard error are taken to arrive: that stream replaces what it cannot
    encode. *)

(** The result of [sys.stdin.read()] or of [open(path).read()]: the text,
    [FileNotFoundError], another [OSError] with its [str(e)], or an
    exception that is no [OSError]. *)
Inductive read_result : Type :=
| ReadOk (text : str)
| FileNotFoundError
| OSError (e : str)
| ReadRaises (e : str).

(** The result of [json.loads(raw)]. *)
Inductive loads_result : Type :=
| Loaded (bundle : value)
| JSONDecodeError (e : str)
| LoadsRaises (e : str).

(** The result of [validate_issue_bundle(bundle, strict=...)]: the pair
    [(errors, warnings)], each message as [print] shows it, or an
    exception. *)
Inductive validation : Type :=
| Validated (errors warnings : list str)
| ValidatorRaises (e : str).

(** The result of [from validate_issue_bundle import validate_issue_bundle]. *)
Inductive import_result : Type :=
| Imported (validate_issue_bundle : value -> bool -> validation)
| ImportRaises (e : str).

(** The result of [sys.stdout.write(md)]: the text is written, or the call
    raises, [UnicodeEncodeError] for a text the encoding of the stream does
    not have, such as a lone surrogate, or an [OSError], after [written]
    has reached the stream. *)
Inductive write_result : Type :=
| Written
| WriteRaises (written : str) (e : str).

Record environment : Type := {
  stdin_read : read_result;
  open_read : str -> read_result;
  loads : str -> loads_result;
  import_validator : import_result;
  stdout_write : str -> write_result
}.

(** The namespace [parser.parse_args] returns. *)
Record arguments : Type := {
  path : str;
  no_json : bool;
  validate : bool;
  strict : bool
}.

(** An exception that no handler of [main] catches. *)
Inductive uncaught : Type :=
| RaisedByRead (e : str)
| RaisedByLoads (e : str)
| RaisedByValidator (e : str)
| RaisedByRender (e : exn)
| RaisedByWrite (e : str).

Inductive status : Type :=
| Returns (code : Z)
| Propagates (e : uncaught).

(** What a run of [main] leaves: how it ends, what it wrote to the standard
    output, and the lines it printed to the standard error, in order. *)
Record outcome : Type := {
  status_of : status;
  stdout : str;
  stderr : list str
}.

Definition _load_json_text (env : environment) (path : str) : read_result :=
  if str_eqb path (lit "-") then stdin_read env else open_read env path.

Definition main (rt : runtime) (env : environment) (args : arguments)
    : outcome :=
  match _load_json_text env (path args) with
  | FileNotFoundError =>
      {| status_of := Returns 2; stdout := [];
         stderr := [lit "error: file not found: " ++ path args] |}
  | OSError e =>
      {| status_of := Returns 2; stdout := [];
         stderr := [lit "error: could not read " ++ path args ++ lit ": "
                    ++ e] |}
  | ReadRaises e =>
      {| status_of := Propagates (RaisedByRead e); stdout := [];
         stderr := [] |}
  | ReadOk raw =>
      match loads env raw with
      | JSONDecodeError e =>
          {| status_of := Returns 2; stdout := [];
             stderr := [lit "error: invalid JSON: " ++ e] |}
      | LoadsRaises e =>
          {| status_of := Propagates (RaisedByLoads e); stdout := [];
             stderr := [] |}
      | Loaded bundle =>
          let render := fun printed : list str =>
            match render_issue_bundle_markdown rt bundle
                    (negb (no_json args)) with
            | Raise (ValueError e) =>
                {| status_of := Returns 2; stdout := [];
                   stderr := printed ++ [lit "error: " ++ e] |}
            | Raise e =>
                {| status_of := Propagates (RaisedByRender e); stdout := [];
                   stderr := printed |}
            | Ok md =>
                match stdout_write env md with
                | WriteRaises written e =>
                    {| status_of := Propagates (RaisedByWrite e);
                       stdout := written; stderr := printed |}
                | Written =>
                    {| status_of := Returns 0; stdout := md;
                       stderr := printed |}
                end
            end in
          if validate args then
            match import_validator env with
            | ImportRaises e =>
                {| status_of := Returns 2; stdout := [];
                   stderr := [lit "error: could not import validator: "
                              ++ e] |}
            | Imported validate_issue_bundle =>
                match validate_issue_bundle bundle (strict args) with
                | ValidatorRaises e =>
                    {| status_of := Propagates (RaisedByValidator e);
                       stdout := []; stderr := [] |}
                | Validated errors warnings =>
                    let printed :=
                      map (fun w => lit "warning: " ++ w) warnings
                      ++ map (fun e => lit "error: " ++ e) errors in
                    match errors with
                    | [] => render printed
                    | _ :: _ =>
                        {| status_of := Returns 1; stdout := [];
                           stderr := printed |}
                    end
                end
            end
          else render []
      end
  end.



(** An environment whose standard input holds [raw], read by the example
    reader, whose validator has no error and one warning, and whose
    standard output takes every text without a surrogate. *)



(** * Properties *)

(** ** Shape validation (C1) *)

Lemma require_object_ok (bundle : value) :
  well_shaped bundle = true ->
  exists b, bundle = VDict b /\ _require_object bundle = Ok b.
Proof.
  destruct bundle as [| | | | |l|b]; simpl; try discriminate.
  intros H. exists b. split; [reflexivity|].
  repeat (apply andb_prop in H; destruct H as [H ?]).
  rewrite H, H4, H3. simpl. rewrite H2, H1, H0. reflexivity.
Qed.

Lemma require_object_raises (bundle : value) :
  well_shaped bundle = false ->
  exists msg,
    shape_violation bundle msg /\ _require_object bundle = Raise (ValueError msg).
Proof.
  destruct bundle as [| | | | |l|b]; simpl;
    try (intros _; eexists; split; [apply not_an_object; reflexivity
                                   |reflexivity]).
  intros H.
  destruct (has_key (lit "meta") b) eqn:Hm; simpl.
  2:{ eexists; split; [apply (missing_key b "meta"); simpl; auto|reflexivity]. }
  destruct (has_key (lit "epics") b) eqn:He; simpl.
  2:{ eexists; split; [apply (missing_key b "epics"); simpl; auto|reflexivity]. }
  destruct (has_key (lit "issues") b) eqn:Hi; simpl.
  2:{ eexists; split; [apply (missing_key b "issues"); simpl; auto|reflexivity]. }
  simpl in H.
  destruct (is_dict (get "meta" b)) eqn:Km; simpl.
  2:{ eexists; split; [apply meta_kind; assumption|reflexivity]. }
  destruct (is_list (get "epics" b)) eqn:Ke; simpl.
  2:{ eexists; split; [apply epics_kind; assumption|reflexivity]. }
  destruct (is_list (get "issues" b)) eqn:Ki; simpl.
  2:{ eexists; split; [apply issues_kind; assumption|reflexivity]. }
  simpl in H. discriminate.
Qed.

(** C1. A document that is not a mapping, or lacks one of the keys [meta],
    [epics], [issues], or holds a value of the wrong kind under one of them,
    makes the renderer raise the structural error ([ValueError]) with a
    message that names the violated constraint, at every stage: no list of
    lines is built and no text is returned. *)
Theorem C1_malformed_bundle_raises (rt : runtime) (bundle : value)
    (include_json : bool) :
  well_shaped bundle = false ->
  exists msg,
    shape_violation bundle msg
    /\ render_lines rt bundle include_json = Raise (ValueError msg)
    /\ render_issue_bundle_markdown rt bundle include_json
       = Raise (ValueError msg).
Proof.
  intros H. destruct (require_object_raises bundle H) as [msg [Hv Hr]].
  exists msg. split; [assumption|].
  unfold render_issue_bundle_markdown, render_lines. rewrite Hr. auto.
Qed.

(** A document whose [epics] is a string, for C1. *)
Lemma C1_witness :
  exists msg,
    shape_violation
      (VDict [field "meta" (VDict []); field "epics" (jstr "none");
              field "issues" (VList [])]) msg
    /\ render_lines example_runtime
         (VDict [field "meta" (VDict []); field "epics" (jstr "none");
                 field "issues" (VList [])]) true
       = Raise (ValueError msg)
    /\ render_issue_bundle_markdown example_runtime
         (VDict [field "meta" (VDict []); field "epics" (jstr "none");
                 field "issues" (VList [])]) true
       = Raise (ValueError msg).
Proof.
  apply (C1_malformed_bundle_raises example_runtime
           (VDict [field "meta" (VDict []); field "epics" (jstr "none");
                   field "issues" (VList [])]) true).
  vm_compute. reflexivity.
Defined.

(** ** Identity sort key (C3) *)

Lemma span_app (p : char -> bool) (a : str) (c : char) (b : str) :
  forallb p a = true -> p c = false -> span p (a ++ c :: b) = (a, c :: b).
Proof.
  intros Ha Hc. induction a as [|x a IH]; simpl.
  - rewrite Hc. reflexivity.
  - simpl in Ha. apply andb_prop in Ha. destruct Ha as [Hx Ha].
    rewrite Hx, (IH Ha). reflexivity.
Qed.

Lemma span_spec (p : char -> bool) (s a b : str) :
  span p s = (a, b) ->
  s = a ++ b /\ forallb p a = true
  /\ match b with [] => True | c :: _ => p c = false end.
Proof.
  revert a b. induction s as [|x s IH]; simpl; intros a b H.
  - inversion H. auto.
  - destruct (p x) eqn:Hx.
    + destruct (span p s) as [a' b'] eqn:Hs. inversion H; subst.
      destruct (IH a' b eq_refl) as [E [F G]]. simpl. rewrite Hx, F, <- E. auto.
    + inversion H; subst. simpl. auto.
Qed.

Lemma fullmatch_id_matches (rt : runtime) (s prefix num_str : str) :
  fullmatch_id rt s = Some (prefix, num_str) <-> matches_id rt s prefix num_str.
Proof.
  unfold fullmatch_id, matches_id. split.
  - destruct (span is_upper s) as [a b] eqn:Hs.
    destruct (span_spec _ _ _ _ Hs) as [E [Ha _]].
    destruct a as [|x a]; [discriminate|].
    destruct b as [|c n]; [discriminate|].
    destruct (c =? HYPHEN) eqn:Hc; simpl; [|discriminate].
    destruct (forallb (is_decimal rt) n) eqn:Hn; [|discriminate].
    destruct n as [|d n]; [discriminate|].
    intros H. inversion H; subst. apply N.eqb_eq in Hc. subst c.
    repeat split; try assumption; discriminate.
  - intros [E [Hp [Hu [Hn Hd]]]]. subst s.
    rewrite (span_app is_upper prefix HYPHEN num_str Hu eq_refl).
    destruct prefix as [|x a]; [contradiction|].
    rewrite N.eqb_refl, Hd. simpl.
    destruct num_str; [contradiction|reflexivity].
Qed.

Lemma fullmatch_id_none (rt : runtime) (s : str) :
  fullmatch_id rt s = None <-> forall p n, ~ matches_id rt s p n.
Proof.
  split.
  - intros H p n Hm. apply fullmatch_id_matches in Hm. congruence.
  - intros H. destruct (fullmatch_id rt s) as [[p n]|] eqn:E; [|reflexivity].
    apply fullmatch_id_matches in E. destruct (H p n E).
Qed.

(** *** The key and its exception *)

Lemma exceeds_int_limit_iff (rt : runtime) (num_str : str) :
  exceeds_int_limit rt num_str = true
  <-> (640 < List.length num_str
       /\ 0 < int_max_str_digits rt < List.length num_str)%nat.
Proof.
  unfold exceeds_int_limit, INT_MAX_STR_DIGITS_THRESHOLD.
  rewrite !andb_true_iff, !Nat.ltb_lt. tauto.
Qed.

Lemma within_int_limit_iff (rt : runtime) (num_str : str) :
  exceeds_int_limit rt num_str = false
  <-> (List.length num_str <= 640 \/ int_max_str_digits rt = 0
       \/ List.length num_str <= int_max_str_digits rt)%nat.
Proof.
  destruct (exceeds_int_limit rt num_str) eqn:E.
  - apply exceeds_int_limit_iff in E. split; [discriminate|lia].
  - split; [intros _|reflexivity].
    destruct (Nat.le_gt_cases (List.length num_str) 640) as [H|H]; [auto|].
    destruct (Nat.eq_dec (int_max_str_digits rt) 0) as [Z|Z]; [auto|].
    destruct (Nat.le_gt_cases (List.length num_str) (int_max_str_digits rt))
      as [L|L]; [auto|].
    assert (T : exceeds_int_limit rt num_str = true)
      by (apply exceeds_int_limit_iff; lia).
    congruence.
Qed.

(** [_id_key] returns the key [id_key_of], or raises the exception
    [id_key_error], which does not depend on the rank table. *)
Lemma id_key_cases (rt : runtime) (v : value)
    (prefix_order : list (str * Z)) :
  _id_key rt v prefix_order
  = match id_key_error rt v with
    | Some e => Raise e
    | None => Ok (id_key_of rt v prefix_order)
    end.
Proof.
  unfold id_key_error, _id_key, id_key_of.
  destruct v as [| | | |s| |]; try reflexivity.
  destruct (fullmatch_id rt s) as [[prefix num_str]|]; [|reflexivity].
  destruct (int_of_digits rt num_str) as [n|e] eqn:E; [|reflexivity].
  unfold int_of_digits in E.
  destruct (exceeds_int_limit rt num_str); [discriminate|].
  injection E as <-. reflexivity.
Qed.

Lemma id_key_error_value (rt : runtime) (v : value) (e : exn) :
  id_key_error rt v = Some e ->
  exists s prefix num_str,
    v = VStr s /\ fullmatch_id rt s = Some (prefix, num_str)
    /\ exceeds_int_limit rt num_str = true
    /\ e = ValueError (int_limit_message rt num_str).
Proof.
  unfold id_key_error, _id_key.
  destruct v as [| | | |s| |]; try discriminate.
  destruct (fullmatch_id rt s) as [[prefix num_str]|] eqn:F; [|discriminate].
  unfold int_of_digits.
  destruct (exceeds_int_limit rt num_str) eqn:E; [|discriminate].
  intros H. injection H as <-. exists s, prefix, num_str.
  repeat split; auto.
Qed.

(** An id of at most 640 code points is within every limit. *)
Lemma id_key_error_short (rt : runtime) (s : str) :
  (List.length s <= 640)%nat -> id_key_error rt (VStr s) = None.
Proof.
  intros H. destruct (id_key_error rt (VStr s)) as [e|] eqn:E; [|reflexivity].
  destruct (id_key_error_value rt _ e E) as [s' [p [n [Es [F [X _]]]]]].
  injection Es as <-. apply fullmatch_id_matches in F.
  destruct F as [-> _]. apply exceeds_int_limit_iff in X.
  rewrite length_app in H. simpl in H. lia.
Qed.

Lemma id_key_error_not_str (rt : runtime) (v : value) :
  is_str v = false -> id_key_error rt v = None.
Proof. destruct v; try reflexivity. discriminate. Qed.

Lemma first_error_value (rt : runtime) (vs : list value) (e : exn) :
  first_error rt vs = Some e -> exists msg, e = ValueError msg.
Proof.
  induction vs as [|v vs IH]; simpl; [discriminate|].
  destruct (id_key_error rt v) as [e'|] eqn:E; [|exact IH].
  intros H. injection H as <-.
  destruct (id_key_error_value rt v e' E) as [s [p [n [_ [_ [_ ->]]]]]].
  eexists. reflexivity.
Qed.

Lemma first_error_none (rt : runtime) (vs : list value) :
  first_error rt vs = None <-> forall v, In v vs -> id_key_error rt v = None.
Proof.
  induction vs as [|v vs IH]; simpl.
  - split; [intros _ v []|reflexivity].
  - destruct (id_key_error rt v) as [e|] eqn:E.
    + split; [discriminate|]. intros H. rewrite <- E. apply H. auto.
    + rewrite IH. split.
      * intros H x [<-|Hx]; [exact E|apply H; exact Hx].
      * intros H x Hx. apply H. auto.
Qed.

Lemma first_error_perm (rt : runtime) (vs ws : list value) :
  Permutation vs ws -> first_error rt vs = None -> first_error rt ws = None.
Proof.
  intros P H. rewrite first_error_none in *. intros v Hv. apply H.
  eapply Permutation_in; [symmetry; exact P|exact Hv].
Qed.

(** *** The sort *)

Lemma keys_of_cases {A : Type} (rt : runtime) (f : A -> value)
    (prefix_order : list (str * Z)) (l : list A) :
  keys_of (fun x => _id_key rt (f x) prefix_order) l
  = match first_error rt (map f l) with
    | Some e => Raise e
    | None => Ok (map (fun x => id_key_of rt (f x) prefix_order) l)
    end.
Proof.
  induction l as [|x l IH]; [reflexivity|]. simpl.
  rewrite id_key_cases. destruct (id_key_error rt (f x)); [reflexivity|].
  rewrite IH. destruct (first_error rt (map f l)); reflexivity.
Qed.

Lemma sorted_decorated {A K : Type} (ltb : K -> K -> bool) (key : A -> K)
    (l : list A) :
  map snd (sorted ltb fst (combine (map key l) l)) = sorted ltb key l.
Proof.
  assert (H : forall (x : A) (d : list (K * A)),
             Forall (fun p => fst p = key (snd p)) d ->
             map snd (insert_sorted ltb fst (key x, x) d)
             = insert_sorted ltb key x (map snd d)).
  { intros x d. induction d as [|[k y] d IH]; intros F; [reflexivity|].
    inversion F as [|? ? Hy Fd]; subst. simpl in Hy. subst k. simpl.
    destruct (ltb (key y) (key x)); simpl; [rewrite (IH Fd)|]; reflexivity. }
  assert (G : Forall (fun p => fst p = key (snd p))
                (sorted ltb fst (combine (map key l) l))
              /\ map snd (sorted ltb fst (combine (map key l) l))
                 = sorted ltb key l).
  { induction l as [|x l [IF IH]]; [split; [constructor|reflexivity]|].
    simpl. split.
    - clear IH. revert IF.
      generalize (sorted ltb fst (combine (map key l) l)).
      intros d. induction d as [|[k y] d IHd]; intros F; simpl.
      + repeat constructor.
      + inversion F as [|? ? Hy Fd]; subst.
        destruct (ltb k (key x)).
        * constructor; [exact Hy|apply IHd; exact Fd].
        * constructor; [reflexivity|exact F].
    - rewrite (H x _ IF), IH. reflexivity. }
  apply G.
Qed.

(** A sort of the renderer raises the exception of the first element
    whose key cannot be computed, and otherwise returns the list sorted by
    the keys. *)
Lemma py_sorted_cases {A : Type} (rt : runtime) (f : A -> value)
    (prefix_order : list (str * Z)) (l : list A) :
  py_sorted id_key_ltb (fun x => _id_key rt (f x) prefix_order) l
  = match first_error rt (map f l) with
    | Some e => Raise e
    | None =>
        Ok (sorted id_key_ltb (fun x => id_key_of rt (f x) prefix_order) l)
    end.
Proof.
  unfold py_sorted. rewrite keys_of_cases.
  destruct (first_error rt (map f l)); [reflexivity|].
  rewrite sorted_decorated. reflexivity.
Qed.

Lemma child_keys_cases (rt : runtime) (l : list dict) :
  py_sorted child_key_ltb (child_sort_key rt) l
  = match first_error rt (map (get "id") l) with
    | Some e => Raise e
    | None => Ok (sorted child_key_ltb (child_key rt) l)
    end.
Proof.
  unfold py_sorted.
  assert (H : keys_of (child_sort_key rt) l
              = match first_error rt (map (get "id") l) with
                | Some e => Raise e
                | None => Ok (map (child_key rt) l)
                end).
  { induction l as [|x l IH]; [reflexivity|]. simpl.
    unfold child_sort_key at 1. cbv zeta. rewrite id_key_cases.
    destruct (id_key_error rt (get "id" x)); [reflexivity|].
    rewrite IH. destruct (first_error rt (map (get "id") l)); reflexivity. }
  rewrite H. destruct (first_error rt (map (get "id") l)); [reflexivity|].
  rewrite sorted_decorated. reflexivity.
Qed.

(** C3, as the code has it. The key of an identity [<PREFIX>-<digits>] is
    (rank, numeric id, the identity), where the rank of a prefix outside the
    table is 99 and the numeric id is the value of the digits whatever the
    prefix, as long as the digits are within the limit of [int]: at most
    640 digits, or no limit set, or at most as many as the limit. Beyond the
    limit [_id_key] raises the [ValueError] of [int]. A string of any other
    form gets (99, 0, the string); a value that is not a string gets
    (99, 0, its string form), which places it after every identity whose
    rank is below 99. *)
Theorem C3_id_key_cases (rt : runtime) (prefix_order : list (str * Z))
    (v : value) :
  (forall s prefix num_str,
      v = VStr s -> matches_id rt s prefix num_str ->
      ((List.length num_str <= 640 \/ int_max_str_digits rt = 0
        \/ List.length num_str <= int_max_str_digits rt)%nat ->
       _id_key rt v prefix_order
       = Ok (rank_of prefix_order prefix, digits_value rt num_str, s))
      /\ ((640 < List.length num_str
           /\ 0 < int_max_str_digits rt < List.length num_str)%nat ->
          _id_key rt v prefix_order
          = Raise (ValueError (int_limit_message rt num_str))))
  /\ (forall s,
         v = VStr s -> (forall p n, ~ matches_id rt s p n) ->
         _id_key rt v prefix_order = Ok (99%Z, 0%Z, s))
  /\ (is_str v = false ->
      _id_key rt v prefix_order = Ok (99%Z, 0%Z, py_str rt v))
  /\ (is_str v = false ->
      forall w key_w key_v,
        _id_key rt w prefix_order = Ok key_w ->
        _id_key rt v prefix_order = Ok key_v ->
        (key_rank key_w < 99)%Z ->
        id_key_ltb key_w key_v = true).
Proof.
  assert (Hns : is_str v = false ->
                _id_key rt v prefix_order = Ok (99%Z, 0%Z, py_str rt v)).
  { destruct v; simpl; try reflexivity; discriminate. }
  repeat split.
  - intros Hl. subst v. apply fullmatch_id_matches in H0.
    apply within_int_limit_iff in Hl.
    unfold _id_key, int_of_digits, rank_of. rewrite H0, Hl. reflexivity.
  - intros Hl. subst v. apply fullmatch_id_matches in H0.
    apply exceeds_int_limit_iff in Hl.
    unfold _id_key, int_of_digits. rewrite H0, Hl. reflexivity.
  - intros s0 -> Hn. apply fullmatch_id_none in Hn.
    unfold _id_key. rewrite Hn. reflexivity.
  - exact Hns.
  - intros Hv w [[r n] t] key_v Hw Hkv Hr. rewrite (Hns Hv) in Hkv.
    injection Hkv as <-. unfold key_rank in Hr. simpl in *.
    apply Z.ltb_lt in Hr. rewrite Hr. reflexivity.
Qed.

(** The key of ["TASK-015"]. *)
Lemma C3_witness :
  _id_key example_runtime (jstr "TASK-015") ISSUE_PREFIX_ORDER
  = Ok (1%Z, 15%Z, lit "TASK-015").
Proof.
  destruct (C3_id_key_cases example_runtime ISSUE_PREFIX_ORDER (jstr "TASK-015"))
    as [H _].
  apply (H (lit "TASK-015") (lit "TASK") (lit "015")).
  - reflexivity.
  - unfold matches_id. repeat split; try reflexivity; discriminate.
  - left. simpl. lia.
Defined.

(** C3 as stated fails. ["XYZ-5"] has a prefix outside the rank table and
    its numeric component is 5, not 0; and the non-string identity [5] sorts
    before that string identity, not after every string identity. *)
Lemma C3_counterexample :
  lookup (lit "XYZ") ISSUE_PREFIX_ORDER = None
  /\ _id_key example_runtime (jstr "XYZ-5") ISSUE_PREFIX_ORDER
     = Ok (99%Z, 5%Z, lit "XYZ-5")
  /\ _id_key example_runtime (jstr "XYZ-5") ISSUE_PREFIX_ORDER
     <> Ok (id_key_spec example_runtime (jstr "XYZ-5") ISSUE_PREFIX_ORDER)
  /\ _id_key example_runtime (VInt 5) ISSUE_PREFIX_ORDER
     = Ok (99%Z, 0%Z, lit "5")
  /\ id_key_ltb (99%Z, 0%Z, lit "5") (99%Z, 5%Z, lit "XYZ-5") = true.
Proof.
  repeat split; try reflexivity. vm_compute. discriminate.
Qed.

(** ** Cell formatter (C4) *)

Lemma lstrip_all_space (t : str) :
  forallb is_space t = true -> lstrip t = [].
Proof.
  induction t as [|c t IH]; simpl; [reflexivity|].
  intros H. apply andb_prop in H. destruct H as [Hc Ht]. rewrite Hc. auto.
Qed.

Lemma lstrip_head (t : str) :
  match lstrip t with [] => True | c :: _ => is_space c = false end.
Proof.
  induction t as [|c t IH]; simpl; [exact I|].
  destruct (is_space c) eqn:Hc; [exact IH|exact Hc].
Qed.

Lemma lstrip_incl (t : str) (x : char) : In x (lstrip t) -> In x t.
Proof.
  induction t as [|c t IH]; simpl; [auto|].
  destruct (is_space c); simpl; auto.
Qed.

Lemma lstrip_snoc (a : str) (c : char) :
  is_space c = false -> lstrip (a ++ [c]) = lstrip a ++ [c].
Proof.
  intros Hc. induction a as [|x a IH]; simpl.
  - rewrite Hc. reflexivity.
  - destruct (is_space x); [exact IH|reflexivity].
Qed.

Lemma rstrip_cons (c : char) (t : str) :
  is_space c = false -> rstrip (c :: t) = c :: rstrip t.
Proof.
  intros Hc. unfold rstrip. simpl. rewrite (lstrip_snoc _ _ Hc).
  rewrite rev_app_distr. reflexivity.
Qed.

Lemma rstrip_incl (t : str) (x : char) : In x (rstrip t) -> In x t.
Proof.
  unfold rstrip. intros H. rewrite <- in_rev in H.
  apply lstrip_incl in H. rewrite <- in_rev in H. exact H.
Qed.

Lemma rstrip_last (t : str) (d : char) :
  rstrip t <> [] -> is_space (last (rstrip t) d) = false.
Proof.
  unfold rstrip. pose proof (lstrip_head (rev t)) as H.
  destruct (lstrip (rev t)) as [|c r]; [intros E; destruct E; reflexivity|].
  intros _. simpl. rewrite last_last. exact H.
Qed.

Lemma strip_incl (t : str) (x : char) : In x (strip t) -> In x t.
Proof. intros H. apply lstrip_incl. apply rstrip_incl. exact H. Qed.

Lemma strip_all_space (t : str) :
  forallb is_space t = true -> strip t = [].
Proof. intros H. unfold strip. rewrite (lstrip_all_space t H). reflexivity. Qed.

(** What [strip] returns neither starts nor ends with whitespace. *)
Lemma strip_trimmed (t : str) :
  match strip t with
  | [] => True
  | c :: r => is_space c = false /\ is_space (last (strip t) c) = false
  end.
Proof.
  destruct (strip t) as [|c r] eqn:E; [exact I|]. split.
  - unfold strip in E. pose proof (lstrip_head t) as H.
    destruct (lstrip t) as [|x u]; [discriminate|].
    rewrite (rstrip_cons _ _ H) in E. inversion E; subst. exact H.
  - rewrite <- E. apply rstrip_last. unfold strip in E. rewrite E. discriminate.
Qed.

Lemma replace_char_in (c : char) (by_ t : str) (x : char) :
  In x (replace_char c by_ t) -> In x by_ \/ (In x t /\ x <> c).
Proof.
  unfold replace_char. intros H. apply in_flat_map in H.
  destruct H as [y [Hy Hx]]. destruct (N.eqb_spec y c); [auto|].
  simpl in Hx. destruct Hx as [<-|[]]. auto.
Qed.

Lemma replace_newline_space (t : str) :
  forallb is_space t = true ->
  forallb is_space (replace_char NEWLINE [SPACE] t) = true.
Proof.
  induction t as [|c t IH]; simpl; [reflexivity|].
  intros H. apply andb_prop in H. destruct H as [Hc Ht].
  unfold replace_char in *. simpl. rewrite forallb_app, (IH Ht).
  destruct (c =? NEWLINE); simpl; [reflexivity|]. rewrite Hc. reflexivity.
Qed.

(** After the escape no pipe is bare, whatever precedes the text. *)
Lemma escaped_no_bare_pipe (t : str) (prev : char) :
  bare_pipes prev (replace_char PIPE [BACKSLASH; PIPE] t) = O.
Proof.
  revert prev. induction t as [|c t IH]; intros prev; [reflexivity|].
  unfold replace_char in *. simpl. destruct (N.eqb_spec c PIPE).
  - simpl. rewrite IH. destruct (prev =? BACKSLASH); reflexivity.
  - simpl. rewrite IH. apply N.eqb_neq in n. rewrite n. reflexivity.
Qed.

Lemma last_cons_default {A : Type} (a : list A) (c d : A) :
  last (c :: a) d = last a c.
Proof.
  revert c d. induction a as [|x a IH]; intros c d; [reflexivity|].
  change (last (c :: x :: a) d) with (last (x :: a) d).
  rewrite (IH x d), (IH x c). reflexivity.
Qed.

Lemma last_app_nonempty {A : Type} (a b : list A) (d : A) :
  b <> [] -> last (a ++ b) d = last b d.
Proof.
  intros Hb. induction a as [|x a IH]; [reflexivity|].
  cbn [app]. rewrite <- IH. destruct (a ++ b) eqn:E; [|reflexivity].
  destruct a; [contradiction|discriminate].
Qed.

(** The escape keeps the last code point and puts nothing but a backslash
    before the first. *)
Lemma escaped_last (t : str) (d : char) :
  last (replace_char PIPE [BACKSLASH; PIPE] t) d = last t d.
Proof.
  induction t as [|x t IH]; [reflexivity|].
  unfold replace_char in *. cbn [flat_map].
  destruct t as [|y t].
  - cbn [flat_map]. rewrite app_nil_r. destruct (N.eqb_spec x PIPE);
      [subst x|]; reflexivity.
  - rewrite last_app_nonempty.
    + rewrite IH. reflexivity.
    + cbn [flat_map]. destruct (y =? PIPE); discriminate.
Qed.

Lemma escaped_head (c : char) (t : str) :
  is_space c = false ->
  match replace_char PIPE [BACKSLASH; PIPE] (c :: t) with
  | [] => False
  | x :: _ => is_space x = false
  end.
Proof.
  unfold replace_char. simpl. destruct (c =? PIPE); simpl; auto.
Qed.

Lemma cell_text_cases (t : str) :
  (strip (replace_char NEWLINE [SPACE] t) = [] /\ cell_text t = DASH)
  \/ (strip (replace_char NEWLINE [SPACE] t) <> []
      /\ cell_text t
         = replace_char PIPE [BACKSLASH; PIPE]
             (strip (replace_char NEWLINE [SPACE] t))).
Proof.
  unfold cell_text. destruct (strip (replace_char NEWLINE [SPACE] t)) eqn:E.
  - left. auto.
  - right. split; [discriminate|reflexivity].
Qed.

Lemma cell_text_no_bare_pipe (t : str) (prev : char) :
  bare_pipes prev (cell_text t) = O.
Proof.
  destruct (cell_text_cases t) as [[_ ->]|[_ ->]].
  - reflexivity.
  - apply escaped_no_bare_pipe.
Qed.

Lemma cell_text_no_newline (t : str) : ~ In NEWLINE (cell_text t).
Proof.
  destruct (cell_text_cases t) as [[_ ->]|[_ ->]].
  - simpl. intros [H|[]]. discriminate.
  - intros H. apply replace_char_in in H. destruct H as [H|[H _]].
    + simpl in H. destruct H as [H|[H|[]]]; discriminate.
    + apply strip_incl in H. apply replace_char_in in H.
      destruct H as [H|[_ H]].
      * simpl in H. destruct H as [H|[]]. discriminate.
      * apply H. reflexivity.
Qed.

Lemma cell_text_nonempty (t : str) : cell_text t <> [].
Proof.
  destruct (cell_text_cases t) as [[_ ->]|[Hn ->]]; [discriminate|].
  destruct (strip (replace_char NEWLINE [SPACE] t)) as [|c r];
    [contradiction|].
  unfold replace_char. simpl. destruct (c =? PIPE); discriminate.
Qed.

(** A cell text neither starts nor ends with whitespace. *)
Lemma cell_text_trimmed (t : str) :
  match cell_text t with
  | [] => False
  | c :: _ => is_space c = false /\ is_space (last (cell_text t) c) = false
  end.
Proof.
  destruct (cell_text_cases t) as [[_ ->]|[Hn ->]].
  - simpl. auto.
  - pose proof (strip_trimmed (replace_char NEWLINE [SPACE] t)) as H.
    destruct (strip (replace_char NEWLINE [SPACE] t)) as [|c r];
      [contradiction|].
    destruct H as [Hc Hl]. pose proof (escaped_head c r Hc) as Hh.
    destruct (replace_char PIPE [BACKSLASH; PIPE] (c :: r)) as [|x u] eqn:E;
      [contradiction|].
    split; [exact Hh|]. rewrite <- E, escaped_last.
    rewrite last_cons_default in Hl. rewrite last_cons_default. exact Hl.
Qed.

(** The code computes [cell_text] of the string form, after joining a
    sequence. *)
Lemma md_cell_unfold (rt : runtime) (v : value) :
  _md_cell rt v
  = match v with
    | VNone => DASH
    | VList items =>
        cell_text
          (join (lit ", ")
             (map (py_str rt) (filter (fun i => negb (is_none i)) items)))
    | _ => cell_text (py_str rt v)
    end.
Proof. destruct v; reflexivity. Qed.

Lemma md_cell_no_bare_pipe (rt : runtime) (v : value) (prev : char) :
  bare_pipes prev (_md_cell rt v) = O.
Proof.
  rewrite md_cell_unfold. destruct v; try apply cell_text_no_bare_pipe.
  reflexivity.
Qed.

Lemma md_cell_no_newline (rt : runtime) (v : value) :
  ~ In NEWLINE (_md_cell rt v).
Proof.
  rewrite md_cell_unfold. destruct v; try apply cell_text_no_newline.
  simpl. intros [H|[]]. discriminate.
Qed.

Lemma md_cell_trimmed (rt : runtime) (v : value) :
  match _md_cell rt v with
  | [] => False
  | c :: _ =>
      is_space c = false /\ is_space (last (_md_cell rt v) c) = false
  end.
Proof.
  rewrite md_cell_unfold. destruct v; try apply cell_text_trimmed.
  simpl. auto.
Qed.

Lemma md_cell_nonempty (rt : runtime) (v : value) : _md_cell rt v <> [].
Proof.
  rewrite md_cell_unfold. destruct v; try apply cell_text_nonempty.
  discriminate.
Qed.

(** C4, as the code has it. [None] renders as the placeholder dash. Any
    other value has a string form, which for a sequence is the comma-joined
    string forms of its non-null elements; the cell is that string form with
    newlines replaced by spaces and surrounding whitespace trimmed (for a
    sequence too), the placeholder dash when that text is empty (as for an
    empty list or a whitespace-only string), and otherwise the text with
    every pipe escaped by a backslash. A cell is never empty, holds no
    newline and no pipe that is not escaped, and neither starts nor ends
    with whitespace. *)
Theorem C4_md_cell (rt : runtime) (v : value) :
  (v = VNone -> _md_cell rt v = DASH)
  /\ (forall items,
         v = VList items ->
         _md_cell rt v
         = cell_text
             (join (lit ", ")
                (map (py_str rt) (filter (fun i => negb (is_none i)) items))))
  /\ (is_none v = false -> is_list v = false ->
      _md_cell rt v = cell_text (py_str rt v))
  /\ (v = VList [] -> _md_cell rt v = DASH)
  /\ (forall t, v = VStr t -> forallb is_space t = true ->
                _md_cell rt v = DASH)
  /\ (forall t,
         strip (replace_char NEWLINE [SPACE] t) <> [] ->
         cell_text t
         = replace_char PIPE [BACKSLASH; PIPE]
             (strip (replace_char NEWLINE [SPACE] t)))
  /\ (forall prev, bare_pipes prev (_md_cell rt v) = O)
  /\ ~ In NEWLINE (_md_cell rt v)
  /\ match _md_cell rt v with
     | [] => False
     | c :: _ =>
         is_space c = false /\ is_space (last (_md_cell rt v) c) = false
     end.
Proof.
  split; [|split; [|split; [|split; [|split; [|split; [|split; [|split]]]]]]].
  - intros ->. reflexivity.
  - intros items ->. reflexivity.
  - intros Hn Hl. destruct v; try reflexivity; discriminate.
  - intros ->. reflexivity.
  - intros t -> Ht. rewrite md_cell_unfold. unfold cell_text. simpl.
    rewrite (strip_all_space _ (replace_newline_space t Ht)). reflexivity.
  - intros t Ht. destruct (cell_text_cases t) as [[E _]|[_ E]];
      [contradiction|exact E].
  - apply md_cell_no_bare_pipe.
  - exact (md_cell_no_newline rt v).
  - exact (md_cell_trimmed rt v).
Qed.

(** A list with a null, a pipe, a newline and surrounding blanks, for C4. *)
Lemma C4_witness :
  _md_cell example_runtime (VList [jstr " a|b"; VNone; VInt 3; jstr "c "])
  = lit "a\|b, 3, c".
Proof.
  destruct (C4_md_cell example_runtime
              (VList [jstr " a|b"; VNone; VInt 3; jstr "c "]))
    as [_ [H _]].
  rewrite (H [jstr " a|b"; VNone; VInt 3; jstr "c "] eq_refl).
  vm_compute. reflexivity.
Defined.

(** C4 as stated fails on a sequence: the claim renders the list
    [["a\nb"]] as its joined string forms, newline included, while the code
    replaces the newline by a space. *)
Lemma C4_counterexample :
  _md_cell example_runtime (VList [VStr (lit "a" ++ [NEWLINE] ++ lit "b")])
  = lit "a b"
  /\ md_cell_spec example_runtime
       (VList [VStr (lit "a" ++ [NEWLINE] ++ lit "b")])
     = lit "a" ++ [NEWLINE] ++ lit "b"
  /\ _md_cell example_runtime (VList [VStr (lit "a" ++ [NEWLINE] ++ lit "b")])
     <> md_cell_spec example_runtime
          (VList [VStr (lit "a" ++ [NEWLINE] ++ lit "b")]).
Proof.
  repeat split; try reflexivity. vm_compute. discriminate.
Qed.

(** ** Estimate formatter (C6) *)

Lemma has_key_get (k : string) (d : dict) :
  has_key (lit k) d = false -> get k d = VNone.
Proof.
  unfold has_key, get. destruct (lookup (lit k) d); [discriminate|reflexivity].
Qed.

(** C6. The estimate formatter returns the placeholder dash for an estimate
    that is missing (read as [None]) or not a mapping, and for a mapping
    whose [method] is absent (no such key, or null); ["unknown"] when the
    method is ["unknown"], whatever the value; the string form of the method
    alone when [value] is absent (no such key, or null); and otherwise the
    method, a single space and the value. The three estimates of the
    scenario render as ["unknown"], ["points 5"] and the dash. *)
Theorem C6_format_estimate (rt : runtime) (estimate : value) :
  (is_dict estimate = false -> _format_estimate rt estimate = DASH)
  /\ (forall e,
         estimate = VDict e ->
         (has_key (lit "method") e = false ->
          _format_estimate rt estimate = DASH)
         /\ (get "method" e = VNone -> _format_estimate rt estimate = DASH)
         /\ (eq_str (get "method" e) "unknown" = true ->
             _format_estimate rt estimate = lit "unknown")
         /\ (get "method" e <> VNone ->
             eq_str (get "method" e) "unknown" = false ->
             get "value" e = VNone ->
             _format_estimate rt estimate = py_str rt (get "method" e))
         /\ (get "method" e <> VNone ->
             eq_str (get "method" e) "unknown" = false ->
             get "value" e <> VNone ->
             _format_estimate rt estimate
             = py_str rt (get "method" e) ++ [SPACE]
               ++ py_str rt (get "value" e)))
  /\ _format_estimate rt (VDict [field "method" (jstr "unknown")]) = lit "unknown"
  /\ _format_estimate rt
       (VDict [field "method" (jstr "unknown"); field "value" (VInt 8)])
     = lit "unknown"
  /\ _format_estimate rt
       (VDict [field "method" (jstr "points"); field "value" (VInt 5)])
     = lit "points 5"
  /\ _format_estimate rt (VDict []) = DASH
  /\ _format_estimate rt VNone = DASH.
Proof.
  split; [|split].
  - destruct estimate; simpl; try reflexivity; discriminate.
  - intros e ->. unfold _format_estimate.
    assert (Hnone : forall v, is_none v = true <-> v = VNone).
    { intros v. destruct v; simpl; split; congruence. }
    repeat split.
    + intros H. rewrite (has_key_get _ _ H). reflexivity.
    + intros ->. reflexivity.
    + intros H. destruct (is_none (get "method" e)) eqn:E.
      * apply Hnone in E. rewrite E in H. discriminate.
      * rewrite H. reflexivity.
    + intros Hm Hu Hv. destruct (is_none (get "method" e)) eqn:E.
      * apply Hnone in E. contradiction.
      * rewrite Hu, Hv. reflexivity.
    + intros Hm Hu Hv. destruct (is_none (get "method" e)) eqn:E.
      * apply Hnone in E. contradiction.
      * rewrite Hu. destruct (is_none (get "value" e)) eqn:F.
        -- apply Hnone in F. contradiction.
        -- reflexivity.
  - repeat split; reflexivity.
Qed.

(** An estimate in hours, for C6. *)
Lemma C6_witness :
  _format_estimate example_runtime
    (VDict [field "method" (jstr "hours"); field "value" (VInt 12)])
  = lit "hours 12".
Proof.
  destruct (C6_format_estimate example_runtime
              (VDict [field "method" (jstr "hours"); field "value" (VInt 12)]))
    as [_ [H _]].
  destruct (H [field "method" (jstr "hours"); field "value" (VInt 12)] eq_refl)
    as [_ [_ [_ [_ H5]]]].
  rewrite H5; [reflexivity|discriminate|reflexivity|discriminate].
Defined.

(** ** The [lines] monad *)

Lemma runs_ret {A : Type} (a : A) : runs (ret a) a [].
Proof. intros lines. unfold ret. rewrite app_nil_r. reflexivity. Qed.

Lemma runs_append (line : str) : runs (append line) tt [line].
Proof. intros lines. reflexivity. Qed.

Lemma runs_bind {A B : Type} (m : M A) (k : A -> M B) (a : A) (b : B)
    (o1 o2 : list str) :
  runs m a o1 -> runs (k a) b o2 -> runs (bind m k) b (o1 ++ o2).
Proof.
  intros Hm Hk lines. unfold bind. rewrite Hm, Hk, app_assoc. reflexivity.
Qed.

Lemma runs_output {A : Type} (m : M A) (a : A) (out : list str) :
  runs m a out -> output m = out.
Proof. intros H. unfold output. rewrite H. reflexivity. Qed.

Lemma runs_eq {A : Type} (m : M A) (a : A) (o1 o2 : list str) :
  runs m a o1 -> o1 = o2 -> runs m a o2.
Proof. intros H <-. exact H. Qed.

Lemma runs_for_each {A : Type} (f : A -> list str) (xs : list A)
    (body : A -> M unit) :
  (forall x, In x xs -> runs (body x) tt (f x)) ->
  runs (for_each xs body) tt (flat_map f xs).
Proof.
  induction xs as [|x xs IH]; simpl; intros H.
  - apply runs_ret.
  - eapply runs_bind; [apply H; auto|apply IH; auto].
Qed.

(** A loop whose bodies all run appends what the bodies append. *)
Lemma runs_for_each_output {A : Type} (xs : list A) (body : A -> M unit) :
  (forall x, In x xs -> exists out, runs (body x) tt out) ->
  runs (for_each xs body) tt (flat_map (fun x => output (body x)) xs).
Proof.
  intros H. apply runs_for_each. intros x Hx.
  destruct (H x Hx) as [out Ho]. rewrite (runs_output _ _ _ Ho). exact Ho.
Qed.

Ltac run_step :=
  first
    [ apply runs_append
    | apply runs_ret
    | eapply runs_bind; [|intros] ].

Ltac run := repeat run_step.

Lemma runs_append_items (rt : runtime) (prefix : str) (items : list value) :
  runs (append_items rt prefix items) tt
    (map (fun item => prefix ++ _md_cell rt item) items).
Proof.
  unfold append_items. eapply runs_eq.
  - apply (runs_for_each (fun item => [prefix ++ _md_cell rt item])).
    intros x _. apply runs_append.
  - induction items as [|i items IH]; simpl; [reflexivity|].
    rewrite IH. reflexivity.
Qed.

Lemma runs_append_items_or_dash (rt : runtime) (prefix : str)
    (items : list value) :
  exists out, runs (append_items_or_dash rt prefix items) tt out.
Proof.
  destruct items as [|i items].
  - eexists. apply runs_append.
  - eexists. apply runs_append_items.
Qed.

Lemma runs_append_field (rt : runtime) (label field : string) (issue : dict) :
  exists out, runs (append_field rt label field issue) tt out.
Proof. eexists. unfold append_field. run. Qed.

Lemma runs_append_section (rt : runtime) (label field : string)
    (issue : dict) :
  exists out, runs (append_section rt label field issue) tt out.
Proof.
  unfold append_section.
  destruct (runs_append_items_or_dash rt (lit "- ")
              (list_or_empty (get field issue))) as [o Ho].
  eexists. run. exact Ho.
Qed.

Lemma runs_append_optional_section (rt : runtime) (label field : string)
    (issue : dict) :
  exists out, runs (append_optional_section rt label field issue) tt out.
Proof.
  unfold append_optional_section.
  destruct (list_or_empty (get field issue)) as [|i items] eqn:E.
  - eexists. apply runs_ret.
  - eexists. run. apply runs_append_items.
Qed.

Ltac run_sections :=
  repeat
    match goal with
    | |- context [append_field ?rt ?l ?f ?i] =>
        let o := fresh "o" in
        let H := fresh "H" in
        destruct (runs_append_field rt l f i) as [o H];
        generalize dependent (append_field rt l f i); intros
    | |- context [append_section ?rt ?l ?f ?i] =>
        let o := fresh "o" in
        let H := fresh "H" in
        destruct (runs_append_section rt l f i) as [o H];
        generalize dependent (append_section rt l f i); intros
    | |- context [append_optional_section ?rt ?l ?f ?i] =>
        let o := fresh "o" in
        let H := fresh "H" in
        destruct (runs_append_optional_section rt l f i) as [o H];
        generalize dependent (append_optional_section rt l f i); intros
    end.

Lemma runs_render_user_story (rt : runtime) (issue : dict) :
  exists out, runs (_render_user_story rt issue) tt out.
Proof.
  unfold _render_user_story. run_sections.
  eexists. run; eassumption.
Qed.

Lemma runs_render_task (rt : runtime) (issue : dict) :
  exists out, runs (_render_task rt issue) tt out.
Proof.
  unfold _render_task. run_sections.
  eexists. run; eassumption.
Qed.

Lemma runs_render_bug (rt : runtime) (issue : dict) :
  exists out, runs (_render_bug rt issue) tt out.
Proof.
  unfold _render_bug. run_sections.
  eexists. run; eassumption.
Qed.

(** ** The blocks of the report *)

Lemma hashable_type_display (issue : dict) :
  hashable_type issue = true ->
  exists shown, type_display (get "type" issue) = Ok shown.
Proof.
  unfold hashable_type. destruct (type_display (get "type" issue)) as [v|e].
  - intros _. exists v. reflexivity.
  - discriminate.
Qed.

Lemma runs_render_issue_common (rt : runtime) (issue : dict) :
  hashable_type issue = true ->
  exists rest,
    runs (_render_issue_common rt issue) tt (issue_heading rt issue :: rest).
Proof.
  intros H. destruct (hashable_type_display issue H) as [shown Hs].
  unfold _render_issue_common. rewrite Hs. eexists.
  eapply runs_eq.
  - run.
  - reflexivity.
Qed.

(** The detail block of an issue with a hashable type starts with the
    heading of the issue, flush left, and ends with a blank line. *)
Lemma runs_render_issue_details (rt : runtime) (issue : dict) :
  hashable_type issue = true ->
  runs (_render_issue_details rt issue) tt (details_lines rt issue)
  /\ exists middle,
       details_lines rt issue = issue_heading rt issue :: middle ++ [[]].
Proof.
  intros H. destruct (runs_render_issue_common rt issue H) as [rest Hc].
  assert (Hv : exists out,
             runs (if eq_str (get "type" issue) "user_story"
                   then _render_user_story rt issue
                   else if eq_str (get "type" issue) "task"
                        then _render_task rt issue
                        else if eq_str (get "type" issue) "bug"
                             then _render_bug rt issue
                             else ret tt) tt out).
  { destruct (eq_str (get "type" issue) "user_story");
      [apply runs_render_user_story|].
    destruct (eq_str (get "type" issue) "task"); [apply runs_render_task|].
    destruct (eq_str (get "type" issue) "bug"); [apply runs_render_bug|].
    eexists. apply runs_ret. }
  destruct Hv as [out Hv].
  assert (Hr : runs (_render_issue_details rt issue) tt
                 (issue_heading rt issue :: (rest ++ out) ++ [[]])).
  { unfold _render_issue_details. eapply runs_eq.
    - eapply runs_bind; [exact Hc|]. eapply runs_bind; [exact Hv|].
      apply runs_append.
    - simpl. rewrite app_assoc. reflexivity. }
  unfold details_lines. rewrite (runs_output _ _ _ Hr).
  split; [exact Hr|]. exists (rest ++ out). reflexivity.
Qed.

(** *** Sorts inside a computation *)

Lemma runs_lift_ok {A B : Type} (a : A) (k : A -> M B) (b : B)
    (out : list str) :
  runs (k a) b out -> runs (x <- lift (Ok a) ;; k x) b out.
Proof. intros H lines. apply H. Qed.

Lemma lift_ok_bind {A B : Type} (a : A) (k : A -> M B) (lines : list str) :
  (x <- lift (Ok a) ;; k x) lines = k a lines.
Proof. reflexivity. Qed.

Lemma bind_runs {A B : Type} (m : M A) (k : A -> M B) (a : A)
    (out lines : list str) :
  runs m a out -> bind m k lines = k a (lines ++ out).
Proof. intros H. unfold bind. rewrite H. reflexivity. Qed.

Lemma lift_raise_bind {A B : Type} (e : exn) (k : A -> M B)
    (lines : list str) :
  (x <- lift (Raise e) ;; k x) lines = Raise e.
Proof. reflexivity. Qed.

Lemma raises_after {A B : Type} (m : M A) (k : A -> M B) (a : A)
    (out : list str) (e : exn) :
  runs m a out -> (forall lines, k a lines = Raise e) ->
  forall lines, bind m k lines = Raise e.
Proof. intros Hm Hk lines. unfold bind. rewrite Hm. apply Hk. Qed.

Lemma runs_render_meta (rt : runtime) (meta : dict) :
  meta_error rt meta = None ->
  exists out, runs (_render_meta rt meta) tt out.
Proof.
  unfold _render_meta, meta_error. intros He.
  destruct (runs_append_items_or_dash rt (lit "- ")
              (list_or_empty (get "assumptions" meta))) as [o1 H1].
  assert (H2 : exists out,
             runs (match list_or_empty (get "open_questions" meta) with
                   | [] => append (lit "- " ++ DASH)
                   | _ =>
                       questions <-
                         lift (py_sorted id_key_ltb
                                 (fun item =>
                                    _id_key rt (get "id" item) Q_PREFIX_ORDER)
                                 (dicts_of
                                    (list_or_empty
                                       (get "open_questions" meta)))) ;;
                       for_each questions
                         (fun q =>
                            let q_id := _md_cell rt (get "id" q) in
                            let q_type := _md_cell rt (get "type" q) in
                            let owner := _md_cell rt (get "owner" q) in
                            let question := _md_cell rt (get "question" q) in
                            append (lit "- **" ++ q_id ++ lit "** (" ++ q_type
                                    ++ lit ", owner: " ++ owner ++ lit "): "
                                    ++ question) ;;
                            match get "context" q with
                            | VStr context =>
                                match strip context with
                                | [] => ret tt
                                | _ => append (lit "  - Context: "
                                               ++ _md_cell rt (VStr context))
                                end
                            | _ => ret tt
                            end)
                   end) tt out).
  { destruct (list_or_empty (get "open_questions" meta)) as [|q0 qs].
    - eexists. apply runs_append.
    - rewrite py_sorted_cases, He. eexists. apply runs_lift_ok.
      apply runs_for_each_output. intros q _. cbv zeta.
      destruct (get "context" q) as [| | | |c| |];
        try (eexists; run; fail).
      destruct (strip c); eexists; run. }
  destruct H2 as [o2 H2].
  eexists. run; eassumption.
Qed.

Lemma render_meta_raises (rt : runtime) (meta : dict) (e : exn) :
  meta_error rt meta = Some e ->
  forall lines, _render_meta rt meta lines = Raise e.
Proof.
  unfold _render_meta, meta_error. intros He.
  destruct (runs_append_items_or_dash rt (lit "- ")
              (list_or_empty (get "assumptions" meta))) as [o1 H1].
  destruct (list_or_empty (get "open_questions" meta)) as [|q0 qs];
    [discriminate|].
  rewrite py_sorted_cases, He.
  repeat (eapply raises_after; [apply runs_append|]).
  eapply raises_after; [exact H1|].
  repeat (eapply raises_after; [apply runs_append|]).
  intros lines. reflexivity.
Qed.

Lemma pop_blank_snoc (lines : list str) :
  pop_blank (lines ++ [[]]) = Ok (tt, lines).
Proof.
  unfold pop_blank. rewrite rev_app_distr. simpl. rewrite rev_involutive.
  reflexivity.
Qed.

(** A loop over a non-empty list whose bodies end with a blank line ends
    with a blank line. *)
Lemma runs_for_fold_blank {A S : Type} (step : S -> A -> S) (xs : list A)
    (body : A -> S -> M S) :
  (forall x s, exists o, runs (body x s) (step s x) (o ++ [[]])) ->
  xs <> [] ->
  forall s, exists o, runs (for_fold xs s body) (fold_left step xs s) (o ++ [[]]).
Proof.
  intros Hb. induction xs as [|x xs IH]; [contradiction|]. intros _ s0.
  destruct (Hb x s0) as [o1 H1]. simpl.
  destruct xs as [|y ys].
  - exists o1. eapply runs_eq.
    + eapply runs_bind; [exact H1|apply runs_ret].
    + apply app_nil_r.
  - destruct (IH ltac:(discriminate) (step s0 x)) as [o2 H2].
    exists (o1 ++ [[]] ++ o2). eapply runs_eq.
    + eapply runs_bind; [exact H1|exact H2].
    + rewrite <- !app_assoc. reflexivity.
Qed.

Lemma runs_render_epics (rt : runtime) (epics : list value) :
  epics_error rt epics = None ->
  exists out, runs (_render_epics rt epics) (epic_index rt epics) out.
Proof.
  unfold _render_epics, epic_index, sorted_epics, epics_error. intros He.
  destruct (dicts_of epics) as [|e0 es] eqn:E.
  - eexists. run.
  - rewrite py_sorted_cases, He.
    set (xs := sorted id_key_ltb
                 (fun e => id_key_of rt (get "id" e) E_PREFIX_ORDER)
                 (e0 :: es)).
    assert (Hx : xs <> []).
    { unfold xs. simpl. destruct (sorted _ _ es); simpl; [discriminate|].
      match goal with |- context [if ?c then _ else _] => destruct c end;
        discriminate. }
    match goal with
    | |- context [for_fold _ [] ?b] =>
        destruct (runs_for_fold_blank index_epic xs b)
          with (s := @nil (str * dict)) as [o Ho]; [|exact Hx|]
    end.
    + intros epic epic_by_id. cbv zeta.
      fold (index_epic epic_by_id epic).
      destruct (runs_append_items_or_dash rt (lit "  - ")
                  (list_or_empty (get "exit_criteria" epic))) as [o1 H1].
      assert (H2 : exists out,
                 runs (match list_or_empty (get "non_goals" epic) with
                       | [] => ret tt
                       | _ =>
                           append (lit "- **Non-goals:**") ;;
                           append_items rt (lit "  - ")
                             (list_or_empty (get "non_goals" epic))
                       end) tt out).
      { destruct (list_or_empty (get "non_goals" epic)).
        - eexists. apply runs_ret.
        - eexists. run. apply runs_append_items. }
      destruct H2 as [o2 H2].
      eexists. eapply runs_eq.
      * run; try eassumption.
      * simpl. rewrite app_assoc, !app_comm_cons. reflexivity.
    + exists ([[]; lit "## Epics"] ++ o). intros lines.
      rewrite (bind_runs _ _ _ _ _ (runs_append _)).
      rewrite (bind_runs _ _ _ _ _ (runs_append _)).
      rewrite lift_ok_bind. rewrite (bind_runs _ _ _ _ _ Ho).
      unfold bind, ret.
      rewrite app_assoc, pop_blank_snoc, <- !app_assoc. reflexivity.
Qed.

Lemma render_epics_raises (rt : runtime) (epics : list value) (e : exn) :
  epics_error rt epics = Some e ->
  forall lines, _render_epics rt epics lines = Raise e.
Proof.
  unfold _render_epics, epics_error. intros He.
  destruct (dicts_of epics) as [|e0 es]; [discriminate|].
  rewrite py_sorted_cases, He. intros lines. reflexivity.
Qed.

(** ** Sorting and the indices *)

Section SortedFacts.
Context {A K : Type} (ltb : K -> K -> bool) (key : A -> K).

Lemma insert_sorted_perm (x : A) (l : list A) :
  Permutation (x :: l) (insert_sorted ltb key x l).
Proof.
  induction l as [|y l IH]; simpl; [reflexivity|].
  destruct (ltb (key y) (key x)); [|reflexivity].
  rewrite perm_swap. apply perm_skip. exact IH.
Qed.

(** [sorted] rearranges its argument. *)
Lemma sorted_perm (l : list A) : Permutation l (sorted ltb key l).
Proof.
  induction l as [|x l IH]; simpl; [reflexivity|].
  rewrite <- insert_sorted_perm. apply perm_skip. exact IH.
Qed.

Lemma sorted_in (l : list A) (x : A) : In x (sorted ltb key l) <-> In x l.
Proof.
  split; intros H.
  - eapply Permutation_in; [symmetry; apply sorted_perm|exact H].
  - eapply Permutation_in; [apply sorted_perm|exact H].
Qed.

Lemma sorted_length (l : list A) : List.length (sorted ltb key l) = List.length l.
Proof. symmetry. apply Permutation_length. apply sorted_perm. Qed.

Hypothesis ltb_irrefl : forall a, ltb a a = false.
Hypothesis ltb_trans :
  forall a b c, ltb a b = true -> ltb b c = true -> ltb a c = true.
Hypothesis ltb_total :
  forall a b, ltb a b = false -> ltb b a = false ->
              forall c, ltb c a = ltb c b.

Lemma insert_sorted_sorted (x : A) (l : list A) :
  StronglySorted (not_after ltb key) l ->
  StronglySorted (not_after ltb key) (insert_sorted ltb key x l).
Proof.
  induction l as [|y l IH]; simpl; intros H.
  - constructor; constructor.
  - inversion H as [|? ? Hl Hy]; subst.
    destruct (ltb (key y) (key x)) eqn:E.
    + constructor; [apply IH; exact Hl|].
      rewrite Forall_forall in *. intros z Hz.
      apply (Permutation_in _ (Permutation_sym (insert_sorted_perm x l)))
        in Hz.
      destruct Hz as [<-|Hz]; [|apply Hy; exact Hz].
      unfold not_after in *.
      destruct (ltb (key x) (key y)) eqn:F; [|reflexivity].
      pose proof (ltb_trans _ _ _ F E) as G.
      rewrite ltb_irrefl in G. discriminate.
    + constructor; [exact H|].
      constructor; [exact E|].
      rewrite Forall_forall in *. intros z Hz. specialize (Hy z Hz).
      unfold not_after in *.
      destruct (ltb (key z) (key x)) eqn:F; [|reflexivity].
      destruct (ltb (key x) (key y)) eqn:G.
      * rewrite <- Hy. symmetry. apply (ltb_trans _ _ _ F G).
      * rewrite (ltb_total _ _ E G) in Hy. congruence.
Qed.

Lemma sorted_sorted (l : list A) :
  StronglySorted (not_after ltb key) (sorted ltb key l).
Proof.
  induction l as [|x l IH]; simpl; [constructor|].
  apply insert_sorted_sorted. exact IH.
Qed.
End SortedFacts.

Lemma str_ltb_irrefl (a : str) : str_ltb a a = false.
Proof.
  induction a as [|x a IH]; simpl; [reflexivity|].
  rewrite N.ltb_irrefl, N.eqb_refl, IH. reflexivity.
Qed.

Lemma str_ltb_trans (a b c : str) :
  str_ltb a b = true -> str_ltb b c = true -> str_ltb a c = true.
Proof.
  revert b c. induction a as [|x a IH]; intros [|y b] [|z c]; simpl;
    try discriminate; auto.
  intros H1 H2. apply orb_prop in H1. apply orb_prop in H2.
  apply orb_true_iff.
  destruct H1 as [H1|H1]; destruct H2 as [H2|H2];
    repeat match goal with
           | H : (_ && _) = true |- _ => apply andb_prop in H; destruct H
           | H : (_ <? _) = true |- _ => apply N.ltb_lt in H
           | H : (_ =? _) = true |- _ => apply N.eqb_eq in H
           end.
  - left. apply N.ltb_lt. lia.
  - left. apply N.ltb_lt. lia.
  - left. apply N.ltb_lt. lia.
  - right. apply andb_true_iff. split; [apply N.eqb_eq; lia|].
    eapply IH; eassumption.
Qed.

Lemma str_ltb_total (a b : str) :
  str_ltb a b = false -> str_ltb b a = false -> a = b.
Proof.
  revert b. induction a as [|x a IH]; intros [|y b]; simpl;
    try discriminate; auto.
  intros H1 H2. apply orb_false_iff in H1. apply orb_false_iff in H2.
  destruct H1 as [L1 E1]. destruct H2 as [L2 E2].
  apply N.ltb_ge in L1. apply N.ltb_ge in L2.
  assert (x = y) by lia. subst y. rewrite N.eqb_refl in *. simpl in *.
  f_equal. apply IH; assumption.
Qed.

(** The [<] of keys as a proposition. *)
Lemma id_key_ltb_iff (a b : id_key) :
  id_key_ltb a b = true <->
  (key_rank a < key_rank b)%Z
  \/ (key_rank a = key_rank b
      /\ ((key_number a < key_number b)%Z
          \/ (key_number a = key_number b
              /\ str_ltb (key_text a) (key_text b) = true))).
Proof.
  destruct a as [[r1 n1] s1]. destruct b as [[r2 n2] s2].
  unfold id_key_ltb, key_rank, key_number, key_text. simpl.
  rewrite !orb_true_iff, !andb_true_iff, !orb_true_iff, !andb_true_iff.
  rewrite !Z.ltb_lt, !Z.eqb_eq. reflexivity.
Qed.

Lemma id_key_ltb_irrefl (a : id_key) : id_key_ltb a a = false.
Proof.
  destruct (id_key_ltb a a) eqn:E; [|reflexivity].
  apply id_key_ltb_iff in E. rewrite str_ltb_irrefl in E.
  destruct E as [E|[_ [E|[_ E]]]]; try lia; try discriminate.
Qed.

Lemma id_key_ltb_trans (a b c : id_key) :
  id_key_ltb a b = true -> id_key_ltb b c = true -> id_key_ltb a c = true.
Proof.
  rewrite !id_key_ltb_iff.
  intros [H1|[E1 [H1|[F1 H1]]]] [H2|[E2 [H2|[F2 H2]]]]; try lia;
    try (right; split; [lia|]; left; lia).
  right. split; [lia|]. right. split; [lia|].
  eapply str_ltb_trans; eassumption.
Qed.

Lemma id_key_ltb_total (a b : id_key) :
  id_key_ltb a b = false -> id_key_ltb b a = false -> a = b.
Proof.
  intros H1 H2.
  assert (N1 : ~ id_key_ltb a b = true) by congruence.
  assert (N2 : ~ id_key_ltb b a = true) by congruence.
  rewrite id_key_ltb_iff in N1, N2.
  destruct a as [[r1 n1] s1]. destruct b as [[r2 n2] s2].
  unfold key_rank, key_number, key_text in *. simpl in *.
  assert (r1 = r2) by lia. subst r2.
  assert (n1 = n2) by lia. subst n2.
  f_equal. apply str_ltb_total.
  - destruct (str_ltb s1 s2); [|reflexivity]. exfalso. apply N1. auto.
  - destruct (str_ltb s2 s1); [|reflexivity]. exfalso. apply N2. auto.
Qed.




(** ** The dicts the renderer builds *)

Lemma str_eqb_eq (a b : str) : str_eqb a b = true <-> a = b.
Proof.
  unfold str_eqb. destruct (list_eq_dec N.eq_dec a b); split; congruence.
Qed.

Lemma str_eqb_refl (a : str) : str_eqb a a = true.
Proof. apply str_eqb_eq. reflexivity. Qed.

Lemma group_key_eqb_eq (a b : group_key) : group_key_eqb a b = true <-> a = b.
Proof.
  destruct a as [x|], b as [y|]; simpl; try (split; congruence).
  rewrite str_eqb_eq. split; congruence.
Qed.

Section Index.
Context {K A : Type} (eqb : K -> K -> bool).
Hypothesis eqb_eq : forall a b, eqb a b = true <-> a = b.

Lemma eqb_sym (a b : K) : eqb a b = eqb b a.
Proof.
  destruct (eqb a b) eqn:E, (eqb b a) eqn:F; try reflexivity.
  - apply eqb_eq in E. subst. rewrite (proj2 (eqb_eq b b) eq_refl) in F.
    discriminate.
  - apply eqb_eq in F. subst. rewrite (proj2 (eqb_eq a a) eq_refl) in E.
    discriminate.
Qed.

Lemma get_list_setdefault (k k' : K) (x : A) (d : list (K * list A)) :
  get_list eqb k (setdefault_append eqb k' x d)
  = get_list eqb k d ++ (if eqb k k' then [x] else []).
Proof.
  induction d as [|[k0 xs] d IH]; simpl.
  - destruct (eqb k k'); reflexivity.
  - destruct (eqb k' k0) eqn:E; simpl.
    + apply eqb_eq in E. subst k0. destruct (eqb k k'); [reflexivity|].
      rewrite app_nil_r. reflexivity.
    + destruct (eqb k k0) eqn:F; [|exact IH].
      apply eqb_eq in F. subst k0. rewrite eqb_sym, E, app_nil_r.
      reflexivity.
Qed.

Lemma keys_setdefault (k k' : K) (x : A) (d : list (K * list A)) :
  In k (map fst (setdefault_append eqb k' x d))
  <-> In k (map fst d) \/ k = k'.
Proof.
  induction d as [|[k0 xs] d IH]; simpl.
  - intuition.
  - destruct (eqb k' k0) eqn:E; simpl.
    + apply eqb_eq in E. subst k0. intuition.
    + rewrite IH. intuition.
Qed.

Variable keyf : A -> option K.
Variable step : list (K * list A) -> A -> list (K * list A).
Hypothesis step_eq :
  forall d x,
    step d x = match keyf x with
               | Some k => setdefault_append eqb k x d
               | None => d
               end.

(** The list under a key holds the elements with that key, in their
    order. *)
Lemma get_list_index (k : K) (l : list A) (d : list (K * list A)) :
  get_list eqb k (fold_left step l d)
  = get_list eqb k d ++ filter (fun x => option_eqb eqb (keyf x) k) l.
Proof.
  revert d. induction l as [|x l IH]; intros d; simpl.
  - rewrite app_nil_r. reflexivity.
  - rewrite IH, step_eq. unfold option_eqb at 2.
    destruct (keyf x) as [k'|].
    + rewrite get_list_setdefault, <- app_assoc.
      destruct (eqb k k'); reflexivity.
    + reflexivity.
Qed.

Lemma keys_index (k : K) (l : list A) (d : list (K * list A)) :
  In k (map fst (fold_left step l d))
  <-> In k (map fst d) \/ exists x, In x l /\ keyf x = Some k.
Proof.
  revert d. induction l as [|x l IH]; intros d; simpl.
  - split; [auto|]. intros [H|[x [[] _]]]. exact H.
  - rewrite IH, step_eq. destruct (keyf x) as [k'|] eqn:E.
    + rewrite keys_setdefault. split.
      * intros [[H|H]|[y [Hy Hk]]]; eauto.
        subst k'. right. exists x. auto.
      * intros [H|[y [[<-|Hy] Hk]]]; eauto.
        left. right. congruence.
    + split.
      * intros [H|[y [Hy Hk]]]; eauto.
      * intros [H|[y [[<-|Hy] Hk]]]; eauto. congruence.
Qed.
End Index.

(** The children listed under a parent id are the issues of the sorted
    list whose [parent_id] is that id. *)
Lemma children_index_spec (issues : list dict) (parent_id : str) :
  get_list str_eqb parent_id (children_index issues)
  = filter (fun x => option_eqb str_eqb (parent_key x) parent_id) issues.
Proof.
  unfold children_index.
  rewrite (get_list_index str_eqb str_eqb_eq parent_key); [reflexivity|].
  intros d x. unfold parent_key.
  destruct (get "parent_id" x) as [| | | |[|c p]| |]; reflexivity.
Qed.

(** The group of an epic id holds the issues with that epic id, in their
    order. *)
Lemma group_index_spec (issues : list dict) (epic_id : group_key) :
  get_list group_key_eqb epic_id (group_index issues)
  = filter (fun x => group_key_eqb epic_id (epic_key x)) issues.
Proof.
  unfold group_index.
  rewrite (get_list_index group_key_eqb group_key_eqb_eq
             (fun x => Some (epic_key x))); reflexivity.
Qed.

Lemma group_index_keys (issues : list dict) (epic_id : group_key) :
  In epic_id (map fst (group_index issues))
  <-> exists x, In x issues /\ epic_key x = epic_id.
Proof.
  unfold group_index.
  rewrite (keys_index group_key_eqb group_key_eqb_eq
             (fun x => Some (epic_key x))); [|reflexivity].
  simpl. split.
  - intros [[]|[x [Hx E]]]. exists x. split; congruence.
  - intros [x [Hx E]]. right. exists x. split; congruence.
Qed.

(** ** Layout of the report *)

Lemma render_summary_table_eq (rt : runtime) (issues : list dict)
    (lines : list str) :
  _render_summary_table rt issues lines
  = match summary_rows rt issues with
    | Ok rows => Ok (tt, lines ++ table_head ++ rows)
    | Raise e => Raise e
    end.
Proof.
  assert (H : forall lines,
             for_each issues
               (fun issue =>
                  cells <- lift (summary_cells rt issue) ;;
                  append (table_row cells)) lines
             = match summary_rows rt issues with
               | Ok rows => Ok (tt, lines ++ rows)
               | Raise e => Raise e
               end).
  { induction issues as [|i issues IH]; intros l; simpl.
    - unfold ret. rewrite app_nil_r. reflexivity.
    - unfold bind at 1. unfold bind at 1. unfold lift, append.
      destruct (summary_cells rt i) as [cells|e]; [|reflexivity].
      rewrite IH. destruct (summary_rows rt issues) as [rows|e];
        [|reflexivity].
      rewrite <- app_assoc. reflexivity. }
  unfold _render_summary_table, bind, append. rewrite H.
  destruct (summary_rows rt issues) as [rows|e]; [|reflexivity].
  rewrite <- !app_assoc. reflexivity.
Qed.

(** The rows can be built exactly when every type can be hashed. *)
Lemma summary_rows_ok (rt : runtime) (issues : list dict) :
  forallb hashable_type issues = true ->
  exists rows,
    summary_rows rt issues = Ok rows
    /\ Forall2 (fun issue row =>
                  exists cells,
                    summary_cells rt issue = Ok cells /\ row = table_row cells)
         issues rows.
Proof.
  induction issues as [|i issues IH]; simpl; intros H.
  - exists []. split; [reflexivity|constructor].
  - apply andb_prop in H. destruct H as [Hi Hr].
    destruct (IH Hr) as [rows [E F]].
    destruct (hashable_type_display i Hi) as [shown Hs].
    unfold summary_cells at 1. rewrite Hs, E. eexists. split; [reflexivity|].
    constructor; [|exact F]. eexists. split; [|reflexivity].
    unfold summary_cells. rewrite Hs. reflexivity.
Qed.

Lemma summary_rows_hashable (rt : runtime) (issues : list dict)
    (rows : list str) :
  summary_rows rt issues = Ok rows -> forallb hashable_type issues = true.
Proof.
  revert rows. induction issues as [|i issues IH]; simpl; intros rows H;
    [reflexivity|].
  unfold summary_cells, hashable_type in *.
  destruct (type_display (get "type" i)) as [shown|e]; [|discriminate].
  destruct (summary_rows rt issues) as [rows'|e]; [|discriminate].
  simpl. apply (IH rows'). reflexivity.
Qed.

Lemma summary_rows_raise (rt : runtime) (issues : list dict) :
  forallb hashable_type issues = false ->
  exists msg, summary_rows rt issues = Raise (TypeError msg).
Proof.
  induction issues as [|i issues IH]; simpl; [discriminate|].
  unfold summary_cells, hashable_type at 1.
  destruct (type_display (get "type" i)) as [shown|e] eqn:E.
  - simpl. intros H. destruct (IH H) as [msg Hm]. rewrite Hm. eauto.
  - intros _. destruct (get "type" i) as [| | | |t| |];
      unfold type_display in E; try discriminate;
      try (injection E as <-; eexists; reflexivity).
    revert E. destruct (lookup t TYPE_DISPLAY); discriminate.
Qed.

Lemma flat_map_flat_map {A B C : Type} (f : B -> list C) (g : A -> list B)
    (l : list A) :
  flat_map f (flat_map g l) = flat_map (fun x => flat_map f (g x)) l.
Proof.
  induction l as [|x l IH]; simpl; [reflexivity|].
  rewrite flat_map_app, IH. reflexivity.
Qed.

Lemma flat_map_map {A B C : Type} (f : B -> list C) (g : A -> B)
    (l : list A) :
  flat_map f (map g l) = flat_map (fun x => f (g x)) l.
Proof.
  induction l as [|x l IH]; simpl; [reflexivity|]. rewrite IH. reflexivity.
Qed.

Lemma runs_details_each (rt : runtime) (issues : list dict) :
  (forall i, In i issues -> hashable_type i = true) ->
  runs (for_each issues (_render_issue_details rt)) tt
    (flat_map (details_lines rt) issues).
Proof.
  intros H. apply runs_for_each. intros x Hx.
  apply runs_render_issue_details. apply H. exact Hx.
Qed.

Lemma first_error_filter (rt : runtime) (p : dict -> bool) (l : list dict) :
  first_error rt (map (get "id") l) = None ->
  first_error rt (map (get "id") (filter p l)) = None.
Proof.
  rewrite !first_error_none. intros H v Hv. apply H.
  apply in_map_iff in Hv. destruct Hv as [x [<- Hx]].
  apply filter_In in Hx. apply in_map. tauto.
Qed.

Lemma runs_render_children (rt : runtime)
    (children_by_parent_id : list (str * list dict)) (story : dict) :
  (forall story_id,
      first_error rt
        (map (get "id") (get_list str_eqb story_id children_by_parent_id))
      = None) ->
  (forall c, In c (sorted_children rt children_by_parent_id story) ->
             hashable_type c = true) ->
  runs (render_children rt children_by_parent_id story) tt
    (flat_map (details_lines rt)
       (sorted_children rt children_by_parent_id story)).
Proof.
  intros Hc Hh. unfold render_children, sorted_children in *.
  destruct (get "id" story) as [| | | |story_id| |]; try apply runs_ret.
  specialize (Hc story_id).
  destruct (get_list str_eqb story_id children_by_parent_id) as [|c0 cs];
    [apply runs_ret|].
  rewrite child_keys_cases, Hc. apply runs_lift_ok.
  apply runs_details_each. exact Hh.
Qed.

Lemma runs_render_group (rt : runtime) (epic_by_id : list (str * dict))
    (children_by_parent_id : list (str * list dict))
    (epic_groups : list (group_key * list dict)) (epic_id : group_key) :
  first_error rt
    (map (get "id") (get_list group_key_eqb epic_id epic_groups)) = None ->
  (forall story_id,
      first_error rt
        (map (get "id") (get_list str_eqb story_id children_by_parent_id))
      = None) ->
  entries_hashable
    (group_entries rt children_by_parent_id epic_groups epic_id) ->
  runs (render_group rt epic_by_id children_by_parent_id epic_groups epic_id)
    tt
    (flat_map (entry_lines rt epic_by_id)
       (group_entries rt children_by_parent_id epic_groups epic_id)).
Proof.
  intros Hg Hc H. unfold render_group, group_entries in *. cbv zeta in *.
  set (group := get_list group_key_eqb epic_id epic_groups) in *.
  pose proof (first_error_filter rt
                (fun i => eq_str (get "type" i) "user_story") group Hg) as Hs.
  fold (user_stories_of group) in Hs.
  rewrite py_sorted_cases, Hs. clear Hs.
  fold (sorted_stories rt group).
  eapply runs_eq.
  - eapply runs_bind.
    + instantiate (1 := group_heading_lines rt epic_by_id epic_id).
      destruct epic_id as [eid|]; cbv zeta; eapply runs_eq; try (run; fail);
        reflexivity.
    + apply runs_lift_ok. eapply runs_bind.
      * apply (runs_for_each
                 (fun story =>
                    flat_map (entry_lines rt epic_by_id)
                      (story_entries rt children_by_parent_id story))).
        intros story Hs. unfold story_entries. simpl.
        eapply runs_bind.
        -- apply runs_render_issue_details.
           apply (H (TopLevel story)); [|reflexivity].
           right. apply in_or_app. left. apply in_flat_map.
           exists story. split; [exact Hs|]. left. reflexivity.
        -- eapply runs_eq.
           ++ apply runs_render_children; [exact Hc|]. intros c Hin.
              apply (H (Child story c)); [|reflexivity].
              right. apply in_or_app. left. apply in_flat_map.
              exists story. split; [exact Hs|]. right.
              apply in_map. exact Hin.
           ++ rewrite flat_map_map. reflexivity.
      * eapply runs_eq.
        -- apply runs_details_each. intros i Hi.
           apply (H (TopLevel i)); [|reflexivity].
           right. apply in_or_app. right. apply in_map. exact Hi.
        -- symmetry. apply (flat_map_map (entry_lines rt epic_by_id) TopLevel).
  - simpl. rewrite flat_map_app, flat_map_flat_map.
    destruct epic_id; reflexivity.
Qed.

(** ** The entries of the Issue Details section *)

Lemma sorted_group_keys_in (rt : runtime)
    (epic_groups : list (group_key * list dict)) (k : group_key) :
  In k (sorted_group_keys rt epic_groups) <-> In k (map fst epic_groups).
Proof.
  unfold sorted_group_keys. cbv zeta.
  set (keys := map fst epic_groups).
  assert (Hnamed : forall eid,
             In eid (flat_map (fun k => match k with
                                        | Some eid => [eid]
                                        | None => []
                                        end) keys)
             <-> In (Some eid) keys).
  { intros eid. rewrite in_flat_map. split.
    - intros [[x|] [Hx Hi]]; simpl in Hi; [|contradiction].
      destruct Hi as [<-|[]]. exact Hx.
    - intros H. exists (Some eid). simpl. auto. }
  assert (Hnone : existsb (group_key_eqb None) keys = true <-> In None keys).
  { rewrite existsb_exists. split.
    - intros [x [Hx E]]. destruct x; [discriminate|exact Hx].
    - intros H. exists None. auto. }
  destruct k as [eid|].
  - split.
    + intros H. apply in_app_or in H. destruct H as [H|H].
      * apply in_map_iff in H. destruct H as [x [E Hx]].
        injection E as ->. apply sorted_in in Hx. apply Hnamed. exact Hx.
      * destruct (existsb (group_key_eqb None) keys); simpl in H;
          [destruct H as [H|[]]; discriminate|contradiction].
    + intros H. apply in_or_app. left. apply in_map_iff.
      exists eid. split; [reflexivity|].
      apply sorted_in. apply Hnamed. exact H.
  - split.
    + intros H. apply in_app_or in H. destruct H as [H|H].
      * apply in_map_iff in H. destruct H as [x [E _]]. discriminate.
      * apply Hnone. destruct (existsb (group_key_eqb None) keys);
          [reflexivity|contradiction].
    + intros H. apply in_or_app. right. apply Hnone in H. rewrite H.
      simpl. auto.
Qed.

(** An issue is shown at the top level of the group of its epic exactly
    when it is a story, or has no parent ([parent_id] absent, null, empty or
    otherwise false). *)
Lemma top_level_in (rt : runtime) (issues : list value) (i : dict) :
  In (TopLevel i) (details_entries rt issues)
  <-> In i (sorted_issues rt issues)
      /\ (is_story i = true \/ truthy (get "parent_id" i) = false).
Proof.
  unfold details_entries. cbv zeta. rewrite in_flat_map.
  set (l := sorted_issues rt issues). split.
  - intros [k [Hk H]]. unfold group_entries in H. cbv zeta in H.
    rewrite group_index_spec in H. simpl in H.
    destruct H as [H|H]; [discriminate|]. apply in_app_or in H.
    destruct H as [H|H].
    + apply in_flat_map in H. destruct H as [st [Hst H]].
      unfold story_entries in H. simpl in H. destruct H as [H|H].
      * injection H as ->. apply sorted_in in Hst.
        unfold user_stories_of in Hst. apply filter_In in Hst.
        destruct Hst as [Hst Hty]. apply filter_In in Hst. tauto.
      * apply in_map_iff in H. destruct H as [c [E _]]. discriminate.
    + apply in_map_iff in H. destruct H as [x [E Hx]]. injection E as ->.
      unfold others_top_level_of in Hx. apply filter_In in Hx.
      destruct Hx as [Hx Hc]. apply filter_In in Hx.
      apply andb_prop in Hc. destruct Hc as [_ Hc].
      apply negb_true_iff in Hc. tauto.
  - intros [Hi Hc]. exists (epic_key i). split.
    + apply sorted_group_keys_in. apply group_index_keys. exists i. auto.
    + unfold group_entries. cbv zeta. rewrite group_index_spec. right.
      assert (Hg : In i (filter (fun x => group_key_eqb (epic_key i) (epic_key x))
                           l)).
      { apply filter_In. split; [exact Hi|]. apply group_key_eqb_eq.
        reflexivity. }
      apply in_or_app. destruct (is_story i) eqn:Hs.
      * left. apply in_flat_map. exists i. split; [|left; reflexivity].
        apply sorted_in. apply filter_In. split; [exact Hg|exact Hs].
      * right. apply in_map. apply filter_In. split; [exact Hg|].
        fold (is_story i). rewrite Hs. destruct Hc as [Hc|Hc];
          [discriminate|]. rewrite Hc. reflexivity.
Qed.

(** An issue is shown below a story exactly when its [parent_id] is a
    non-empty string and the id of that story. *)
Lemma child_in (rt : runtime) (issues : list value) (st c : dict) :
  In (Child st c) (details_entries rt issues)
  <-> In st (sorted_issues rt issues) /\ is_story st = true
      /\ In c (sorted_issues rt issues)
      /\ exists story_id,
           get "id" st = VStr story_id /\ parent_key c = Some story_id.
Proof.
  unfold details_entries. cbv zeta. rewrite in_flat_map.
  set (l := sorted_issues rt issues).
  assert (Hch : forall story_id,
             get "id" st = VStr story_id ->
             (In c (sorted_children rt (children_index l) st)
              <-> In c l /\ parent_key c = Some story_id)).
  { intros story_id E. unfold sorted_children. rewrite E, sorted_in.
    rewrite children_index_spec, filter_In. unfold option_eqb.
    destruct (parent_key c) as [p|].
    - rewrite str_eqb_eq. split; intros [H1 H2]; split; congruence.
    - split; intros [H1 H2]; discriminate. }
  split.
  - intros [k [Hk H]]. unfold group_entries in H. cbv zeta in H.
    rewrite group_index_spec in H. simpl in H.
    destruct H as [H|H]; [discriminate|]. apply in_app_or in H.
    destruct H as [H|H].
    + apply in_flat_map in H. destruct H as [x [Hx H]].
      unfold story_entries in H. simpl in H.
      destruct H as [H|H]; [discriminate|].
      apply in_map_iff in H. destruct H as [y [E Hy]].
      injection E as -> ->. apply sorted_in in Hx.
      apply filter_In in Hx. destruct Hx as [Hx Hty].
      apply filter_In in Hx. destruct Hx as [Hx _].
      unfold sorted_children in Hy.
      destruct (get "id" st) as [| | | |story_id| |] eqn:E;
        try contradiction.
      fold (sorted_children rt (children_index l) st) in Hch.
      assert (Hy' : In c (sorted_children rt (children_index l) st)).
      { unfold sorted_children. rewrite E. exact Hy. }
      apply (Hch story_id eq_refl) in Hy'. destruct Hy'. eauto 6.
    + apply in_map_iff in H. destruct H as [x [E _]]. discriminate.
  - intros [Hst [Hty [Hc [story_id [E Hp]]]]]. exists (epic_key st). split.
    + apply sorted_group_keys_in. apply group_index_keys. exists st. auto.
    + unfold group_entries. cbv zeta. rewrite group_index_spec. right.
      apply in_or_app. left. apply in_flat_map. exists st. split.
      * apply sorted_in. apply filter_In. split; [|exact Hty].
        apply filter_In. split; [exact Hst|]. apply group_key_eqb_eq.
        reflexivity.
      * right. apply in_map. apply (Hch story_id E). auto.
Qed.

Lemma sorted_issues_in (rt : runtime) (issues : list value) (i : dict) :
  In i (sorted_issues rt issues) <-> In (VDict i) issues.
Proof.
  unfold sorted_issues. rewrite sorted_in. unfold dicts_of.
  rewrite in_flat_map. split.
  - intros [x [Hx H]]. destruct x; simpl in H; try contradiction.
    destruct H as [<-|[]]. exact Hx.
  - intros H. exists (VDict i). simpl. auto.
Qed.

(** Every issue of the section is an issue of the sorted list. *)
Lemma details_entries_issue (rt : runtime) (issues : list value) (e : entry)
    (i : dict) :
  In e (details_entries rt issues) -> entry_issue e = Some i ->
  In i (sorted_issues rt issues).
Proof.
  intros He Hi. destruct e as [k|x|st x]; simpl in Hi; [discriminate| |];
    injection Hi as ->.
  - apply top_level_in in He. tauto.
  - apply child_in in He. tauto.
Qed.

(** *** The sorts of the Issue Details section *)

Lemma sort_group_keys_cases (rt : runtime)
    (epic_groups : list (group_key * list dict)) :
  sort_group_keys rt epic_groups
  = match first_error rt (map VStr (named_group_keys epic_groups)) with
    | Some e => Raise e
    | None => Ok (sorted_group_keys rt epic_groups)
    end.
Proof.
  unfold sort_group_keys, sorted_group_keys, named_group_keys. cbv zeta.
  rewrite (py_sorted_cases rt VStr E_PREFIX_ORDER).
  match goal with
  | |- context [first_error rt ?l] => destruct (first_error rt l)
  end; reflexivity.
Qed.

Lemma sorted_issues_ids (rt : runtime) (issues : list value) :
  issues_error rt issues = None ->
  first_error rt (map (get "id") (sorted_issues rt issues)) = None.
Proof.
  unfold issues_error, sorted_issues. apply first_error_perm.
  apply Permutation_map. apply sorted_perm.
Qed.

(** Once the issues are sorted, the sorts of the stories and of the
    children of a story compute keys that have been computed before. *)
Lemma children_ids (rt : runtime) (issues : list value) (story_id : str) :
  issues_error rt issues = None ->
  first_error rt
    (map (get "id")
       (get_list str_eqb story_id (children_index (sorted_issues rt issues))))
  = None.
Proof.
  intros H. rewrite children_index_spec. apply first_error_filter.
  apply sorted_issues_ids. exact H.
Qed.

Lemma group_ids (rt : runtime) (issues : list value) (epic_id : group_key) :
  issues_error rt issues = None ->
  first_error rt
    (map (get "id")
       (get_list group_key_eqb epic_id (group_index (sorted_issues rt issues))))
  = None.
Proof.
  intros H. rewrite group_index_spec. apply first_error_filter.
  apply sorted_issues_ids. exact H.
Qed.

Lemma runs_details_section (rt : runtime) (bundle : dict)
    (include_json : bool) (epic_by_id : list (str * dict)) :
  let issues := list_or_empty (get "issues" bundle) in
  issues_error rt issues = None ->
  groups_error rt issues = None ->
  forallb hashable_type (sorted_issues rt issues) = true ->
  runs
    (append [] ;;
     append (lit "## Issue Details") ;;
     epic_ids_sorted <-
       lift (sort_group_keys rt (group_index (sorted_issues rt issues))) ;;
     for_each epic_ids_sorted
       (render_group rt epic_by_id (children_index (sorted_issues rt issues))
          (group_index (sorted_issues rt issues))) ;;
     if include_json then
       append [] ;;
       append (lit "## Issue Bundle (JSON)") ;;
       append [] ;;
       append (lit "```json") ;;
       append (json_dumps rt (VDict bundle)) ;;
       append (lit "```")
     else ret tt)
    tt
    ([[]; lit "## Issue Details"]
     ++ flat_map (entry_lines rt epic_by_id) (details_entries rt issues)
     ++ json_block rt bundle include_json).
Proof.
  intros issues Hi Hg Hh. rewrite forallb_forall in Hh.
  rewrite sort_group_keys_cases. unfold groups_error in Hg. rewrite Hg.
  eapply runs_eq.
  - eapply runs_bind; [apply runs_append|].
    eapply runs_bind; [apply runs_append|].
    apply runs_lift_ok.
    eapply runs_bind.
    + apply (runs_for_each
               (fun k =>
                  flat_map (entry_lines rt epic_by_id)
                    (group_entries rt (children_index (sorted_issues rt issues))
                       (group_index (sorted_issues rt issues)) k))).
      intros k Hk. apply runs_render_group.
      * apply group_ids. exact Hi.
      * intros story_id. apply children_ids. exact Hi.
      * intros e i He Hie.
        apply Hh. apply (details_entries_issue rt issues e i); [|exact Hie].
        unfold details_entries. cbv zeta. apply in_flat_map. exists k. auto.
    + instantiate (1 := json_block rt bundle include_json).
      destruct include_json; simpl; [|apply runs_ret].
      eapply runs_eq; [run|reflexivity].
  - unfold details_entries. cbv zeta. rewrite flat_map_flat_map.
    reflexivity.
Qed.

Lemma details_section_raises (rt : runtime) (bundle : dict)
    (include_json : bool) (epic_by_id : list (str * dict)) (e : exn)
    (lines : list str) :
  let issues := list_or_empty (get "issues" bundle) in
  groups_error rt issues = Some e ->
  (append [] ;;
   append (lit "## Issue Details") ;;
   epic_ids_sorted <-
     lift (sort_group_keys rt (group_index (sorted_issues rt issues))) ;;
   for_each epic_ids_sorted
     (render_group rt epic_by_id (children_index (sorted_issues rt issues))
        (group_index (sorted_issues rt issues))) ;;
   if include_json then
     append [] ;;
     append (lit "## Issue Bundle (JSON)") ;;
     append [] ;;
     append (lit "```json") ;;
     append (json_dumps rt (VDict bundle)) ;;
     append (lit "```")
   else ret tt) lines
  = Raise e.
Proof.
  intros issues Hg. rewrite sort_group_keys_cases.
  unfold groups_error in Hg. rewrite Hg. reflexivity.
Qed.

(** The body of the renderer. It raises the exception of the first sort
    that fails among those of the open questions, the epics and the issues;
    else the exception of the first row of the summary table that cannot be
    built; else the exception of the sort of the epic ids of the groups; and
    otherwise it appends the report: the title and the sections before the
    summary table, the table with one row per issue of the sorted list, the
    Issue Details section and, on request, the JSON block. *)
Lemma render_body_lines (rt : runtime) (b : dict) (include_json : bool)
    (lines : list str) :
  render_body rt b include_json lines
  = match head_error rt b with
    | Some e => Raise e
    | None =>
        match summary_rows rt
                (sorted_issues rt (list_or_empty (get "issues" b))) with
        | Raise e => Raise e
        | Ok rows =>
            match groups_error rt (list_or_empty (get "issues" b)) with
            | Some e => Raise e
            | None =>
                Ok (tt,
                    lines
                    ++ report_lines rt b include_json (head_lines rt b) rows)
            end
        end
    end.
Proof.
  unfold render_body, head_error. cbv zeta.
  rewrite (bind_runs _ _ _ _ _ (runs_append _)).
  rewrite (bind_runs _ _ _ _ _ (runs_append _)).
  destruct (meta_error rt
              (match get "meta" b with VDict m => m | _ => [] end))
    as [e|] eqn:Em.
  { unfold bind at 1. rewrite (render_meta_raises _ _ _ Em). reflexivity. }
  destruct (runs_render_meta rt _ Em) as [o1 H1].
  rewrite (bind_runs _ _ _ _ _ H1).
  destruct (epics_error rt (list_or_empty (get "epics" b))) as [e|] eqn:Ee.
  { unfold bind at 1. rewrite (render_epics_raises _ _ _ Ee). reflexivity. }
  destruct (runs_render_epics rt _ Ee) as [o2 H2].
  rewrite (bind_runs _ _ _ _ _ H2).
  rewrite (py_sorted_cases rt (get "id") ISSUE_PREFIX_ORDER).
  fold (issues_error rt (list_or_empty (get "issues" b))).
  fold (sorted_issues rt (list_or_empty (get "issues" b))).
  destruct (issues_error rt (list_or_empty (get "issues" b))) as [e|] eqn:Ei;
    [reflexivity|].
  rewrite lift_ok_bind.
  unfold bind at 1. rewrite render_summary_table_eq.
  destruct (summary_rows rt
              (sorted_issues rt (list_or_empty (get "issues" b))))
    as [rows|e] eqn:E; [|reflexivity].
  pose proof (summary_rows_hashable _ _ _ E) as Hh.
  destruct (groups_error rt (list_or_empty (get "issues" b))) as [e|] eqn:Eg.
  { apply (details_section_raises rt b include_json _ e _ Eg). }
  rewrite (runs_details_section rt b include_json _ Ei Eg Hh).
  unfold head_lines. rewrite (runs_output _ _ _ H1), (runs_output _ _ _ H2).
  unfold report_lines, title_line. f_equal. f_equal.
  rewrite <- !app_assoc. simpl. rewrite <- !app_assoc. reflexivity.
Qed.

Lemma render_lines_dict (rt : runtime) (b : dict) (include_json : bool) :
  well_shaped (VDict b) = true ->
  render_lines rt (VDict b) include_json
  = match head_error rt b with
    | Some e => Raise e
    | None =>
        match summary_rows rt
                (sorted_issues rt (list_or_empty (get "issues" b))) with
        | Raise e => Raise e
        | Ok rows =>
            match groups_error rt (list_or_empty (get "issues" b)) with
            | Some e => Raise e
            | None =>
                Ok (report_lines rt b include_json (head_lines rt b) rows)
            end
        end
    end.
Proof.
  intros W. destruct (require_object_ok _ W) as [b' [Eb Hr]].
  injection Eb as <-. unfold render_lines. rewrite Hr, render_body_lines.
  destruct (head_error rt b); [reflexivity|].
  destruct (summary_rows rt
              (sorted_issues rt (list_or_empty (get "issues" b))));
    [|reflexivity].
  destruct (groups_error rt (list_or_empty (get "issues" b))); reflexivity.
Qed.

(** The lines of the report of any document. *)
Lemma render_lines_layout (rt : runtime) (bundle : value)
    (include_json : bool) (lines : list str) :
  render_lines rt bundle include_json = Ok lines ->
  exists b head rows,
    bundle = VDict b /\ well_shaped bundle = true
    /\ summary_rows rt (sorted_issues rt (list_or_empty (get "issues" b)))
       = Ok rows
    /\ lines = report_lines rt b include_json head rows.
Proof.
  intros H.
  destruct (well_shaped bundle) eqn:W.
  - destruct (require_object_ok bundle W) as [b [-> Hr]].
    rewrite (render_lines_dict rt b include_json W) in H.
    destruct (head_error rt b); [discriminate|].
    destruct (summary_rows rt
                (sorted_issues rt (list_or_empty (get "issues" b))))
      as [rows|e] eqn:E; [|discriminate].
    destruct (groups_error rt (list_or_empty (get "issues" b)));
      [discriminate|].
    injection H as <-. exists b, (head_lines rt b), rows. auto.
  - destruct (require_object_raises bundle W) as [msg [_ Hr]].
    unfold render_lines in H. rewrite Hr in H. discriminate.
Qed.

(** The sorts of a report that is returned have all returned. *)
Lemma render_lines_sorts (rt : runtime) (b : dict) (include_json : bool)
    (lines : list str) :
  render_lines rt (VDict b) include_json = Ok lines ->
  head_error rt b = None
  /\ groups_error rt (list_or_empty (get "issues" b)) = None
  /\ exists rows,
       summary_rows rt (sorted_issues rt (list_or_empty (get "issues" b)))
       = Ok rows
       /\ lines = report_lines rt b include_json (head_lines rt b) rows.
Proof.
  intros H.
  destruct (render_lines_layout _ _ _ _ H) as [b' [_ [_ [_ [W _]]]]].
  rewrite (render_lines_dict rt b include_json W) in H.
  destruct (head_error rt b); [discriminate|].
  destruct (summary_rows rt
              (sorted_issues rt (list_or_empty (get "issues" b))))
    as [rows|e] eqn:E; [|discriminate].
  destruct (groups_error rt (list_or_empty (get "issues" b)));
    [discriminate|].
  injection H as <-. split; [reflexivity|]. split; [reflexivity|].
  exists rows. auto.
Qed.

(** Rendering succeeds on the well-shaped bundles whose sorts return and
    whose issues all have a type that can be hashed. *)
Lemma render_lines_succeeds (rt : runtime) (b : dict) (include_json : bool) :
  well_shaped (VDict b) = true ->
  head_error rt b = None ->
  groups_error rt (list_or_empty (get "issues" b)) = None ->
  forallb hashable_type
    (sorted_issues rt (list_or_empty (get "issues" b))) = true ->
  exists lines, render_lines rt (VDict b) include_json = Ok lines.
Proof.
  intros W He Hg Hh. rewrite (render_lines_dict rt b include_json W), He.
  destruct (summary_rows_ok rt _ Hh) as [rows [E _]].
  rewrite E, Hg. eexists. reflexivity.
Qed.

(** ** Backlog Summary table (C2) *)






Lemma summary_rows_rows (rt : runtime) (issues : list dict) (rows : list str) :
  summary_rows rt issues = Ok rows -> Forall2 (is_row_of rt) issues rows.
Proof.
  revert rows. induction issues as [|i issues IH]; simpl; intros rows H.
  - injection H as <-. constructor.
  - unfold summary_cells in H.
    destruct (type_display (get "type" i)) as [shown|e] eqn:E; [|discriminate].
    destruct (summary_rows rt issues) as [rows'|e]; [|discriminate].
    injection H as <-. constructor; [|apply IH; reflexivity].
    exists shown. split; [exact E|reflexivity].
Qed.






(** ** Success and the shape of the text (C8) *)

Lemma rstrip_snoc (a : str) (c : char) :
  is_space c = false -> rstrip (a ++ [c]) = a ++ [c].
Proof.
  intros H. unfold rstrip. rewrite rev_app_distr. simpl. rewrite H. simpl.
  rewrite rev_involutive. reflexivity.
Qed.

(** The text the renderer returns is not empty, ends with one newline, and
    has no whitespace before that newline. *)
Lemma finish_shape (lines : list str) :
  exists body,
    finish lines = body ++ [NEWLINE]
    /\ match rev body with
       | [] => True
       | c :: _ => is_space c = false
       end.
Proof.
  unfold finish. exists (rstrip (join [NEWLINE] lines)). split; [reflexivity|].
  unfold rstrip. rewrite rev_involutive. apply lstrip_head.
Qed.

(** Rendering a well-shaped bundle returns a text exactly when its sorts
    return, that is, no id holds more digits than [int] converts, and its
    issues all have a type that can be hashed. *)
Lemma render_succeeds_iff (rt : runtime) (b : dict) (include_json : bool) :
  well_shaped (VDict b) = true ->
  (exists text,
      render_issue_bundle_markdown rt (VDict b) include_json = Ok text)
  <-> head_error rt b = None
      /\ groups_error rt (list_or_empty (get "issues" b)) = None
      /\ forallb hashable_type
           (sorted_issues rt (list_or_empty (get "issues" b))) = true.
Proof.
  intros W. unfold render_issue_bundle_markdown. split.
  - intros [text H].
    destruct (render_lines rt (VDict b) include_json) as [lines|e] eqn:E;
      [|discriminate].
    destruct (render_lines_sorts _ _ _ _ E) as [He [Hg [rows [R _]]]].
    split; [exact He|]. split; [exact Hg|].
    apply (summary_rows_hashable _ _ _ R).
  - intros [He [Hg Hh]].
    destruct (render_lines_succeeds rt b include_json W He Hg Hh)
      as [lines ->]. eexists. reflexivity.
Qed.

(** An issue whose type is a list or a mapping makes the renderer raise
    [TypeError], whatever else the bundle holds, once the sorts that
    precede the summary table have returned. *)
Lemma render_raises_type_error (rt : runtime) (b : dict)
    (include_json : bool) :
  well_shaped (VDict b) = true ->
  head_error rt b = None ->
  forallb hashable_type
    (sorted_issues rt (list_or_empty (get "issues" b))) = false ->
  exists msg,
    render_issue_bundle_markdown rt (VDict b) include_json
    = Raise (TypeError msg).
Proof.
  intros W He Hh. unfold render_issue_bundle_markdown.
  rewrite (render_lines_dict rt b include_json W), He.
  destruct (summary_rows_raise rt _ Hh) as [msg ->].
  exists msg. reflexivity.
Qed.

(** C8 fails on the code: a bundle that passes the shape check and has an
    issue whose [type] is a list is not rendered; the lookup of the type in
    [TYPE_DISPLAY] raises [TypeError], with and without the JSON block, and
    no text is returned. *)
Theorem C8_unhashable_type_raises (rt : runtime) (include_json : bool) :
  well_shaped unhashable_bundle = true
  /\ _require_object unhashable_bundle
     = Ok [field "meta" (VDict []); field "epics" (VList []);
           field "issues"
             (VList [VDict [field "id" (jstr "US-1"); field "type" (VList [])]])]
  /\ exists msg,
       render_issue_bundle_markdown rt unhashable_bundle include_json
       = Raise (TypeError msg).
Proof.
  split; [reflexivity|]. split; [reflexivity|].
  apply render_raises_type_error; [reflexivity| |reflexivity].
  unfold head_error, issues_error.
  change (first_error rt [VStr (lit "US-1")] = None).
  cbn [first_error]. rewrite id_key_error_short; [reflexivity|].
  simpl. lia.
Qed.

(** ** Issues with a parent that is no story (C10) *)


Lemma parent_key_truthy (issue : dict) (parent_id : str) :
  parent_key issue = Some parent_id -> truthy (get "parent_id" issue) = true.
Proof.
  unfold parent_key. destruct (get "parent_id" issue) as [| | | |[|c p]| |];
    try discriminate. reflexivity.
Qed.

(** No entry of the section renders an issue that is not a story and whose
    parent is the id of no story. *)
Lemma orphan_not_rendered (rt : runtime) (issues : list value) (issue : dict)
    (parent_id : str) :
  is_story issue = false ->
  parent_key issue = Some parent_id ->
  (forall story,
      In (VDict story) issues -> is_story story = true ->
      get "id" story <> VStr parent_id) ->
  forall e, In e (details_entries rt issues) -> entry_issue e <> Some issue.
Proof.
  intros Hs Hp Hno e He Hi.
  destruct e as [k|x|st x]; simpl in Hi; [discriminate| |];
    injection Hi as ->.
  - apply top_level_in in He. destruct He as [_ [H|H]].
    + congruence.
    + rewrite (parent_key_truthy _ _ Hp) in H. discriminate.
  - apply child_in in He.
    destruct He as [Hst [Hty [_ [story_id [Hid Hk]]]]].
    apply sorted_issues_in in Hst. apply (Hno st Hst Hty).
    congruence.
Qed.



(** ** A story below a story (C9) *)

(** C9. There is a well-shaped bundle with a user story whose [parent_id]
    is the id of another user story, in whose report the detail block of the
    child story is emitted twice: below its parent story in the group of the
    parent's epic, and at the top level of the group of its own epic. The
    block is the eighteen lines that start with the heading
    ["#### US-2: Reset"]; the report holds them right after the block of the
    parent and again after the heading of the second group, with which it
    ends, and it holds that heading line twice. *)
Theorem C9_child_story_rendered_twice :
  exists bundle parent child b,
    bundle = VDict b
    /\ well_shaped bundle = true
    /\ In (VDict parent) (list_or_empty (get "issues" b))
    /\ In (VDict child) (list_or_empty (get "issues" b))
    /\ is_story parent = true /\ is_story child = true
    /\ get "parent_id" child = get "id" parent
    /\ get "id" child = VStr (lit "US-2")
    /\ details_entries example_runtime (list_or_empty (get "issues" b))
       = [GroupHeading (Some (lit "E-1")); TopLevel parent; Child parent child;
          GroupHeading (Some (lit "E-2")); TopLevel child]
    /\ details_lines example_runtime child = nested_child_block
    /\ exists lines before,
         render_lines example_runtime bundle false = Ok lines
         /\ lines
            = before
              ++ [[]; lit "### E-1: " ++ DASH]
              ++ details_lines example_runtime parent
              ++ nested_child_block
              ++ [[]; lit "### E-2: " ++ DASH]
              ++ nested_child_block
         /\ List.length
              (filter (str_eqb (lit "#### US-2: Reset")) lines) = 2%nat.
Proof.
  exists nested_bundle, nested_parent, nested_child.
  eexists. split; [reflexivity|].
  split; [reflexivity|].
  split; [left; reflexivity|].
  split; [right; left; reflexivity|].
  split; [reflexivity|]. split; [reflexivity|]. split; [reflexivity|].
  split; [reflexivity|].
  split; [vm_compute; reflexivity|].
  split; [vm_compute; reflexivity|].
  exists (match render_lines example_runtime nested_bundle false with
          | Ok lines => lines
          | Raise _ => []
          end).
  exists (firstn 23
            (match render_lines example_runtime nested_bundle false with
             | Ok lines => lines
             | Raise _ => []
             end)).
  split; [vm_compute; reflexivity|].
  split; vm_compute; reflexivity.
Qed.

(** ** Children below their parent story (C5) *)

Lemma sorted_children_in (rt : runtime) (l : list dict) (st c : dict)
    (story_id : str) :
  get "id" st = VStr story_id ->
  (In c (sorted_children rt (children_index l) st)
   <-> In c l /\ parent_key c = Some story_id).
Proof.
  intros E. unfold sorted_children. rewrite E, sorted_in.
  rewrite children_index_spec, filter_In. unfold option_eqb.
  destruct (parent_key c) as [p|].
  - rewrite str_eqb_eq. split; intros [H1 H2]; split; congruence.
  - split; intros [H1 H2]; discriminate.
Qed.

(** The entry of a story is followed by the entries of its children, and
    then by a top-level entry, a group heading or nothing. *)
Lemma story_segment (rt : runtime) (issues : list value) (st : dict) :
  In st (sorted_issues rt issues) -> is_story st = true ->
  exists before after_,
    details_entries rt issues
    = before
      ++ TopLevel st
         :: map (Child st)
              (sorted_children rt (children_index (sorted_issues rt issues)) st)
      ++ after_
    /\ starts_with_child after_ = false.
Proof.
  intros Hst Hty. unfold details_entries. cbv zeta.
  set (l := sorted_issues rt issues) in *.
  set (G := group_entries rt (children_index l) (group_index l)).
  assert (Hk : In (epic_key st) (sorted_group_keys rt (group_index l))).
  { apply sorted_group_keys_in. apply group_index_keys. exists st. auto. }
  apply in_split in Hk. destruct Hk as [k1 [k2 Hk]]. rewrite Hk.
  rewrite flat_map_app. cbn [flat_map]. unfold G at 2.
  unfold group_entries. cbv zeta.
  set (grp := get_list group_key_eqb (epic_key st) (group_index l)).
  assert (Hs : In st (sorted_stories rt grp)).
  { apply sorted_in. apply filter_In. split; [|exact Hty].
    unfold grp. rewrite group_index_spec. apply filter_In.
    split; [exact Hst|]. apply group_key_eqb_eq. reflexivity. }
  apply in_split in Hs. destruct Hs as [s1 [s2 Hs]]. rewrite Hs.
  rewrite flat_map_app. cbn [flat_map]. unfold story_entries at 2.
  exists (flat_map G k1
          ++ GroupHeading (epic_key st)
             :: flat_map (story_entries rt (children_index l)) s1).
  exists (flat_map (story_entries rt (children_index l)) s2
          ++ map TopLevel (others_top_level_of grp) ++ flat_map G k2).
  split.
  - repeat first [rewrite <- app_assoc | rewrite <- app_comm_cons].
    reflexivity.
  - destruct s2 as [|x s2]; [|reflexivity]. cbn [flat_map app].
    destruct (others_top_level_of grp) as [|y ys]; [|reflexivity].
    cbn [map app]. destruct k2 as [|k k2]; reflexivity.
Qed.

Lemma scenario_details_holds : scenario_details.
Proof.
  assert (He : details_entries example_runtime
                 [VDict scenario_task; VDict scenario_story]
               = [GroupHeading (Some (lit "E-1")); TopLevel scenario_story;
                  Child scenario_story scenario_task]).
  { vm_compute. reflexivity. }
  assert (Hs : exists lines,
             render_lines example_runtime scenario_bundle false = Ok lines).
  { apply render_lines_succeeds; vm_compute; reflexivity. }
  destruct Hs as [lines E]. exists lines.
  destruct (render_lines_layout _ _ _ _ E)
    as [b [head [rows [Eb [_ [_ El]]]]]].
  injection Eb as <-. unfold report_lines in El.
  change (list_or_empty (get "issues" _))
    with [VDict scenario_task; VDict scenario_story] in El.
  rewrite He in El. cbn [flat_map entry_lines json_block] in El.
  match type of El with
  | context [group_heading_lines example_runtime ?idx ?k] =>
      replace (group_heading_lines example_runtime idx k)
        with [[]; lit "### E-1: Accounts"] in El
        by (vm_compute; reflexivity)
  end.
  assert (Hh : hd [] (details_lines example_runtime scenario_task)
               = lit "#### TASK-1: Form").
  { vm_compute. reflexivity. }
  revert El Hh.
  generalize (details_lines example_runtime scenario_task).
  generalize (details_lines example_runtime scenario_story).
  match goal with
  | |- context [title_line ?b] => generalize (title_line b)
  end.
  intros title ds dt El Hh.
  exists ((title :: head) ++ table_head ++ rows).
  split; [exact E|]. split; [|exact Hh].
  rewrite El, !app_nil_r, <- !app_assoc. reflexivity.
Qed.

(** C5, as the code has it. In every report the renderer returns, an issue
    that is not a user story and has a parent is never shown at the top
    level of its epic group. When its [parent_id] is the id of a user story
    of the bundle, it is shown among the children that directly follow the
    block of that story, before the next top-level entry; otherwise it is
    not shown at all. A child's block has the format of every other block,
    flush left under the heading of the issue: nothing is indented. In the
    scenario, the block of [US-1] is directly followed by the block of
    [TASK-1], under the heading of [E-1]. *)
Theorem C5_children_below_parent (rt : runtime) (bundle : value)
    (include_json : bool) (lines : list str) :
  render_lines rt bundle include_json = Ok lines ->
  (exists b,
      bundle = VDict b /\ children_below_parent rt b include_json lines)
  /\ scenario_details.
Proof.
  intros H. split; [|exact scenario_details_holds].
  destruct (render_lines_layout _ _ _ _ H)
    as [b [head [rows [-> [W [E ->]]]]]].
  exists b. split; [reflexivity|]. exists head, rows.
  split; [reflexivity|]. split; [|split; [|split]].
  - intros issue Hs Hp Hin. apply top_level_in in Hin.
    destruct Hin as [_ [Hc|Hc]]; congruence.
  - intros story issue story_id Hst Hi Hty Hid Hp.
    apply (sorted_issues_in rt) in Hst. apply (sorted_issues_in rt) in Hi.
    destruct (story_segment rt _ story Hst Hty) as [before [after_ [Es Ha]]].
    exists before. eexists. exists after_. split; [exact Es|]. split;
      [|exact Ha].
    apply (sorted_children_in rt _ story issue story_id Hid). auto.
  - intros issue parent_id Hs Hp Hno.
    apply (orphan_not_rendered rt _ issue parent_id Hs Hp Hno).
  - intros e issue He Hi.
    pose proof (details_entries_issue rt _ e issue He Hi) as Hin.
    pose proof (summary_rows_hashable _ _ _ E) as Hh.
    rewrite forallb_forall in Hh. specialize (Hh issue Hin).
    destruct (runs_render_issue_details rt issue Hh) as [_ Hm].
    destruct e as [k|x|st x]; simpl in Hi; [discriminate| |];
      injection Hi as ->; exact Hm.
Qed.

(** The report of the scenario bundle, for C5. *)
Lemma C5_witness :
  (exists b,
      scenario_bundle = VDict b
      /\ children_below_parent example_runtime b true
           (match render_lines example_runtime scenario_bundle true with
            | Ok lines => lines
            | Raise _ => []
            end))
  /\ scenario_details.
Proof.
  apply (C5_children_below_parent example_runtime scenario_bundle true).
  vm_compute. reflexivity.
Defined.

(** C5 as stated fails. The task of the first bundle is not a story and has
    the non-empty parent id [US-9], which is no issue of the bundle: it is
    not shown as a child of any story, and the Issue Details section has no
    entry for it at all. And the block of the child [TASK-1] of the scenario
    is not indented: its heading starts with the number sign. *)
Lemma C5_counterexample :
  is_story orphan_task = false
  /\ parent_key orphan_task = Some (lit "US-9")
  /\ well_shaped orphan_bundle = true
  /\ details_entries example_runtime [VDict orphan_task; VDict scenario_story]
     = [GroupHeading (Some (lit "E-1")); TopLevel scenario_story]
  /\ ~ shown_as_child example_runtime
         [VDict orphan_task; VDict scenario_story] orphan_task
  /\ In (Child scenario_story scenario_task)
       (details_entries example_runtime
          [VDict scenario_task; VDict scenario_story])
  /\ ~ indented (details_lines example_runtime scenario_task).
Proof.
  assert (He : details_entries example_runtime
                 [VDict orphan_task; VDict scenario_story]
               = [GroupHeading (Some (lit "E-1")); TopLevel scenario_story]).
  { vm_compute. reflexivity. }
  split; [reflexivity|]. split; [reflexivity|]. split; [reflexivity|].
  split; [exact He|]. split; [|split].
  - intros [story H]. rewrite He in H. simpl in H.
    destruct H as [H|[H|[]]]; discriminate.
  - assert (Hs : details_entries example_runtime
                   [VDict scenario_task; VDict scenario_story]
                 = [GroupHeading (Some (lit "E-1")); TopLevel scenario_story;
                    Child scenario_story scenario_task]).
    { vm_compute. reflexivity. }
    rewrite Hs. simpl. auto.
  - intros H.
    assert (Hh : exists rest,
               details_lines example_runtime scenario_task
               = lit "#### TASK-1: Form" :: rest).
    { eexists. vm_compute. reflexivity. }
    destruct Hh as [rest Hh]. rewrite Hh in H.
    specialize (H (lit "#### TASK-1: Form") (or_introl eq_refl)).
    vm_compute in H. discriminate.
Qed.

(** ** The embedded JSON block (C7) *)

Example example_loads_scenario :
  example_loads (json_dumps example_runtime scenario_bundle)
  = Some scenario_bundle.
Proof. vm_compute. reflexivity. Qed.

Example example_loads_escapes :
  let doc :=
    VDict [field "a" (VList [VInt (-12); VBool false; VNone; VList []]);
           (lit "k" ++ [QUOTE2; BACKSLASH; NEWLINE; 7],
            VStr (lit "```" ++ [NEWLINE] ++ lit "```json"));
           field "e" (VDict [])] in
  example_loads (json_dumps example_runtime doc) = Some doc.
Proof. vm_compute. reflexivity. Qed.

Lemma join_app (sep : str) (l1 l2 : list str) :
  l1 <> [] -> l2 <> [] ->
  join sep (l1 ++ l2) = join sep l1 ++ sep ++ join sep l2.
Proof.
  intros H1 H2. induction l1 as [|x l1 IH]; [contradiction|].
  destruct l1 as [|y l1].
  - destruct l2; [contradiction|reflexivity].
  - change (join sep ((x :: y :: l1) ++ l2))
      with (x ++ sep ++ join sep ((y :: l1) ++ l2)).
    rewrite IH by discriminate.
    change (join sep (x :: y :: l1)) with (x ++ sep ++ join sep (y :: l1)).
    rewrite <- !app_assoc. reflexivity.
Qed.

Lemma strip_prefix_app (p r : str) : strip_prefix p (p ++ r) = Some r.
Proof.
  induction p as [|x p IH]; simpl; [destruct r; reflexivity|].
  rewrite N.eqb_refl. exact IH.
Qed.

Lemma strip_suffix_app (b suffix : str) :
  strip_suffix suffix (b ++ suffix) = Some b.
Proof.
  unfold strip_suffix. rewrite rev_app_distr, strip_prefix_app. simpl.
  rewrite rev_involutive. reflexivity.
Qed.

Lemma after_last_found (pat before d : str) :
  pat <> [] ->
  after_last pat (tl (pat ++ d)) = None ->
  after_last pat (before ++ pat ++ d) = Some d.
Proof.
  intros Hp Hn. induction before as [|c before IH].
  - destruct pat as [|x pat]; [contradiction|].
    simpl in Hn. cbn [app after_last]. rewrite Hn.
    change (x :: pat ++ d) with ((x :: pat) ++ d). apply strip_prefix_app.
  - cbn [app after_last]. rewrite IH. reflexivity.
Qed.

(** With the JSON block requested, the text ends with the fenced block of
    the serialized bundle. *)
Lemma finish_json_block (rt : runtime) (b : dict) (head rows : list str) :
  exists before,
    finish (report_lines rt b true head rows)
    = before ++ OPEN_FENCE ++ json_dumps rt (VDict b) ++ CLOSE_FENCE.
Proof.
  unfold report_lines, json_block.
  set (D := json_dumps rt (VDict b)).
  match goal with
  | |- context [?t :: head] => generalize (t :: head)
  end.
  match goal with
  | |- context [flat_map ?f ?l] => generalize (flat_map f l)
  end.
  intros details top.
  set (pre := top ++ table_head ++ rows ++ [[]; lit "## Issue Details"]
              ++ details ++ [[]; lit "## Issue Bundle (JSON)"; []]).
  assert (E : top ++ table_head ++ rows ++ [[]; lit "## Issue Details"]
              ++ details
              ++ [[]; lit "## Issue Bundle (JSON)"; []; lit "```json"; D;
                  lit "```"]
              = pre ++ [lit "```json"; D; lit "```"]).
  { unfold pre. rewrite <- !app_assoc. reflexivity. }
  rewrite E. exists (join [NEWLINE] pre). unfold finish.
  rewrite join_app; [|unfold pre, table_head; destruct top; discriminate
                     |discriminate].
  change (join [NEWLINE] [lit "```json"; D; lit "```"])
    with (lit "```json" ++ [NEWLINE] ++ D ++ [NEWLINE] ++ lit "```").
  change (lit "```") with (lit "``" ++ [96]).
  rewrite !app_assoc. rewrite rstrip_snoc by reflexivity.
  unfold OPEN_FENCE, CLOSE_FENCE. change (lit "```") with (lit "``" ++ [96]).
  rewrite <- !app_assoc. reflexivity.
Qed.

(** C7. When the renderer returns a text for a bundle with the JSON block
    requested, the text ends with a fenced block that holds the serialized
    bundle: the opening fence, what [json.dumps] returns for the bundle and
    the closing fence. Provided no opening fence starts inside the
    serialized text, that text is the content of the block the report ends
    with, and a reader that inverts [json.dumps] on the bundle returns the
    bundle from it. *)
Theorem C7_embedded_json_round_trip (rt : runtime)
    (loads : str -> option value) (bundle : value) (text : str) :
  render_issue_bundle_markdown rt bundle true = Ok text ->
  fence_free (json_dumps rt bundle) = true ->
  loads (json_dumps rt bundle) = Some bundle ->
  (exists before,
      text = before ++ OPEN_FENCE ++ json_dumps rt bundle ++ CLOSE_FENCE)
  /\ embedded_block text = Some (json_dumps rt bundle)
  /\ match embedded_block text with
     | Some block => loads block
     | None => None
     end = Some bundle.
Proof.
  intros H Hf Hl. unfold render_issue_bundle_markdown in H.
  destruct (render_lines rt bundle true) as [lines|e] eqn:E; [|discriminate].
  injection H as <-.
  destruct (render_lines_layout _ _ _ _ E)
    as [b [head [rows [-> [_ [_ ->]]]]]].
  destruct (finish_json_block rt b head rows) as [before Hb].
  assert (Hblock : embedded_block (finish (report_lines rt b true head rows))
                   = Some (json_dumps rt (VDict b))).
  { rewrite Hb. unfold embedded_block.
    replace (before ++ OPEN_FENCE ++ json_dumps rt (VDict b) ++ CLOSE_FENCE)
      with ((before ++ OPEN_FENCE ++ json_dumps rt (VDict b)) ++ CLOSE_FENCE)
      by (rewrite <- !app_assoc; reflexivity).
    rewrite strip_suffix_app. apply after_last_found; [discriminate|].
    unfold fence_free in Hf.
    destruct (after_last OPEN_FENCE (tl (OPEN_FENCE ++ json_dumps rt (VDict b))));
      [discriminate|reflexivity]. }
  split; [exists before; exact Hb|]. split; [exact Hblock|].
  rewrite Hblock. exact Hl.
Qed.

(** The report of the scenario bundle, read back by the reader of the
    examples, for C7. *)
Lemma C7_witness :
  (exists before,
      match render_issue_bundle_markdown example_runtime scenario_bundle true
      with
      | Ok text => text
      | Raise _ => []
      end
      = before ++ OPEN_FENCE ++ json_dumps example_runtime scenario_bundle
        ++ CLOSE_FENCE)
  /\ embedded_block
       (match render_issue_bundle_markdown example_runtime scenario_bundle true
        with
        | Ok text => text
        | Raise _ => []
        end)
     = Some (json_dumps example_runtime scenario_bundle)
  /\ match embedded_block
             (match render_issue_bundle_markdown example_runtime
                      scenario_bundle true
              with
              | Ok text => text
              | Raise _ => []
              end) with
     | Some block => example_loads block
     | None => None
     end = Some scenario_bundle.
Proof.
  apply (C7_embedded_json_round_trip example_runtime example_loads
           scenario_bundle).
  - vm_compute. reflexivity.
  - vm_compute. reflexivity.
  - vm_compute. reflexivity.
Defined.

(** * Further properties of the renderer *)

(** ** Outcomes of a rendering *)



Lemma within_int_limit_error (rt : runtime) (v : value) :
  within_int_limit rt v = true <-> id_key_error rt v = None.
Proof.
  unfold within_int_limit, id_key_error, _id_key, int_of_digits.
  destruct v as [| | | |s| |]; try tauto.
  destruct (fullmatch_id rt s) as [[prefix num_str]|]; [|tauto].
  destruct (exceeds_int_limit rt num_str) eqn:E.
  - apply exceeds_int_limit_iff in E. split; [|discriminate].
    rewrite !orb_true_iff, !Nat.leb_le, Nat.eqb_eq. lia.
  - apply within_int_limit_iff in E. split; [reflexivity|]. intros _.
    rewrite !orb_true_iff, !Nat.leb_le, Nat.eqb_eq. tauto.
Qed.

Lemma first_error_within (rt : runtime) (vs : list value) :
  first_error rt vs = None <-> forallb (within_int_limit rt) vs = true.
Proof.
  rewrite first_error_none, forallb_forall. split; intros H v Hv.
  - apply within_int_limit_error. apply H. exact Hv.
  - apply within_int_limit_error. apply H. exact Hv.
Qed.

Lemma meta_error_questions (rt : runtime) (meta : dict) :
  meta_error rt meta
  = first_error rt
      (map (get "id")
         (dicts_of (list_or_empty (get "open_questions" meta)))).
Proof.
  unfold meta_error.
  destruct (list_or_empty (get "open_questions" meta)); reflexivity.
Qed.




(** ** The JSON section *)


(** ** The text of a report *)

Lemma lstrip_keeps_suffix (x y : str) (c : char) :
  is_space c = false -> exists u, lstrip (x ++ c :: y) = u ++ c :: y.
Proof.
  intros Hc. induction x as [|a x IH]; simpl.
  - rewrite Hc. exists []. reflexivity.
  - destruct (is_space a); [exact IH|]. exists (a :: x). reflexivity.
Qed.

(** Trimming on the right keeps everything up to a code point that is not
    whitespace. *)
Lemma rstrip_keeps_prefix (a b : str) (c : char) :
  is_space c = false -> exists r, rstrip (a ++ c :: b) = a ++ c :: r.
Proof.
  intros Hc. unfold rstrip. rewrite rev_app_distr. simpl.
  rewrite <- app_assoc. simpl.
  destruct (lstrip_keeps_suffix (rev b) (rev a) c Hc) as [u ->].
  exists (rev u). rewrite rev_app_distr. simpl. rewrite rev_involutive.
  rewrite <- app_assoc. reflexivity.
Qed.

Lemma join_cons_start (sep first : str) (rest : list str) :
  exists tail, join sep (first :: rest) = first ++ tail.
Proof.
  destruct rest as [|x rest].
  - exists []. simpl. rewrite app_nil_r. reflexivity.
  - eexists. reflexivity.
Qed.

(** Every text the renderer returns starts with the title
    ["# Issue Bundle —"] and ends with one newline that follows a code
    point that is not whitespace: no trailing blanks or blank lines. *)
Theorem render_text_shape (rt : runtime) (bundle : value)
    (include_json : bool) (text : str) :
  render_issue_bundle_markdown rt bundle include_json = Ok text ->
  exists rest,
    text = TITLE_START ++ rest ++ [NEWLINE]
    /\ is_space (last (TITLE_START ++ rest) NEWLINE) = false.
Proof.
  unfold render_issue_bundle_markdown. intros H.
  destruct (render_lines rt bundle include_json) as [lines|e] eqn:E;
    [|discriminate].
  injection H as <-.
  destruct (render_lines_layout _ _ _ _ E)
    as [b [head [rows [_ [_ [_ ->]]]]]].
  assert (Hj : exists x : str,
             join [NEWLINE] (report_lines rt b include_json head rows)
             = lit "# Issue Bundle " ++ @cons char 8212 x).
  { unfold report_lines.
    match goal with
    | |- context [join [NEWLINE] ((?t :: head) ++ ?l)] =>
        change ((t :: head) ++ l) with (t :: (head ++ l));
        destruct (join_cons_start [NEWLINE] t (head ++ l)) as [tail ->]
    end.
    unfold title_line. eexists. rewrite <- !app_assoc. reflexivity. }
  destruct Hj as [x Hj].
  destruct (rstrip_keeps_prefix (lit "# Issue Bundle ") x 8212 eq_refl)
    as [r Hr].
  pose proof (rstrip_last (lit "# Issue Bundle " ++ @cons char 8212 x) NEWLINE) as L.
  exists r.
  assert (Ht : TITLE_START ++ r = lit "# Issue Bundle " ++ @cons char 8212 r).
  { unfold TITLE_START, DASH. rewrite <- app_assoc. reflexivity. }
  split.
  - unfold finish. rewrite Hj, app_assoc.
    exact (f_equal (fun z => z ++ [NEWLINE]) (eq_trans Hr (eq_sym Ht))).
  - rewrite Ht. rewrite <- Hr. apply L. rewrite Hr.
    destruct (lit "# Issue Bundle "); discriminate.
Qed.

(** The text of the scenario bundle. *)
Lemma render_text_shape_witness :
  exists rest,
    match render_issue_bundle_markdown example_runtime scenario_bundle true
    with
    | Ok text => text
    | Raise _ => []
    end = TITLE_START ++ rest ++ [NEWLINE]
    /\ is_space (last (TITLE_START ++ rest) NEWLINE) = false.
Proof.
  apply (render_text_shape example_runtime scenario_bundle true).
  vm_compute. reflexivity.
Defined.

(** ** The order of the issues in the input *)

Section SortedUnique.
Context {A K : Type} (ltb : K -> K -> bool) (key : A -> K).
Hypothesis ltb_irrefl : forall a, ltb a a = false.
Hypothesis ltb_trans :
  forall a b c, ltb a b = true -> ltb b c = true -> ltb a c = true.
Hypothesis ltb_total :
  forall a b, ltb a b = false -> ltb b a = false -> a = b.

Lemma strictly_sorted_unique (l1 l2 : list A) :
  StronglySorted (strictly_before ltb key) l1 -> StronglySorted (strictly_before ltb key) l2 ->
  Permutation l1 l2 -> l1 = l2.
Proof.
  intros H1. revert l2. induction H1 as [|x l1 Hs IH Hx]; intros l2 H2 P.
  - apply Permutation_nil in P. auto.
  - destruct l2 as [|y l2];
      [apply Permutation_sym, Permutation_nil in P; discriminate|].
    inversion H2 as [|? ? Hs2 Hy]; subst.
    rewrite Forall_forall in Hx, Hy.
    assert (E : x = y).
    { assert (Ix : In x (y :: l2)).
      { apply (Permutation_in _ P). left. reflexivity. }
      assert (Iy : In y (x :: l1)).
      { apply (Permutation_in _ (Permutation_sym P)). left. reflexivity. }
      destruct Ix as [E|Ix]; [auto|]. destruct Iy as [E|Iy]; [auto|].
      specialize (Hx y Iy). specialize (Hy x Ix). unfold strictly_before in Hx, Hy.
      pose proof (ltb_trans _ _ _ Hx Hy) as C.
      rewrite ltb_irrefl in C. discriminate. }
    subst y. f_equal. apply IH; [exact Hs2|].
    apply (Permutation_cons_inv P).
Qed.

Lemma sorted_strictly (l : list A) :
  NoDup (map key l) -> StronglySorted (strictly_before ltb key) (sorted ltb key l).
Proof.
  intros Hn.
  assert (Hn' : NoDup (map key (sorted ltb key l))).
  { eapply Permutation_NoDup; [|exact Hn]. apply Permutation_map.
    apply sorted_perm. }
  assert (Hs : StronglySorted (not_after ltb key) (sorted ltb key l)).
  { apply sorted_sorted; auto.
    intros a b Hab Hba c. rewrite (ltb_total a b Hab Hba). reflexivity. }
  induction Hs as [|x s Hs IH Hx]; constructor.
  - apply IH. inversion Hn'. assumption.
  - simpl in Hn'. inversion Hn' as [|? ? Hnot Hrest]; subst.
    rewrite Forall_forall in *. intros y Hy. specialize (Hx y Hy).
    unfold not_after in Hx. unfold strictly_before.
    destruct (ltb (key x) (key y)) eqn:E; [reflexivity|].
    exfalso. apply Hnot. rewrite (ltb_total _ _ E Hx).
    apply in_map. exact Hy.
Qed.

(** Sorting two arrangements of the same elements, whose keys are pairwise
    distinct, gives the same list. *)
Lemma sorted_unique (l1 l2 : list A) :
  Permutation l1 l2 -> NoDup (map key l1) ->
  sorted ltb key l1 = sorted ltb key l2.
Proof.
  intros P Hn. apply strictly_sorted_unique.
  - apply sorted_strictly. exact Hn.
  - apply sorted_strictly. eapply Permutation_NoDup; [|exact Hn].
    apply Permutation_map. exact P.
  - eapply Permutation_trans; [apply Permutation_sym, sorted_perm|].
    eapply Permutation_trans; [exact P|apply sorted_perm].
Qed.
End SortedUnique.

(** The key of a string identity ends with the identity itself. *)
Lemma id_key_text (rt : runtime) (t : str) (prefix_order : list (str * Z)) :
  key_text (id_key_of rt (VStr t) prefix_order) = t.
Proof.
  unfold id_key_of. destruct (fullmatch_id rt t) as [[p n]|]; reflexivity.
Qed.

Lemma issue_keys_distinct (rt : runtime) (l : list dict) :
  Forall (fun i => is_str (get "id" i) = true) l ->
  NoDup (map (get "id") l) ->
  NoDup (map (issue_key rt) l).
Proof.
  induction l as [|x l IH]; simpl; intros Hs Hn; [constructor|].
  inversion Hs as [|? ? Hx Hl]; subst. inversion Hn as [|? ? Hnot Hrest]; subst.
  constructor; [|apply IH; assumption].
  intros Hin. apply Hnot. apply in_map_iff in Hin.
  destruct Hin as [y [E Hy]]. apply in_map_iff. exists y. split; [|exact Hy].
  rewrite Forall_forall in Hl. specialize (Hl y Hy).
  unfold issue_key in E.
  destruct (get "id" x) as [| | | |tx| |]; try discriminate.
  destruct (get "id" y) as [| | | |ty| |]; try discriminate.
  apply (f_equal key_text) in E. rewrite !id_key_text in E. congruence.
Qed.

Lemma get_has_key (k : string) (b : dict) :
  get k b <> VNone -> has_key (lit k) b = true.
Proof.
  unfold get, has_key. destruct (lookup (lit k) b); [reflexivity|].
  intros H. destruct (H eq_refl).
Qed.

(** Without the JSON section, the report does not depend on the order of
    the issues in the input, nor on the elements of [issues] that are not
    mappings, when the ids of the issues are pairwise distinct strings
    whose digits [int] converts: two well-shaped bundles with the same
    [meta] and [epics] whose issue mappings are arrangements of each other
    render to the same outcome. *)
Theorem issue_order_irrelevant (rt : runtime) (b1 b2 : dict)
    (issues1 issues2 : list value) :
  well_shaped (VDict b1) = true ->
  get "meta" b1 = get "meta" b2 ->
  get "epics" b1 = get "epics" b2 ->
  get "issues" b1 = VList issues1 ->
  get "issues" b2 = VList issues2 ->
  Permutation (dicts_of issues1) (dicts_of issues2) ->
  Forall (fun i => is_str (get "id" i) = true) (dicts_of issues1) ->
  NoDup (map (get "id") (dicts_of issues1)) ->
  forallb (within_int_limit rt) (map (get "id") (dicts_of issues1)) = true ->
  render_issue_bundle_markdown rt (VDict b1) false
  = render_issue_bundle_markdown rt (VDict b2) false.
Proof.
  intros W1 Em Ee E1 E2 P Hs Hn Hl.
  assert (W2 : well_shaped (VDict b2) = true).
  { simpl in W1. repeat (apply andb_prop in W1; destruct W1 as [W1 ?]).
    simpl. rewrite <- Em, <- Ee, E2.
    rewrite (get_has_key "meta" b2), (get_has_key "epics" b2),
      (get_has_key "issues" b2).
    - repeat (apply andb_true_intro; split); auto.
    - rewrite E2. discriminate.
    - rewrite <- Ee. destruct (get "epics" b1); discriminate.
    - rewrite <- Em. destruct (get "meta" b1); discriminate. }
  assert (S : sorted_issues rt issues1 = sorted_issues rt issues2).
  { unfold sorted_issues. apply sorted_unique.
    - apply id_key_ltb_irrefl.
    - apply id_key_ltb_trans.
    - apply id_key_ltb_total.
    - exact P.
    - apply (issue_keys_distinct rt _ Hs Hn). }
  assert (I1 : issues_error rt issues1 = None).
  { apply first_error_within. exact Hl. }
  assert (I2 : issues_error rt issues2 = None).
  { unfold issues_error in *. revert I1. apply first_error_perm.
    apply Permutation_map. exact P. }
  assert (Hh : head_error rt b1 = head_error rt b2).
  { unfold head_error. rewrite <- Em, <- Ee, E1, E2. simpl list_or_empty.
    rewrite I1, I2. reflexivity. }
  unfold render_issue_bundle_markdown.
  rewrite (render_lines_dict rt b1 false W1), (render_lines_dict rt b2 false W2).
  rewrite Hh. destruct (head_error rt b2); [reflexivity|].
  rewrite E1, E2. simpl list_or_empty. rewrite S.
  destruct (summary_rows rt (sorted_issues rt issues2)) as [rows|e];
    [|reflexivity].
  unfold groups_error. rewrite S.
  destruct (first_error rt _); [reflexivity|].
  unfold report_lines, head_lines, title_line, details_entries.
  rewrite Em, Ee, E1, E2. simpl list_or_empty. rewrite S. reflexivity.
Qed.

(** The scenario bundle and the same bundle with its two issues swapped
    and a number added to [issues]. *)
Lemma issue_order_irrelevant_witness :
  render_issue_bundle_markdown example_runtime scenario_bundle false
  = render_issue_bundle_markdown example_runtime
      (VDict [field "meta" (VDict [field "project" (jstr "Shop")]);
              field "epics"
                (VList [VDict [field "id" (jstr "E-1");
                               field "title" (jstr "Accounts")]]);
              field "issues"
                (VList [VDict scenario_story; VInt 7; VDict scenario_task])])
      false.
Proof.
  apply (issue_order_irrelevant example_runtime _ _
           [VDict scenario_task; VDict scenario_story]
           [VDict scenario_story; VInt 7; VDict scenario_task]);
    try reflexivity.
  - apply perm_swap.
  - repeat constructor.
  - repeat constructor; simpl; intuition discriminate.
Defined.

(** ** Groups and top-level entries of the Issue Details section *)

Lemma Permutation_filter_compat {A : Type} (f : A -> bool) (l l' : list A) :
  Permutation l l' -> Permutation (filter f l) (filter f l').
Proof.
  intros H. induction H as [|x l l' _ IH|x y l|l l' l'' _ IH1 _ IH2]; simpl.
  - constructor.
  - destruct (f x); [apply perm_skip|]; exact IH.
  - destruct (f x), (f y); try reflexivity. apply perm_swap.
  - eapply Permutation_trans; eassumption.
Qed.

Lemma flat_map_pointwise_perm {A B : Type} (f g : A -> list B) (l : list A) :
  (forall x, In x l -> Permutation (f x) (g x)) ->
  Permutation (flat_map f l) (flat_map g l).
Proof.
  induction l as [|x l IH]; simpl; intros H; [constructor|].
  apply Permutation_app; [apply H; auto|apply IH; auto].
Qed.

Lemma flat_map_app_perm {A B : Type} (f g : A -> list B) (l : list A) :
  Permutation (flat_map (fun x => f x ++ g x) l)
    (flat_map f l ++ flat_map g l).
Proof.
  induction l as [|x l IH]; simpl; [constructor|].
  rewrite <- !app_assoc. apply Permutation_app_head.
  eapply Permutation_trans; [apply Permutation_app_head; exact IH|].
  rewrite !app_assoc. apply Permutation_app_tail. apply Permutation_app_comm.
Qed.

Lemma filter_disjoint_perm {A : Type} (p q : A -> bool) (l : list A) :
  (forall x, p x = true -> q x = false) ->
  Permutation (filter p l ++ filter q l) (filter (fun x => p x || q x) l).
Proof.
  intros H. induction l as [|x l IH]; simpl; [constructor|].
  destruct (p x) eqn:P; simpl.
  - rewrite (H x P). apply perm_skip. exact IH.
  - destruct (q x); [|exact IH].
    eapply Permutation_trans; [apply Permutation_sym, Permutation_middle|].
    apply perm_skip. exact IH.
Qed.

Lemma filter_comm {A : Type} (p q : A -> bool) (l : list A) :
  filter p (filter q l) = filter q (filter p l).
Proof.
  induction l as [|x l IH]; simpl; [reflexivity|].
  destruct (p x) eqn:P, (q x) eqn:Q; simpl; rewrite ?P, ?Q, IH; reflexivity.
Qed.

Section Partition.
Context {K A : Type} (eqb : K -> K -> bool) (kf : A -> K).
Hypothesis eqb_eq : forall a b, eqb a b = true <-> a = b.

Lemma flat_map_single (x : A) (ks : list K) :
  NoDup ks -> In (kf x) ks ->
  flat_map (fun k => if eqb k (kf x) then [x] else []) ks = [x].
Proof.
  induction ks as [|k ks IH]; simpl; intros Hn Hi; [contradiction|].
  inversion Hn as [|? ? Hnot Hrest]; subst.
  destruct (eqb k (kf x)) eqn:E.
  - apply eqb_eq in E. subst k. simpl. f_equal.
    clear IH Hi Hrest Hn. induction ks as [|k ks IH]; [reflexivity|]. simpl.
    destruct (eqb k (kf x)) eqn:F.
    + apply eqb_eq in F. subst k. exfalso. apply Hnot. left. reflexivity.
    + apply IH. intros H. apply Hnot. right. exact H.
  - destruct Hi as [Hi|Hi]; [|apply IH; assumption].
    subst k. rewrite (proj2 (eqb_eq _ _) eq_refl) in E. discriminate.
Qed.

(** Collecting, key by key, the elements with that key rearranges the
    list, when the keys are listed once each and none is missing. *)
Lemma partition_by_key (l : list A) (ks : list K) :
  NoDup ks -> (forall x, In x l -> In (kf x) ks) ->
  Permutation (flat_map (fun k => filter (fun x => eqb k (kf x)) l) ks) l.
Proof.
  intros Hn. induction l as [|x l IH]; intros Hc.
  - replace (flat_map (fun k => filter (fun x => eqb k (kf x)) []) ks)
      with (@nil A); [constructor|].
    clear. induction ks as [|k ks IHk]; [reflexivity|exact IHk].
  - eapply Permutation_trans.
    + apply (flat_map_pointwise_perm _
               (fun k => (if eqb k (kf x) then [x] else [])
                         ++ filter (fun y => eqb k (kf y)) l)).
      intros k _. simpl. destruct (eqb k (kf x)); reflexivity.
    + eapply Permutation_trans; [apply flat_map_app_perm|].
      rewrite flat_map_single; [|exact Hn|apply Hc; left; reflexivity].
      simpl. apply perm_skip. apply IH. intros y Hy. apply Hc. right.
      exact Hy.
Qed.

Lemma setdefault_keys_nodup (k : K) (x : A) (d : list (K * list A)) :
  NoDup (map fst d) -> NoDup (map fst (setdefault_append eqb k x d)).
Proof.
  induction d as [|[k0 xs] d IH]; simpl; intros Hn.
  - constructor; [intros []|constructor].
  - inversion Hn as [|? ? Hnot Hrest]; subst.
    destruct (eqb k k0) eqn:E; simpl.
    + constructor; assumption.
    + constructor; [|apply IH; exact Hrest].
      intros Hin. apply (keys_setdefault eqb eqb_eq) in Hin.
      destruct Hin as [Hin|Hin]; [contradiction|].
      subst k0. rewrite (proj2 (eqb_eq _ _) eq_refl) in E. discriminate.
Qed.
End Partition.

Lemma group_index_keys_nodup (issues : list dict) :
  NoDup (map fst (group_index issues)).
Proof.
  unfold group_index.
  assert (H : forall d : list (group_key * list dict),
             NoDup (map fst d) ->
             NoDup (map fst
                      (fold_left
                         (fun epic_groups issue =>
                            setdefault_append group_key_eqb (epic_key issue)
                              issue epic_groups) issues d))).
  { induction issues as [|i issues IH]; intros d Hd; simpl; [exact Hd|].
    apply IH. apply (setdefault_keys_nodup group_key_eqb group_key_eqb_eq).
    exact Hd. }
  apply H. constructor.
Qed.

Lemma nodup_map_some {A : Type} (l : list A) :
  NoDup l -> NoDup (map Some l).
Proof.
  induction 1 as [|x l Hx _ IH]; simpl; constructor; [|exact IH].
  intros Hin. apply in_map_iff in Hin. destruct Hin as [y [E Hy]].
  injection E as ->. contradiction.
Qed.

Lemma sorted_group_keys_nodup (rt : runtime)
    (epic_groups : list (group_key * list dict)) :
  NoDup (map fst epic_groups) -> NoDup (sorted_group_keys rt epic_groups).
Proof.
  intros Hn. unfold sorted_group_keys. cbv zeta.
  set (keys := map fst epic_groups) in *.
  apply NoDup_app.
  - match goal with
    | |- NoDup (map Some (sorted ?lt ?key ?named)) =>
        assert (Hs : NoDup (sorted lt key named))
    end.
    { eapply Permutation_NoDup; [apply sorted_perm|].
      clear -Hn. induction keys as [|k keys IH]; simpl; [constructor|].
      inversion Hn as [|? ? Hnot Hrest]; subst.
      destruct k as [eid|]; simpl; [|apply IH; exact Hrest].
      constructor; [|apply IH; exact Hrest].
      intros Hin. apply Hnot. apply in_flat_map in Hin.
      destruct Hin as [[y|] [Hy Hi]]; simpl in Hi; [|contradiction].
      destruct Hi as [<-|[]]. exact Hy. }
    apply nodup_map_some. exact Hs.
  - destruct (existsb (group_key_eqb None) keys); constructor;
      [intros []|constructor].
  - intros a Ha Hb. apply in_map_iff in Ha. destruct Ha as [x [<- _]].
    destruct (existsb (group_key_eqb None) keys); simpl in Hb;
      [destruct Hb as [Hb|[]]; discriminate|contradiction].
Qed.

Lemma top_level_of_group (rt : runtime)
    (children_by_parent_id : list (str * list dict))
    (epic_groups : list (group_key * list dict)) (k : group_key) :
  top_level_issues (group_entries rt children_by_parent_id epic_groups k)
  = sorted_stories rt (get_list group_key_eqb k epic_groups)
    ++ others_top_level_of (get_list group_key_eqb k epic_groups).
Proof.
  unfold group_entries, top_level_issues. cbv zeta. cbn [flat_map app].
  rewrite flat_map_app. f_equal.
  - rewrite flat_map_flat_map.
    induction (sorted_stories rt (get_list group_key_eqb k epic_groups))
      as [|st l IH]; [reflexivity|].
    cbn [flat_map]. rewrite IH. unfold story_entries. cbn [flat_map app].
    rewrite flat_map_map. f_equal.
    induction (sorted_children rt children_by_parent_id st); auto.
  - rewrite flat_map_map.
    induction (others_top_level_of (get_list group_key_eqb k epic_groups))
      as [|x l IH]; [reflexivity|]. simpl. rewrite IH. reflexivity.
Qed.

(** Every story and every issue without a parent has exactly one block at
    the top level of the Issue Details section, as often as it occurs among
    the issues, and no other issue has one. *)
Theorem top_level_exactly_once (rt : runtime) (issues : list value) :
  Permutation (top_level_issues (details_entries rt issues))
    (filter shown_at_top (dicts_of issues)).
Proof.
  unfold details_entries. cbv zeta.
  set (l := sorted_issues rt issues).
  set (keys := sorted_group_keys rt (group_index l)).
  unfold top_level_issues. rewrite flat_map_flat_map.
  eapply Permutation_trans.
  - apply (flat_map_pointwise_perm _
             (fun k => filter (fun x => group_key_eqb k (epic_key x))
                         (filter shown_at_top l))).
    intros k _. fold (top_level_issues
                        (group_entries rt (children_index l) (group_index l) k)).
    rewrite top_level_of_group, group_index_spec.
    rewrite (filter_comm _ shown_at_top).
    set (grp := filter (fun x => group_key_eqb k (epic_key x)) l).
    rewrite (filter_ext shown_at_top
               (fun i => is_story i
                         || (negb (eq_str (get "type" i) "user_story")
                             && negb (truthy (get "parent_id" i))))).
    + eapply Permutation_trans;
        [|apply (filter_disjoint_perm is_story
                   (fun i => negb (eq_str (get "type" i) "user_story")
                             && negb (truthy (get "parent_id" i))))].
      * apply Permutation_app; [|reflexivity].
        unfold sorted_stories. apply Permutation_sym. apply sorted_perm.
      * intros x Hx. unfold is_story in Hx. rewrite Hx. reflexivity.
    + intros i. unfold shown_at_top, is_story.
      destruct (eq_str (get "type" i) "user_story"); reflexivity.
  - eapply Permutation_trans.
    + apply (partition_by_key group_key_eqb epic_key group_key_eqb_eq).
      * apply sorted_group_keys_nodup. apply group_index_keys_nodup.
      * intros x Hx. apply filter_In in Hx. destruct Hx as [Hx _].
        apply sorted_group_keys_in. apply group_index_keys. exists x. auto.
    + apply Permutation_filter_compat. apply Permutation_sym.
      unfold l, sorted_issues. apply sorted_perm.
Qed.

(** Sorting by an identity key leaves the keys in non-decreasing order. *)
Lemma sorted_by_id_key {A : Type} (key : A -> id_key) (l : list A) :
  StronglySorted (fun a b => id_key_le (key a) (key b))
    (sorted id_key_ltb key l).
Proof.
  assert (H : StronglySorted (not_after id_key_ltb key)
                (sorted id_key_ltb key l)).
  { apply sorted_sorted.
    - apply id_key_ltb_irrefl.
    - apply id_key_ltb_trans.
    - intros a b H1 H2 c. rewrite (id_key_ltb_total a b H1 H2). reflexivity. }
  induction H as [|x s Hs IH Hx]; constructor; [exact IH|].
  eapply Forall_impl; [|exact Hx]. intros b Hb. unfold not_after in Hb.
  destruct (id_key_ltb (key x) (key b)) eqn:E.
  - apply id_key_ltb_iff in E. unfold id_key_le, str_le. tauto.
  - rewrite (id_key_ltb_total _ _ E Hb). unfold id_key_le, str_le. tauto.
Qed.

Lemma group_headings_of_group (rt : runtime)
    (children_by_parent_id : list (str * list dict))
    (epic_groups : list (group_key * list dict)) (k : group_key) :
  group_headings (group_entries rt children_by_parent_id epic_groups k) = [k].
Proof.
  unfold group_entries, group_headings. cbv zeta. cbn [flat_map app].
  f_equal. rewrite flat_map_app.
  match goal with
  | |- ?a ++ ?b = [] => assert (Ha : a = []); [|assert (Hb : b = [])]
  end.
  - rewrite flat_map_flat_map.
    induction (sorted_stories rt (get_list group_key_eqb k epic_groups))
      as [|st l IH]; [reflexivity|].
    cbn [flat_map]. rewrite IH, app_nil_r. unfold story_entries.
    cbn [flat_map app]. rewrite flat_map_map.
    induction (sorted_children rt children_by_parent_id st); auto.
  - rewrite flat_map_map.
    induction (others_top_level_of (get_list group_key_eqb k epic_groups));
      auto.
  - rewrite Ha, Hb. reflexivity.
Qed.

(** The Issue Details section has one group per epic id that an issue
    refers to, whether or not [epics] has such an epic, and none for an
    epic without issues; the groups of the epic ids come in the order of
    their identity keys, and the group of the issues without a string
    [epic_id], if there is one, comes last. *)
Theorem group_headings_once (rt : runtime) (issues : list value) :
  let headings := group_headings (details_entries rt issues) in
  NoDup headings
  /\ (forall k,
         In k headings <-> exists i, In (VDict i) issues /\ epic_key i = k)
  /\ exists epic_ids,
       (headings = map Some epic_ids \/ headings = map Some epic_ids ++ [None])
       /\ StronglySorted
            (fun a b => id_key_le (id_key_of rt (VStr a) E_PREFIX_ORDER)
                          (id_key_of rt (VStr b) E_PREFIX_ORDER))
            epic_ids.
Proof.
  assert (E : group_headings (details_entries rt issues)
              = sorted_group_keys rt (group_index (sorted_issues rt issues))).
  { unfold details_entries, group_headings. cbv zeta.
    rewrite flat_map_flat_map.
    induction (sorted_group_keys rt (group_index (sorted_issues rt issues)))
      as [|k ks IH]; [reflexivity|].
    cbn [flat_map]. rewrite IH.
    fold (group_headings
            (group_entries rt (children_index (sorted_issues rt issues))
               (group_index (sorted_issues rt issues)) k)).
    rewrite group_headings_of_group. reflexivity. }
  cbv zeta. rewrite E. split; [|split].
  - apply sorted_group_keys_nodup. apply group_index_keys_nodup.
  - intros k. rewrite sorted_group_keys_in, group_index_keys. split.
    + intros [i [Hi Hk]]. exists i. split; [|exact Hk].
      apply sorted_issues_in in Hi. exact Hi.
    + intros [i [Hi Hk]]. exists i. split; [|exact Hk].
      apply sorted_issues_in. exact Hi.
  - unfold sorted_group_keys. cbv zeta. eexists. split.
    + destruct (existsb (group_key_eqb None) _);
        [right; reflexivity|left; apply app_nil_r].
    + apply (sorted_by_id_key (fun eid => id_key_of rt (VStr eid) E_PREFIX_ORDER)).
Qed.

(** ** The children of a story *)

Lemma child_key_ltb_iff (a b : Z * id_key) :
  child_key_ltb a b = true <->
  (fst a < fst b)%Z \/ (fst a = fst b /\ id_key_ltb (snd a) (snd b) = true).
Proof.
  unfold child_key_ltb.
  rewrite orb_true_iff, andb_true_iff, Z.ltb_lt, Z.eqb_eq. reflexivity.
Qed.

Lemma child_key_ltb_irrefl (a : Z * id_key) : child_key_ltb a a = false.
Proof.
  destruct (child_key_ltb a a) eqn:E; [|reflexivity].
  apply child_key_ltb_iff in E. rewrite id_key_ltb_irrefl in E.
  destruct E as [E|[_ E]]; [lia|discriminate].
Qed.

Lemma child_key_ltb_trans (a b c : Z * id_key) :
  child_key_ltb a b = true -> child_key_ltb b c = true ->
  child_key_ltb a c = true.
Proof.
  rewrite !child_key_ltb_iff.
  intros [H1|[E1 H1]] [H2|[E2 H2]]; try (left; lia).
  right. split; [lia|]. eapply id_key_ltb_trans; eassumption.
Qed.

Lemma child_key_ltb_total (a b : Z * id_key) :
  child_key_ltb a b = false -> child_key_ltb b a = false -> a = b.
Proof.
  intros H1 H2.
  assert (N1 : ~ child_key_ltb a b = true) by congruence.
  assert (N2 : ~ child_key_ltb b a = true) by congruence.
  rewrite child_key_ltb_iff in N1, N2.
  destruct a as [ra ka], b as [rb kb]. simpl in *.
  assert (ra = rb) by lia. subst rb. f_equal.
  apply id_key_ltb_total.
  - destruct (id_key_ltb ka kb); [|reflexivity]. exfalso. apply N1. auto.
  - destruct (id_key_ltb kb ka); [|reflexivity]. exfalso. apply N2. auto.
Qed.

(** Right after the block of a story come the blocks of the issues that
    name its id as their parent, whatever their type and epic: all of them
    and nothing else, as often as they occur, ordered by the rank of the
    prefix of their id and then by their identity key. *)
Theorem children_of_story (rt : runtime) (issues : list value) (st : dict)
    (story_id : str) :
  In (VDict st) issues -> is_story st = true -> get "id" st = VStr story_id ->
  exists children before after_,
    details_entries rt issues
    = before ++ TopLevel st :: map (Child st) children ++ after_
    /\ starts_with_child after_ = false
    /\ Permutation children (filter (has_parent story_id) (dicts_of issues))
    /\ StronglySorted
         (fun a b => child_key_le (child_key rt a) (child_key rt b)) children.
Proof.
  intros Hin Hty Hid. apply (sorted_issues_in rt) in Hin.
  destruct (story_segment rt issues st Hin Hty) as [before [after_ [E Ha]]].
  exists (sorted_children rt (children_index (sorted_issues rt issues)) st).
  exists before, after_. split; [exact E|]. split; [exact Ha|].
  unfold sorted_children. rewrite Hid, children_index_spec. split.
  - eapply Permutation_trans; [apply Permutation_sym, sorted_perm|].
    apply Permutation_filter_compat. apply Permutation_sym.
    unfold sorted_issues. apply sorted_perm.
  - match goal with
    | |- StronglySorted _ (sorted _ _ ?l) =>
        assert (H : StronglySorted (not_after child_key_ltb (child_key rt))
                      (sorted child_key_ltb (child_key rt) l))
    end.
    { apply sorted_sorted.
      - apply child_key_ltb_irrefl.
      - apply child_key_ltb_trans.
      - intros a b H1 H2 c. rewrite (child_key_ltb_total a b H1 H2).
        reflexivity. }
    induction H as [|x s Hs IH Hx]; constructor; [exact IH|].
    eapply Forall_impl; [|exact Hx]. intros b Hb. unfold not_after in Hb.
    destruct (child_key_ltb (child_key rt x) (child_key rt b)) eqn:F.
    + apply child_key_ltb_iff in F. destruct F as [F|[F1 F2]].
      * left. exact F.
      * right. split; [exact F1|]. apply id_key_ltb_iff in F2.
        unfold id_key_le, str_le. tauto.
    + rewrite (child_key_ltb_total _ _ F Hb). right. split; [reflexivity|].
      unfold id_key_le, str_le. tauto.
Qed.

(** The story and the task of the scenario. *)
Lemma children_of_story_witness :
  exists children before after_,
    details_entries example_runtime [VDict scenario_task; VDict scenario_story]
    = before ++ TopLevel scenario_story
      :: map (Child scenario_story) children ++ after_
    /\ starts_with_child after_ = false
    /\ Permutation children
         (filter (has_parent (lit "US-1"))
            (dicts_of [VDict scenario_task; VDict scenario_story]))
    /\ StronglySorted
         (fun a b => child_key_le (child_key example_runtime a)
                       (child_key example_runtime b)) children.
Proof.
  apply (children_of_story example_runtime
           [VDict scenario_task; VDict scenario_story] scenario_story
           (lit "US-1")).
  - right. left. reflexivity.
  - reflexivity.
  - reflexivity.
Defined.

(** ** The Epics section and the dict of epics *)

Lemma runs_items_or_dash (rt : runtime) (prefix : str) (items : list value) :
  runs (append_items_or_dash rt prefix items) tt
    (match items with
     | [] => [prefix ++ DASH]
     | _ => map (fun item => prefix ++ _md_cell rt item) items
     end).
Proof.
  destruct items as [|i items].
  - apply runs_append.
  - apply runs_append_items.
Qed.

Lemma nonblank_last (l : list str) :
  l <> [] -> Forall (fun line => line <> []) l ->
  exists o x, l = o ++ [x] /\ x <> [].
Proof.
  intros Hn Hf. destruct (exists_last Hn) as [o [x E]].
  exists o, x. split; [exact E|]. rewrite Forall_forall in Hf. apply Hf.
  rewrite E. apply in_or_app. right. left. reflexivity.
Qed.

Lemma prefixed_nonblank (rt : runtime) (prefix : str) (items : list value) :
  prefix <> [] ->
  Forall (fun line => line <> [])
    (map (fun item => prefix ++ _md_cell rt item) items).
Proof.
  intros Hp. apply Forall_forall. intros line Hl. apply in_map_iff in Hl.
  destruct Hl as [item [<- _]]. destruct prefix; [contradiction|discriminate].
Qed.

(** A loop over a non-empty list whose bodies end with a line that is not
    blank and a blank line ends the same way, and returns the fold of its
    steps. *)
Lemma runs_for_fold_step {A S : Type} (step : S -> A -> S) (xs : list A)
    (body : A -> S -> M S) :
  (forall x s, exists o l,
      runs (body x s) (step s x) (o ++ [l; []]) /\ l <> []) ->
  xs <> [] ->
  forall s, exists o l,
    runs (for_fold xs s body) (fold_left step xs s) (o ++ [l; []]) /\ l <> [].
Proof.
  intros Hb. induction xs as [|x xs IH]; [contradiction|]. intros _ s0.
  destruct (Hb x s0) as [o1 [l1 [H1 N1]]]. simpl.
  destruct xs as [|y ys].
  - exists o1, l1. split; [|exact N1]. eapply runs_eq.
    + eapply runs_bind; [exact H1|apply runs_ret].
    + apply app_nil_r.
  - destruct (IH ltac:(discriminate) (step s0 x)) as [o2 [l2 [H2 N2]]].
    exists (o1 ++ [l1; []] ++ o2), l2. split; [|exact N2]. eapply runs_eq.
    + eapply runs_bind; [exact H1|exact H2].
    + rewrite <- !app_assoc. reflexivity.
Qed.

Lemma epic_body_runs (rt : runtime) (epic : dict)
    (epic_by_id : list (str * dict)) :
  exists o l,
    runs
      (let epic_by_id :=
         match get "id" epic with
         | VStr epic_id => assign epic_id epic epic_by_id
         | _ => epic_by_id
         end in
       append (lit "### " ++ _md_cell rt (get "id" epic) ++ lit ": "
               ++ _md_cell rt (get "title" epic)) ;;
       append (lit "- **Objective:** " ++ _md_cell rt (get "objective" epic)) ;;
       let exit_criteria := list_or_empty (get "exit_criteria" epic) in
       append (lit "- **Exit criteria:**") ;;
       append_items_or_dash rt (lit "  - ") exit_criteria ;;
       let non_goals := list_or_empty (get "non_goals" epic) in
       match non_goals with
       | [] => ret tt
       | _ =>
           append (lit "- **Non-goals:**") ;;
           append_items rt (lit "  - ") non_goals
       end ;;
       append [] ;;
       ret epic_by_id)
      (index_epic epic_by_id epic) (o ++ [l; []])
    /\ l <> [].
Proof.
  cbv zeta. fold (index_epic epic_by_id epic).
  set (crit := list_or_empty (get "exit_criteria" epic)).
  set (ng := list_or_empty (get "non_goals" epic)).
  set (I := match crit with
            | [] => [lit "  - " ++ DASH]
            | _ => map (fun item => lit "  - " ++ _md_cell rt item) crit
            end).
  set (G := match ng with
            | [] => []
            | _ => lit "- **Non-goals:**"
                   :: map (fun item => lit "  - " ++ _md_cell rt item) ng
            end).
  assert (HI : I <> [] /\ Forall (fun line => line <> []) I).
  { unfold I. destruct crit as [|c crit'].
    - split; [discriminate|]. repeat constructor. discriminate.
    - split; [discriminate|]. apply prefixed_nonblank. discriminate. }
  assert (HG : Forall (fun line => line <> []) G).
  { unfold G. destruct ng as [|g ng']; [constructor|].
    constructor; [discriminate|]. apply prefixed_nonblank. discriminate. }
  assert (HL : exists o l, I ++ G = o ++ [l] /\ l <> []).
  { apply nonblank_last.
    - destruct I; [destruct HI as [HI _]; contradiction|discriminate].
    - apply Forall_app. split; [apply HI|exact HG]. }
  destruct HL as [o [l [E N]]].
  assert (HGr : runs (match ng with
                      | [] => ret tt
                      | _ :: _ =>
                          append (lit "- **Non-goals:**") ;;
                          append_items rt (lit "  - ") ng
                      end) tt G).
  { unfold G. destruct ng as [|g ng']; [apply runs_ret|].
    eapply runs_eq; [run; apply runs_append_items|reflexivity]. }
  eexists. exists l. split; [|exact N]. eapply runs_eq.
  - eapply runs_bind; [apply runs_append|].
    eapply runs_bind; [apply runs_append|].
    eapply runs_bind; [apply runs_append|].
    eapply runs_bind; [apply (runs_items_or_dash rt (lit "  - ") crit)|].
    eapply runs_bind; [exact HGr|].
    eapply runs_bind; [apply runs_append|apply runs_ret].
  - fold I. cbn [app].
    instantiate (1 := _ :: _ :: _ :: o).
    cbn [app]. do 3 f_equal. change (I ++ G ++ [[]] = o ++ [l; []]).
    rewrite app_assoc.
    transitivity ((o ++ [l]) ++ [[]]);
      [exact (f_equal (fun z => z ++ [[]]) E)
      |rewrite <- app_assoc; reflexivity].
Qed.

(** [_render_epics] raises the [ValueError] of [int] when the id of an
    epic holds more digits than [int] converts, and nothing else. When it
    returns, it has appended a blank line, the heading ["## Epics"] and a
    body that is the placeholder bullet alone when [epics] has no mapping,
    and that never ends with a blank line; and it returns the dict that its
    loop builds over the sorted epics. *)
Theorem render_epics_shape (rt : runtime) (epics : list value) :
  (forallb (within_int_limit rt) (map (get "id") (dicts_of epics)) = true ->
   exists before last_line,
     runs (_render_epics rt epics)
       (fold_left index_epic (sorted_epics rt epics) [])
       ([[]; lit "## Epics"] ++ before ++ [last_line])
     /\ last_line <> []
     /\ (dicts_of epics = [] ->
         before = [] /\ last_line = lit "- " ++ DASH))
  /\ (forallb (within_int_limit rt) (map (get "id") (dicts_of epics)) = false ->
      exists msg,
        forall lines, _render_epics rt epics lines = Raise (ValueError msg)).
Proof.
  split.
  - intros Hw. apply first_error_within in Hw.
    unfold _render_epics, sorted_epics.
    destruct (dicts_of epics) as [|e0 es] eqn:E.
    + exists [], (lit "- " ++ DASH). split; [|split].
      * eapply runs_eq; [run|reflexivity].
      * discriminate.
      * auto.
    + rewrite py_sorted_cases, Hw.
      set (xs := sorted id_key_ltb
                   (fun e => id_key_of rt (get "id" e) E_PREFIX_ORDER)
                   (e0 :: es)).
      assert (Hx : xs <> []).
      { intros Hx.
        pose proof (sorted_length id_key_ltb
                      (fun e => id_key_of rt (get "id" e) E_PREFIX_ORDER)
                      (e0 :: es)) as L.
        fold xs in L. rewrite Hx in L. discriminate. }
      match goal with
      | |- context [for_fold _ [] ?b] =>
          destruct (runs_for_fold_step index_epic xs b)
            with (s := @nil (str * dict)) as [o [l [Ho Hl]]];
            [intros x s; apply epic_body_runs|exact Hx|]
      end.
      exists o, l. split; [|split].
      * intros lines.
        rewrite (bind_runs _ _ _ _ _ (runs_append _)).
        rewrite (bind_runs _ _ _ _ _ (runs_append _)).
        rewrite lift_ok_bind. rewrite (bind_runs _ _ _ _ _ Ho).
        unfold bind, ret.
        assert (Hs : forall L : list str,
                   L ++ o ++ [l; []] = (L ++ o ++ [l]) ++ [[]]).
        { intros L. rewrite <- !app_assoc. reflexivity. }
        rewrite Hs, pop_blank_snoc, <- !app_assoc. reflexivity.
      * exact Hl.
      * discriminate.
  - intros Hw.
    destruct (epics_error rt epics) as [e|] eqn:He.
    + destruct (first_error_value _ _ _ He) as [msg ->]. exists msg.
      apply render_epics_raises. exact He.
    + apply first_error_within in He. congruence.
Qed.

(** An epic without id, and an epic whose id has 4301 digits under the
    default limit of 4300. *)
Lemma render_epics_shape_witness :
  (exists before last_line,
      runs (_render_epics example_runtime [VDict [field "title" (jstr "A")]])
        (fold_left index_epic
           (sorted_epics example_runtime [VDict [field "title" (jstr "A")]])
           [])
        ([[]; lit "## Epics"] ++ before ++ [last_line])
      /\ last_line <> []
      /\ (dicts_of [VDict [field "title" (jstr "A")]] = [] ->
          before = [] /\ last_line = lit "- " ++ DASH))
  /\ exists msg,
       forall lines,
         _render_epics example_runtime
           [VDict [field "id" (VStr (lit "E-" ++ repeat 49 4301))]] lines
         = Raise (ValueError msg).
Proof.
  split.
  - apply (render_epics_shape example_runtime
             [VDict [field "title" (jstr "A")]]).
    reflexivity.
  - apply (render_epics_shape example_runtime
             [VDict [field "id" (VStr (lit "E-" ++ repeat 49 4301))]]).
    vm_compute. reflexivity.
Defined.

Lemma epic_index_fold (rt : runtime) (epics : list value) :
  epic_index rt epics = fold_left index_epic (sorted_epics rt epics) [].
Proof. reflexivity. Qed.

Lemma str_eqb_sym (a b : str) : str_eqb a b = str_eqb b a.
Proof.
  destruct (str_eqb a b) eqn:E, (str_eqb b a) eqn:F; try reflexivity.
  - apply str_eqb_eq in E. subst. rewrite str_eqb_refl in F. discriminate.
  - apply str_eqb_eq in F. subst. rewrite str_eqb_refl in E. discriminate.
Qed.

(** [d[k'] = v] followed by [d.get(k)]. *)
Lemma lookup_assign {A : Type} (k k' : str) (v : A) (d : list (str * A)) :
  lookup k (assign k' v d) = if str_eqb k k' then Some v else lookup k d.
Proof.
  induction d as [|[k0 v0] d IH]; simpl; [reflexivity|].
  destruct (str_eqb k' k0) eqn:E; simpl.
  - apply str_eqb_eq in E. subst k0. destruct (str_eqb k k'); reflexivity.
  - rewrite IH. destruct (str_eqb k k0) eqn:F; [|reflexivity].
    apply str_eqb_eq in F. subst k0. rewrite str_eqb_sym, E. reflexivity.
Qed.

Lemma lookup_index_epic (eid : str) (idx : list (str * dict)) (epic : dict) :
  lookup eid (index_epic idx epic)
  = match get "id" epic with
    | VStr t => if str_eqb eid t then Some epic else lookup eid idx
    | _ => lookup eid idx
    end.
Proof.
  unfold index_epic. destruct (get "id" epic); try reflexivity.
  apply lookup_assign.
Qed.

Lemma index_epics_sound (l : list dict) (idx : list (str * dict))
    (eid : str) (e : dict) :
  lookup eid (fold_left index_epic l idx) = Some e ->
  (In e l /\ get "id" e = VStr eid) \/ lookup eid idx = Some e.
Proof.
  revert idx. induction l as [|x l IH]; intros idx H; simpl in H; [auto|].
  destruct (IH _ H) as [[Hin Hid]|Hl]; [left; split; [right|]; assumption|].
  rewrite lookup_index_epic in Hl.
  destruct (get "id" x) as [| | | |t| |] eqn:Ex; auto.
  destruct (str_eqb eid t) eqn:Et; [|auto].
  apply str_eqb_eq in Et. subst t. injection Hl as <-.
  left. split; [left; reflexivity|exact Ex].
Qed.

Lemma index_epics_complete (l : list dict) (idx : list (str * dict))
    (eid : str) :
  (exists e, In e l /\ get "id" e = VStr eid) \/ lookup eid idx <> None ->
  lookup eid (fold_left index_epic l idx) <> None.
Proof.
  revert idx. induction l as [|x l IH]; intros idx H; simpl.
  - destruct H as [[e [[] _]]|H]. exact H.
  - apply IH. destruct H as [[e [[<-|Hin] Hid]]|H].
    + right. rewrite lookup_index_epic, Hid, str_eqb_refl. discriminate.
    + left. exists e. auto.
    + right. rewrite lookup_index_epic.
      destruct (get "id" x) as [| | | |t| |]; try exact H.
      destruct (str_eqb eid t); [discriminate|exact H].
Qed.

Lemma sorted_epics_in (rt : runtime) (epics : list value) (e : dict) :
  In e (sorted_epics rt epics) <-> In (VDict e) epics.
Proof.
  unfold sorted_epics. rewrite sorted_in. unfold dicts_of.
  rewrite in_flat_map. split.
  - intros [x [Hx H]]. destruct x; simpl in H; try contradiction.
    destruct H as [<-|[]]. exact Hx.
  - intros H. exists (VDict e). simpl. auto.
Qed.

(** The heading of the group of an epic id shows the title of a mapping of
    [epics] with that id when there is one, and the placeholder when there
    is none: an issue may refer to an epic that [epics] does not have. The
    id itself is shown as it is. *)
Theorem group_heading_title (rt : runtime) (epics : list value)
    (epic_id : str) :
  ((exists e, In (VDict e) epics /\ get "id" e = VStr epic_id) ->
   exists e,
     In (VDict e) epics /\ get "id" e = VStr epic_id
     /\ group_heading_lines rt (epic_index rt epics) (Some epic_id)
        = [[]; lit "### " ++ epic_id ++ lit ": "
               ++ _md_cell rt (get "title" e)])
  /\ (~ (exists e, In (VDict e) epics /\ get "id" e = VStr epic_id) ->
      group_heading_lines rt (epic_index rt epics) (Some epic_id)
      = [[]; lit "### " ++ epic_id ++ lit ": " ++ DASH]).
Proof.
  rewrite epic_index_fold. unfold group_heading_lines. split.
  - intros [e [Hin Hid]].
    destruct (lookup epic_id (fold_left index_epic (sorted_epics rt epics) []))
      as [e'|] eqn:L.
    + destruct (index_epics_sound _ _ _ _ L) as [[Hin' Hid']|C];
        [|discriminate].
      exists e'. split; [apply (sorted_epics_in rt); exact Hin'|].
      split; [exact Hid'|reflexivity].
    + exfalso. apply (index_epics_complete (sorted_epics rt epics) [] epic_id);
        [|exact L].
      left. exists e. split; [apply sorted_epics_in; exact Hin|exact Hid].
  - intros Hno.
    destruct (lookup epic_id (fold_left index_epic (sorted_epics rt epics) []))
      as [e'|] eqn:L; [|reflexivity].
    destruct (index_epics_sound _ _ _ _ L) as [[Hin' Hid']|C]; [|discriminate].
    exfalso. apply Hno. exists e'. split; [|exact Hid'].
    apply (sorted_epics_in rt). exact Hin'.
Qed.

(** The epic of the scenario and an epic id that [epics] does not have. *)
Lemma group_heading_title_witness :
  (exists e,
      In (VDict e)
        [VDict [field "id" (jstr "E-1"); field "title" (jstr "Accounts")]]
      /\ get "id" e = VStr (lit "E-1")
      /\ group_heading_lines example_runtime
           (epic_index example_runtime
              [VDict [field "id" (jstr "E-1");
                      field "title" (jstr "Accounts")]])
           (Some (lit "E-1"))
         = [[]; lit "### " ++ lit "E-1" ++ lit ": "
                ++ _md_cell example_runtime (get "title" e)])
  /\ group_heading_lines example_runtime (epic_index example_runtime [])
       (Some (lit "E-7"))
     = [[]; lit "### " ++ lit "E-7" ++ lit ": " ++ DASH].
Proof.
  split.
  - apply (group_heading_title example_runtime
             [VDict [field "id" (jstr "E-1"); field "title" (jstr "Accounts")]]
             (lit "E-1")).
    eexists. split; [left; reflexivity|reflexivity].
  - apply (group_heading_title example_runtime [] (lit "E-7")).
    intros [e [[] _]].
Defined.

(** ** The Meta, Assumptions and Open Questions sections *)

Lemma flat_map_length_bounds {A B : Type} (f : A -> list B) (l : list A)
    (lo hi : nat) :
  (forall x, In x l -> (lo <= List.length (f x) <= hi)%nat) ->
  (lo * List.length l <= List.length (flat_map f l) <= hi * List.length l)%nat.
Proof.
  induction l as [|x l IH]; simpl; intros H; [lia|].
  rewrite length_app. specialize (IH (fun y Hy => H y (or_intror Hy))).
  specialize (H x (or_introl eq_refl)). lia.
Qed.

(** [_render_meta] raises the [ValueError] of [int] when the id of an
    open question holds more digits than [int] converts, and nothing else.
    When it returns, it has appended the Meta lines, one bullet per
    assumption or the placeholder bullet, and the Open Questions heading
    followed by the question lines: the placeholder bullet when
    [open_questions] is missing, not a list or empty; nothing at all when it
    is a non-empty list without any mapping; and otherwise one or two lines
    for each mapping of the list. *)
Theorem render_meta_shape (rt : runtime) (meta : dict) :
  let open_questions := list_or_empty (get "open_questions" meta) in
  (forallb (within_int_limit rt) (map (get "id") (dicts_of open_questions))
   = true ->
   exists questions,
     runs (_render_meta rt meta) tt (meta_head rt meta ++ questions)
     /\ (open_questions = [] -> questions = [lit "- " ++ DASH])
     /\ (open_questions <> [] ->
         let n := List.length (dicts_of open_questions) in
         (n <= List.length questions <= 2 * n)%nat))
  /\ (forallb (within_int_limit rt) (map (get "id") (dicts_of open_questions))
      = false ->
      exists msg,
        forall lines, _render_meta rt meta lines = Raise (ValueError msg)).
Proof.
  cbv zeta. split.
  2:{ intros Hw. destruct (meta_error rt meta) as [e|] eqn:He.
      - pose proof He as He'. rewrite meta_error_questions in He'.
        destruct (first_error_value _ _ _ He') as [msg ->]. exists msg.
        apply render_meta_raises. exact He.
      - rewrite meta_error_questions in He.
        apply first_error_within in He. congruence. }
  intros Hw. apply first_error_within in Hw.
  unfold _render_meta, meta_head.
  set (oq := list_or_empty (get "open_questions" meta)) in *.
  set (body := fun q : dict =>
       let q_id := _md_cell rt (get "id" q) in
       let q_type := _md_cell rt (get "type" q) in
       let owner := _md_cell rt (get "owner" q) in
       let question := _md_cell rt (get "question" q) in
       append (lit "- **" ++ q_id ++ lit "** (" ++ q_type ++ lit ", owner: "
               ++ owner ++ lit "): " ++ question) ;;
       match get "context" q with
       | VStr context =>
           match strip context with
           | [] => ret tt
           | _ => append (lit "  - Context: " ++ _md_cell rt (VStr context))
           end
       | _ => ret tt
       end).
  assert (Hb : forall q,
             exists out, runs (body q) tt out
                         /\ (1 <= List.length out <= 2)%nat).
  { intros q. unfold body. cbv zeta.
    destruct (get "context" q) as [| | | |c| |];
      try (eexists; split; [run|simpl; lia]).
    destruct (strip c); eexists; (split; [run|simpl; lia]). }
  set (qs := sorted id_key_ltb
               (fun item => id_key_of rt (get "id" item) Q_PREFIX_ORDER)
               (dicts_of oq)).
  assert (Hq : exists questions,
             runs (match oq with
                   | [] => append (lit "- " ++ DASH)
                   | _ =>
                       questions <-
                         lift (py_sorted id_key_ltb
                                 (fun item =>
                                    _id_key rt (get "id" item) Q_PREFIX_ORDER)
                                 (dicts_of oq)) ;;
                       for_each questions body
                   end) tt questions
             /\ (oq = [] -> questions = [lit "- " ++ DASH])
             /\ (oq <> [] ->
                 (List.length (dicts_of oq) <= List.length questions
                  <= 2 * List.length (dicts_of oq))%nat)).
  { rewrite py_sorted_cases, Hw. fold qs.
    assert (Hlen : List.length qs = List.length (dicts_of oq))
      by apply sorted_length.
    clearbody qs.
    destruct oq as [|q0 oq'] eqn:E.
    - eexists. split; [apply runs_append|]. split; [reflexivity|].
      intros H. destruct (H eq_refl).
    - exists (flat_map (fun q => output (body q)) qs). split; [|split].
      + apply runs_lift_ok. apply runs_for_each_output. intros q _.
        destruct (Hb q) as [out [Hr _]]. exists out. exact Hr.
      + discriminate.
      + intros _. rewrite <- Hlen.
        pose proof (flat_map_length_bounds (fun q => output (body q)) qs 1 2)
          as B.
        rewrite Nat.mul_1_l in B. apply B. intros q _.
        destruct (Hb q) as [out [Hr Hl]]. rewrite (runs_output _ _ _ Hr).
        exact Hl. }
  destruct Hq as [questions [Hr [H1 H2]]]. exists questions.
  split; [|split; [exact H1|exact H2]].
  eapply runs_eq.
  - eapply runs_bind; [apply runs_append|].
    eapply runs_bind; [apply runs_append|].
    eapply runs_bind; [apply runs_append|].
    eapply runs_bind; [apply runs_append|].
    eapply runs_bind; [apply runs_append|].
    eapply runs_bind;
      [apply (runs_items_or_dash rt (lit "- ")
                (list_or_empty (get "assumptions" meta)))|].
    eapply runs_bind; [apply runs_append|].
    eapply runs_bind; [apply runs_append|exact Hr].
  - cbn [app]. do 5 f_equal. rewrite <- !app_assoc.
    destruct (list_or_empty (get "assumptions" meta)); reflexivity.
Qed.

(** A meta with one open question without id, and one whose only open
    question has an id of 4301 digits under the default limit of 4300. *)
Lemma render_meta_shape_witness :
  (exists questions,
      runs (_render_meta example_runtime
              [field "open_questions" (VList [VDict []])]) tt
        (meta_head example_runtime
           [field "open_questions" (VList [VDict []])] ++ questions)
      /\ ([VDict []] = [] -> questions = [lit "- " ++ DASH])
      /\ ([VDict []] <> [] ->
          (1 <= List.length questions <= 2)%nat))
  /\ exists msg,
       forall lines,
         _render_meta example_runtime
           [field "open_questions"
              (VList [VDict [field "id"
                               (VStr (lit "Q-" ++ repeat 49 4301))]])]
           lines
         = Raise (ValueError msg).
Proof.
  split.
  - apply (render_meta_shape example_runtime
             [field "open_questions" (VList [VDict []])]).
    reflexivity.
  - apply (render_meta_shape example_runtime
             [field "open_questions"
                (VList [VDict [field "id"
                                 (VStr (lit "Q-" ++ repeat 49 4301))]])]).
    vm_compute. reflexivity.
Defined.

(** ** Text that needs no formatting *)

Lemma replace_char_absent (c : char) (by_ t : str) :
  ~ In c t -> replace_char c by_ t = t.
Proof.
  unfold replace_char. induction t as [|x t IH]; intros H; [reflexivity|].
  simpl. destruct (N.eqb_spec x c).
  - exfalso. apply H. left. exact e.
  - simpl. rewrite IH; [reflexivity|]. intros Hin. apply H. right. exact Hin.
Qed.

Lemma hd_rev_last (t : str) (d : char) : hd d (rev t) = last t d.
Proof.
  induction t as [|x t IH]; [reflexivity|]. simpl rev.
  destruct t as [|y t]; [reflexivity|].
  change (last (x :: y :: t) d) with (last (y :: t) d). rewrite <- IH.
  destruct (rev (y :: t)) eqn:E; [|reflexivity].
  apply (f_equal (@List.length char)) in E. rewrite length_rev in E.
  discriminate.
Qed.

Lemma strip_clean (c : char) (t : str) :
  is_space c = false -> is_space (last (c :: t) c) = false ->
  strip (c :: t) = c :: t.
Proof.
  intros Hc Hl. unfold strip. simpl lstrip. rewrite Hc. unfold rstrip.
  rewrite <- hd_rev_last in Hl.
  destruct (rev (c :: t)) as [|x r] eqn:E.
  - apply (f_equal (@List.length char)) in E. rewrite length_rev in E.
    discriminate.
  - simpl in Hl. simpl lstrip. rewrite Hl, <- E. apply rev_involutive.
Qed.

(** The cell formatter leaves clean text as it is. *)
Theorem md_cell_clean_text (rt : runtime) (t : str) :
  clean_text t -> _md_cell rt (VStr t) = t.
Proof.
  intros [Hn [Hp Ht]]. destruct t as [|c t]; [contradiction|].
  destruct Ht as [Hc Hl]. rewrite md_cell_unfold. unfold cell_text.
  simpl py_str. rewrite (replace_char_absent NEWLINE _ _ Hn).
  rewrite (strip_clean c t Hc Hl). apply (replace_char_absent PIPE _ _ Hp).
Qed.

(** The title of the scenario story. *)
Lemma md_cell_clean_text_witness :
  _md_cell example_runtime (jstr "Login") = lit "Login".
Proof.
  apply (md_cell_clean_text example_runtime (lit "Login")).
  unfold clean_text. split; [|split].
  - simpl. intuition discriminate.
  - simpl. intuition discriminate.
  - split; reflexivity.
Defined.

(** Formatting a value and then the resulting cell again gives the same
    cell, as long as the cell has no pipe (a second pass would escape a
    pipe once more). *)
Theorem md_cell_twice (rt : runtime) (v : value) :
  ~ In PIPE (_md_cell rt v) ->
  _md_cell rt (VStr (_md_cell rt v)) = _md_cell rt v.
Proof.
  intros Hp. pose proof (md_cell_no_newline rt v) as Hn.
  pose proof (md_cell_trimmed rt v) as Ht.
  destruct (_md_cell rt v) as [|c t]; [contradiction|].
  destruct Ht as [Hc Hl]. rewrite md_cell_unfold. unfold cell_text.
  simpl py_str. rewrite (replace_char_absent NEWLINE _ _ Hn).
  rewrite (strip_clean c t Hc Hl). apply (replace_char_absent PIPE _ _ Hp).
Qed.

(** The estimate ["points 5"], formatted twice as in the detail block. *)
Lemma md_cell_twice_witness :
  _md_cell example_runtime
    (VStr (_md_cell example_runtime (jstr " points 5 ")))
  = _md_cell example_runtime (jstr " points 5 ").
Proof.
  apply (md_cell_twice example_runtime (jstr " points 5 ")).
  vm_compute. intuition discriminate.
Defined.

(** ** Lines of the report and lines of the text *)

Lemma no_newline_single (t : str) : no_newline t = true -> single_line t.
Proof.
  unfold no_newline, single_line. intros H Hin.
  apply negb_true_iff in H.
  assert (E : existsb (N.eqb NEWLINE) t = true).
  { apply existsb_exists. exists NEWLINE. split; [exact Hin|].
    apply N.eqb_refl. }
  congruence.
Qed.

Lemma single_line_app (a b : str) :
  single_line a -> single_line b -> single_line (a ++ b).
Proof.
  unfold single_line. intros Ha Hb Hin. apply in_app_or in Hin. tauto.
Qed.

Lemma single_line_cell (rt : runtime) (v : value) :
  single_line (_md_cell rt v).
Proof. apply md_cell_no_newline. Qed.

Ltac single :=
  repeat first
    [ apply single_line_cell
    | apply no_newline_single; reflexivity
    | apply single_line_app ].

Lemma emits_ret {A : Type} (P : str -> Prop) (a : A) : emits P (ret a).
Proof. exists a, []. split; [apply runs_ret|constructor]. Qed.

Lemma emits_append (P : str -> Prop) (line : str) :
  P line -> emits P (append line).
Proof.
  intros H. exists tt, [line]. split; [apply runs_append|].
  constructor; [exact H|constructor].
Qed.

Lemma emits_bind {A B : Type} (P : str -> Prop) (m : M A) (k : A -> M B) :
  emits P m -> (forall a, emits P (k a)) -> emits P (bind m k).
Proof.
  intros [a [o1 [H1 F1]]] Hk. destruct (Hk a) as [b [o2 [H2 F2]]].
  exists b, (o1 ++ o2). split; [apply (runs_bind _ _ a); assumption|].
  apply Forall_app. auto.
Qed.

Lemma emits_for_each {A : Type} (P : str -> Prop) (xs : list A)
    (body : A -> M unit) :
  (forall x, In x xs -> emits P (body x)) -> emits P (for_each xs body).
Proof.
  induction xs as [|x xs IH]; simpl; intros H; [apply emits_ret|].
  apply emits_bind; [apply H; auto|]. intros _. apply IH. auto.
Qed.

Lemma emits_output {A : Type} (P : str -> Prop) (m : M A) :
  emits P m -> Forall P (output m).
Proof.
  intros [a [out [H F]]]. rewrite (runs_output _ _ _ H). exact F.
Qed.

Ltac emit :=
  repeat first
    [ apply emits_ret
    | apply emits_append; single
    | apply emits_bind; [|intros] ].

Lemma emits_append_items (rt : runtime) (prefix : str) (items : list value) :
  single_line prefix -> emits single_line (append_items rt prefix items).
Proof.
  intros Hp. unfold append_items. apply emits_for_each. intros x _.
  apply emits_append. apply single_line_app; [exact Hp|single].
Qed.

Lemma emits_append_items_or_dash (rt : runtime) (prefix : str)
    (items : list value) :
  single_line prefix ->
  emits single_line (append_items_or_dash rt prefix items).
Proof.
  intros Hp. destruct items as [|i items].
  - apply emits_append. apply single_line_app; [exact Hp|single].
  - apply emits_append_items. exact Hp.
Qed.

Lemma emits_append_field (rt : runtime) (label field : string)
    (issue : dict) :
  single_line (lit label) ->
  emits single_line (append_field rt label field issue).
Proof.
  intros Hl. unfold append_field.
  apply emits_bind; [apply emits_append; single|intros _].
  apply emits_bind; [apply emits_append; exact Hl|intros _].
  apply emits_append. single.
Qed.

Lemma emits_append_section (rt : runtime) (label field : string)
    (issue : dict) :
  single_line (lit label) ->
  emits single_line (append_section rt label field issue).
Proof.
  intros Hl. unfold append_section.
  apply emits_bind; [apply emits_append; single|intros _].
  apply emits_bind; [apply emits_append; exact Hl|intros _].
  apply emits_append_items_or_dash. single.
Qed.

Lemma emits_append_optional_section (rt : runtime) (label field : string)
    (issue : dict) :
  single_line (lit label) ->
  emits single_line (append_optional_section rt label field issue).
Proof.
  intros Hl. unfold append_optional_section.
  destruct (list_or_empty (get field issue)) as [|i items] eqn:E.
  - apply emits_ret.
  - apply emits_bind; [apply emits_append; single|intros _].
    apply emits_bind; [apply emits_append; exact Hl|intros _].
    apply emits_append_items. single.
Qed.

Ltac emit_sections :=
  repeat first
    [ apply emits_append_field; single
    | apply emits_append_section; single
    | apply emits_append_optional_section; single
    | apply emits_bind; [|intros] ].

(** Whatever the fields of an issue hold, every line of its detail block
    is a single line of the text. *)
Lemma emits_render_issue_details (rt : runtime) (issue : dict) :
  hashable_type issue = true ->
  emits single_line (_render_issue_details rt issue).
Proof.
  intros H. destruct (hashable_type_display issue H) as [shown Hs].
  unfold _render_issue_details.
  apply emits_bind; [|intros _; apply emits_bind; [|intros _; emit]].
  - unfold _render_issue_common. rewrite Hs.
    apply emits_bind; [apply emits_append; single|intros _].
    apply emits_bind;
      [exists shown, []; split; [apply runs_ret|constructor]|intros].
    emit.
  - destruct (eq_str (get "type" issue) "user_story");
      [unfold _render_user_story; emit_sections|].
    destruct (eq_str (get "type" issue) "task");
      [unfold _render_task; emit_sections|].
    destruct (eq_str (get "type" issue) "bug");
      [unfold _render_bug; emit_sections|].
    apply emits_ret.
Qed.

Lemma row_single_line (rt : runtime) (issue : dict) (row : str) :
  is_row_of rt issue row -> single_line row.
Proof.
  intros [shown [_ ->]]. unfold table_row, row_cells. cbn [join]. single.
Qed.

Lemma emits_lift_ok {A B : Type} (P : str -> Prop) (a : A) (k : A -> M B) :
  emits P (k a) -> emits P (x <- lift (Ok a) ;; k x).
Proof.
  intros [b [out [H F]]]. exists b, out. split; [|exact F].
  apply runs_lift_ok. exact H.
Qed.

Lemma emits_render_meta (rt : runtime) (meta : dict) :
  meta_error rt meta = None ->
  emits single_line (_render_meta rt meta).
Proof.
  unfold _render_meta, meta_error. intros Hm.
  apply emits_bind; [apply emits_append; single|intros _].
  apply emits_bind; [apply emits_append; single|intros _].
  apply emits_bind; [apply emits_append; single|intros _].
  apply emits_bind; [apply emits_append; single|intros _].
  apply emits_bind; [apply emits_append; single|intros _].
  apply emits_bind; [apply emits_append_items_or_dash; single|intros _].
  apply emits_bind; [apply emits_append; single|intros _].
  apply emits_bind; [apply emits_append; single|intros _].
  destruct (list_or_empty (get "open_questions" meta)) as [|q0 qs].
  - apply emits_append. single.
  - rewrite py_sorted_cases, Hm. apply emits_lift_ok.
    apply emits_for_each. intros q _. cbv zeta.
    apply emits_bind; [apply emits_append; single|intros _].
    destruct (get "context" q) as [| | | |c| |]; try apply emits_ret.
    destruct (strip c); [apply emits_ret|apply emits_append; single].
Qed.

Lemma emits_for_fold {A S : Type} (P : str -> Prop) (xs : list A)
    (body : A -> S -> M S) :
  (forall x s, emits P (body x s)) -> forall s, emits P (for_fold xs s body).
Proof.
  intros Hb. induction xs as [|x xs IH]; intros s; simpl.
  - apply emits_ret.
  - apply emits_bind; [apply Hb|]. intros s'. apply IH.
Qed.

(** After a heading, dropping the blank line at the end drops no other
    line. *)
Lemma pop_blank_after (h : str) (out : list str) :
  h <> [] ->
  exists out',
    (forall lines,
        pop_blank (lines ++ h :: out) = Ok (tt, lines ++ h :: out'))
    /\ forall P : str -> Prop, Forall P out -> Forall P out'.
Proof.
  intros Hh. induction out as [|x o _] using rev_ind.
  - exists []. split; [|auto]. intros lines. unfold pop_blank.
    rewrite rev_app_distr. simpl. destruct h; [contradiction|reflexivity].
  - destruct x as [|c x'].
    + exists o. split.
      * intros lines. change (h :: o ++ [[]]) with ((h :: o) ++ [[]]).
        rewrite app_assoc. apply pop_blank_snoc.
      * intros P H. apply Forall_app in H. tauto.
    + exists (o ++ [c :: x']). split; [|auto]. intros lines.
      unfold pop_blank.
      change (h :: o ++ [c :: x']) with ((h :: o) ++ [c :: x']).
      rewrite app_assoc, rev_app_distr. reflexivity.
Qed.

Lemma emits_pop_after {A : Type} (P : str -> Prop) (h : str) (m : M A) :
  h <> [] -> P h -> emits P m ->
  emits P (append h ;; x <- m ;; pop_blank ;; ret x).
Proof.
  intros Hh Ph [a [out [Hm Hall]]].
  destruct (pop_blank_after h out Hh) as [out' [Hpop Hkeep]].
  exists a, (h :: out'). split.
  - intros lines. unfold bind, append. rewrite Hm, <- app_assoc.
    cbn [app]. rewrite Hpop. reflexivity.
  - constructor; [exact Ph|]. apply Hkeep. exact Hall.
Qed.

Lemma emits_render_epics (rt : runtime) (epics : list value) :
  epics_error rt epics = None ->
  emits single_line (_render_epics rt epics).
Proof.
  unfold _render_epics, epics_error. intros He.
  apply emits_bind; [apply emits_append; single|intros _]. cbv zeta.
  destruct (dicts_of epics) as [|e0 es].
  - emit.
  - rewrite py_sorted_cases, He.
    match goal with
    | |- emits _ (append ?h ;; xs <- lift (Ok ?l) ;; x <- @?m xs ;; ?k) =>
        change (emits single_line (append h ;; x <- m l ;; k))
    end.
    apply emits_pop_after; [discriminate|single|].
    apply emits_for_fold. intros x s. cbv zeta.
    apply emits_bind; [apply emits_append; single|intros _].
    apply emits_bind; [apply emits_append; single|intros _].
    apply emits_bind; [apply emits_append; single|intros _].
    apply emits_bind; [apply emits_append_items_or_dash; single|intros _].
    apply emits_bind.
    + destruct (list_or_empty (get "non_goals" x)) as [|g gs];
        [apply emits_ret|].
      apply emits_bind; [apply emits_append; single|intros _].
      apply emits_append_items. single.
    + intros _. emit.
Qed.

(** Every group heading of the section is the epic key of an issue. *)
Lemma group_heading_issue (rt : runtime) (issues : list value)
    (k : group_key) :
  In (GroupHeading k) (details_entries rt issues)
  <-> exists i, In (VDict i) issues /\ epic_key i = k.
Proof.
  unfold details_entries. cbv zeta. rewrite in_flat_map. split.
  - intros [k' [Hk H]]. unfold group_entries in H. cbv zeta in H.
    apply in_inv in H. destruct H as [H|H].
    + injection H as <-. apply sorted_group_keys_in, group_index_keys in Hk.
      destruct Hk as [x [Hx E]]. exists x. split; [|exact E].
      apply sorted_issues_in in Hx. exact Hx.
    + apply in_app_or in H. destruct H as [H|H].
      * apply in_flat_map in H. destruct H as [st [_ H]].
        unfold story_entries in H. apply in_inv in H.
        destruct H as [H|H]; [discriminate|].
        apply in_map_iff in H. destruct H as [c [E _]]. discriminate.
      * apply in_map_iff in H. destruct H as [c [E _]]. discriminate.
  - intros [i [Hi E]]. exists k. split.
    + apply sorted_group_keys_in, group_index_keys. exists i.
      split; [|exact E]. apply sorted_issues_in. exact Hi.
    + unfold group_entries. cbv zeta. left. reflexivity.
Qed.

Lemma no_newline_false (t : str) : no_newline t = false -> In NEWLINE t.
Proof.
  unfold no_newline. intros H. apply negb_false_iff in H.
  apply existsb_exists in H. destruct H as [x [Hx E]].
  apply N.eqb_eq in E. subst x. exact Hx.
Qed.

Lemma forallb_false {A : Type} (f : A -> bool) (l : list A) :
  forallb f l = false -> exists x, In x l /\ f x = false.
Proof.
  induction l as [|a l IH]; simpl; [discriminate|].
  destruct (f a) eqn:E; simpl.
  - intros H. destruct (IH H) as [x [Hx Fx]]. exists x. auto.
  - intros _. exists a. auto.
Qed.

Lemma dicts_of_in (issues : list value) (i : dict) :
  In i (dicts_of issues) <-> In (VDict i) issues.
Proof.
  unfold dicts_of. rewrite in_flat_map. split.
  - intros [x [Hx H]]. destruct x; simpl in H; try contradiction.
    destruct H as [<-|[]]. exact Hx.
  - intros H. exists (VDict i). simpl. auto.
Qed.

(** The report without the JSON section is a list of lines that are joined
    with newlines. A line of that list is one line of the text, whatever the
    fields of the bundle hold, with two exceptions that the code shows as
    they are: the project name in the title and the epic id in a group
    heading. The lines of a report are all single lines exactly when neither
    the project name nor the epic id of an issue has a newline. *)
Theorem report_lines_single (rt : runtime) (b : dict) (lines : list str) :
  render_lines rt (VDict b) false = Ok lines ->
  Forall single_line lines <-> verbatim_single b = true.
Proof.
  intros H.
  destruct (render_lines_sorts _ _ _ _ H) as [Hhead [_ [rows [Hrows ->]]]].
  clear H. unfold head_error in Hhead.
  destruct (meta_error rt
              (match get "meta" b with VDict m => m | _ => [] end))
    eqn:Em; [discriminate|].
  destruct (epics_error rt (list_or_empty (get "epics" b))) eqn:Ee;
    [discriminate|].
  pose proof (summary_rows_hashable _ _ _ Hrows) as Hh.
  pose proof (summary_rows_rows _ _ _ Hrows) as Hr.
  unfold report_lines, verbatim_single. split.
  - intros F. apply andb_true_intro. split.
    + destruct (no_newline (title_line b)) eqn:E; [reflexivity|].
      apply no_newline_false in E. apply Forall_app in F.
      destruct F as [F _]. apply Forall_inv in F. contradiction.
    + destruct (forallb epic_id_single
                  (dicts_of (list_or_empty (get "issues" b)))) eqn:E;
        [reflexivity|].
      apply forallb_false in E. destruct E as [i [Hi E]].
      unfold epic_id_single in E.
      destruct (epic_key i) as [eid|] eqn:K; [|discriminate].
      apply no_newline_false in E. apply dicts_of_in in Hi.
      assert (Hg : In (GroupHeading (Some eid))
                     (details_entries rt (list_or_empty (get "issues" b)))).
      { apply group_heading_issue. exists i. auto. }
      do 4 (apply Forall_app in F; destruct F as [_ F]).
      apply Forall_app in F. destruct F as [F _].
      apply Forall_flat_map in F. rewrite Forall_forall in F.
      specialize (F _ Hg). unfold entry_lines, group_heading_lines in F.
      apply Forall_inv_tail, Forall_inv in F.
      exfalso. apply F. apply in_or_app. right. apply in_or_app. left.
      exact E.
  - intros V. apply andb_prop in V. destruct V as [Vt Ve].
    rewrite forallb_forall in Ve.
    apply Forall_app. split.
    { constructor; [apply no_newline_single; exact Vt|].
      unfold head_lines. apply Forall_app. split;
        [constructor; [single|constructor]|].
      apply Forall_app. split; apply emits_output;
        [apply emits_render_meta; exact Em
        |apply emits_render_epics; exact Ee]. }
    apply Forall_app. split.
    { unfold table_head. repeat (constructor; [single|]). constructor. }
    apply Forall_app. split.
    { clear -Hr. induction Hr as [|i row is_ rows_ Hi _ IH]; constructor;
        [exact (row_single_line _ _ _ Hi)|exact IH]. }
    apply Forall_app. split.
    { repeat (constructor; [single|]). constructor. }
    apply Forall_app. split; [|constructor].
    apply Forall_flat_map. apply Forall_forall. intros e He.
    destruct e as [k|i|st i]; simpl.
    + apply group_heading_issue in He. destruct He as [i [Hi K]].
      destruct k as [eid|].
      * apply dicts_of_in in Hi. specialize (Ve _ Hi).
        unfold epic_id_single in Ve. rewrite K in Ve.
        constructor; [single|]. constructor; [|constructor].
        apply single_line_app; [single|].
        apply single_line_app; [apply no_newline_single; exact Ve|single].
      * repeat (constructor; [single|]). constructor.
    + apply emits_output, emits_render_issue_details.
      rewrite forallb_forall in Hh. apply Hh.
      eapply details_entries_issue; [exact He|reflexivity].
    + apply emits_output, emits_render_issue_details.
      rewrite forallb_forall in Hh. apply Hh.
      eapply details_entries_issue; [exact He|reflexivity].
Qed.

Lemma report_lines_single_witness :
  Forall single_line
    (match render_lines example_runtime scenario_bundle false with
     | Ok lines => lines
     | Raise _ => []
     end)
  <-> verbatim_single
        (match scenario_bundle with VDict b => b | _ => [] end) = true.
Proof.
  apply (report_lines_single example_runtime
           (match scenario_bundle with VDict b => b | _ => [] end)).
  vm_compute. reflexivity.
Defined.

(** ** The command line *)



Lemma render_text_nonempty (rt : runtime) (bundle : value)
    (include_json : bool) (text : str) :
  render_issue_bundle_markdown rt bundle include_json = Ok text ->
  text <> [].
Proof.
  unfold render_issue_bundle_markdown.
  destruct (render_lines rt bundle include_json) as [lines|e];
    [|discriminate].
  intros H. injection H as <-. unfold finish.
  destruct (rstrip (join [NEWLINE] lines)); discriminate.
Qed.

Lemma error_line_last (warnings errors : list str) :
  errors <> [] ->
  exists before msg,
    map (fun w => lit "warning: " ++ w) warnings
    ++ map (fun e => lit "error: " ++ e) errors
    = before ++ [lit "error: " ++ msg].
Proof.
  intros H. destruct (exists_last H) as [es [e ->]].
  exists (map (fun w => lit "warning: " ++ w) warnings
          ++ map (fun e => lit "error: " ++ e) es), e.
  rewrite map_app, app_assoc. reflexivity.
Qed.

(** The last step of [main]: render, then write. *)
Lemma render_step_status (rt : runtime) (env : environment) (bundle : value)
    (include_json : bool) (printed : list str) :
  let o :=
    match render_issue_bundle_markdown rt bundle include_json with
    | Raise (ValueError e) =>
        {| status_of := Returns 2; stdout := [];
           stderr := printed ++ [lit "error: " ++ e] |}
    | Raise e =>
        {| status_of := Propagates (RaisedByRender e); stdout := [];
           stderr := printed |}
    | Ok md =>
        match stdout_write env md with
        | WriteRaises written e =>
            {| status_of := Propagates (RaisedByWrite e); stdout := written;
               stderr := printed |}
        | Written =>
            {| status_of := Returns 0; stdout := md; stderr := printed |}
        end
    end in
  (status_of o = Returns 0 ->
   render_issue_bundle_markdown rt bundle include_json = Ok (stdout o)
   /\ stdout_write env (stdout o) = Written
   /\ stdout o <> [])
  /\ (stdout o <> [] ->
      exists text,
        render_issue_bundle_markdown rt bundle include_json = Ok text
        /\ ((status_of o = Returns 0 /\ stdout o = text)
            \/ exists e,
                 stdout_write env text = WriteRaises (stdout o) e
                 /\ status_of o = Propagates (RaisedByWrite e)))
  /\ (forall code,
         status_of o = Returns code -> code <> 0%Z ->
         (code = 1%Z \/ code = 2%Z)
         /\ stdout o = []
         /\ exists before msg, stderr o = before ++ [lit "error: " ++ msg])
  /\ (status_of o = Returns 1 -> False).
Proof.
  cbv zeta.
  destruct (render_issue_bundle_markdown rt bundle include_json)
    as [md|[e|e]] eqn:E.
  - destruct (stdout_write env md) as [|written e] eqn:Ew;
      cbn [status_of stdout stderr].
    + split; [intros _; split; [reflexivity|];
              split; [exact Ew|exact (render_text_nonempty _ _ _ _ E)]|].
      split; [intros _; exists md; split; [reflexivity|left; auto]|].
      split; [|discriminate].
      intros code H Hc. injection H as <-. contradiction.
    + split; [discriminate|].
      split; [intros _; exists md; split; [reflexivity|];
              right; exists e; auto|].
      split; discriminate.
  - cbn [status_of stdout stderr].
    split; [discriminate|]. split; [intros H; contradiction|].
    split; [|discriminate].
    intros code H Hc. injection H as <-. split; [auto|].
    split; [reflexivity|]. exists printed, e. reflexivity.
  - cbn [status_of stdout stderr].
    split; [discriminate|]. split; [intros H; contradiction|].
    split; discriminate.
Qed.

Ltac stops_with_error :=
  cbn [status_of stdout stderr];
  split; [discriminate|];
  split; [intros H; contradiction|];
  split;
    [intros code H Hc; injection H as <-; split; [auto|];
     split; [reflexivity|]|
     try discriminate].

Ltac stops_with_exception :=
  cbn [status_of stdout stderr];
  split; [discriminate|];
  split; [intros H; contradiction|];
  split; discriminate.

(** The contract of [main] with the shell. When [main] returns 0, the
    standard output holds the text the renderer returns for the parsed
    document, which is not empty and which the stream has taken. The
    standard output is written only after the renderer has returned a text:
    it then holds that text and [main] returns 0, or the write raises, no
    handler catches the exception, and the standard output holds what
    reached it before. A return value other than 0 is 1 or 2; the standard
    output is then empty and the last line printed to the standard error
    starts with [error: ]. The value 1 is returned only under
    [--validate]. *)
Theorem main_exit_status (rt : runtime) (env : environment)
    (args : arguments) :
  let o := main rt env args in
  (status_of o = Returns 0 ->
   exists raw bundle,
     _load_json_text env (path args) = ReadOk raw
     /\ loads env raw = Loaded bundle
     /\ render_issue_bundle_markdown rt bundle (negb (no_json args))
        = Ok (stdout o)
     /\ stdout_write env (stdout o) = Written
     /\ stdout o <> [])
  /\ (stdout o <> [] ->
      exists raw bundle text,
        _load_json_text env (path args) = ReadOk raw
        /\ loads env raw = Loaded bundle
        /\ render_issue_bundle_markdown rt bundle (negb (no_json args))
           = Ok text
        /\ ((status_of o = Returns 0 /\ stdout o = text)
            \/ exists e,
                 stdout_write env text = WriteRaises (stdout o) e
                 /\ status_of o = Propagates (RaisedByWrite e)))
  /\ (forall code,
         status_of o = Returns code -> code <> 0%Z ->
         (code = 1%Z \/ code = 2%Z)
         /\ stdout o = []
         /\ exists before msg, stderr o = before ++ [lit "error: " ++ msg])
  /\ (status_of o = Returns 1 -> validate args = true).
Proof.
  cbv zeta. unfold main.
  destruct (_load_json_text env (path args)) as [raw| |e|e] eqn:Hread.
  2:{ stops_with_error. exists []. eexists. reflexivity. }
  2:{ stops_with_error. exists []. eexists. reflexivity. }
  2:{ stops_with_exception. }
  destruct (loads env raw) as [bundle|e|e] eqn:Hloads.
  2:{ stops_with_error. exists []. eexists. reflexivity. }
  2:{ stops_with_exception. }
  cbv zeta.
  assert (R : forall printed,
             let o :=
               match render_issue_bundle_markdown rt bundle
                       (negb (no_json args)) with
               | Raise (ValueError e) =>
                   {| status_of := Returns 2; stdout := [];
                      stderr := printed ++ [lit "error: " ++ e] |}
               | Raise e =>
                   {| status_of := Propagates (RaisedByRender e);
                      stdout := []; stderr := printed |}
               | Ok md =>
                   match stdout_write env md with
                   | WriteRaises written e =>
                       {| status_of := Propagates (RaisedByWrite e);
                          stdout := written; stderr := printed |}
                   | Written =>
                       {| status_of := Returns 0; stdout := md;
                          stderr := printed |}
                   end
               end in
             (status_of o = Returns 0 ->
              exists raw' bundle',
                ReadOk raw = ReadOk raw'
                /\ loads env raw' = Loaded bundle'
                /\ render_issue_bundle_markdown rt bundle'
                     (negb (no_json args)) = Ok (stdout o)
                /\ stdout_write env (stdout o) = Written
                /\ stdout o <> [])
             /\ (stdout o <> [] ->
                 exists raw' bundle' text,
                   ReadOk raw = ReadOk raw'
                   /\ loads env raw' = Loaded bundle'
                   /\ render_issue_bundle_markdown rt bundle'
                        (negb (no_json args)) = Ok text
                   /\ ((status_of o = Returns 0 /\ stdout o = text)
                       \/ exists e,
                            stdout_write env text = WriteRaises (stdout o) e
                            /\ status_of o = Propagates (RaisedByWrite e)))
             /\ (forall code,
                    status_of o = Returns code -> code <> 0%Z ->
                    (code = 1%Z \/ code = 2%Z)
                    /\ stdout o = []
                    /\ exists before msg,
                         stderr o = before ++ [lit "error: " ++ msg])
             /\ (status_of o = Returns 1 -> validate args = true)).
  { intros printed.
    destruct (render_step_status rt env bundle (negb (no_json args)) printed)
      as [A [B [C D]]].
    cbv zeta in *. split; [|split; [|split; [exact C|]]].
    - intros H. exists raw, bundle. destruct (A H) as [A1 [A2 A3]]. auto.
    - intros H. destruct (B H) as [text [B1 B2]].
      exists raw, bundle, text. auto.
    - intros H. contradiction (D H). }
  destruct (validate args) eqn:V; [|apply R].
  destruct (import_validator env) as [v|e].
  - destruct (v bundle (strict args)) as [errors warnings|e].
    + destruct errors as [|e0 errors]; [apply R|].
      stops_with_error; [|reflexivity].
      apply (error_line_last warnings (e0 :: errors)). discriminate.
    + stops_with_exception.
  - stops_with_error. exists []. eexists. reflexivity.
Qed.



